(** * The debugging transaction tracer (lib/transaction/tracer/debug.js)

    A shallow embedding of the entity hierarchy (Transaction, Segment,
    Call), of the Describer that records what happens, and of the Tracer
    with its three proxies, followed by the properties of the tracer.

    JavaScript objects that are mutated after construction (transactions and
    segments, whose child counters grow) live in a store and are named by
    their index; calls are never mutated and are plain values.  Effectful
    code is written in a state-and-exception monad over the store: a throw
    keeps every mutation made before it, as in JavaScript. *)

From Stdlib Require Import ZArith DecimalString.
From Stdlib Require DecimalZ DecimalPos.
From stdpp Require Import base list strings.

Set Default Proof Using "Type".

(** ** Values *)

(** The JavaScript values the tracer handles without looking inside them.
    Numbers are the integers: every number of this code is a counter. *)
Inductive jsval : Type :=
  | JUndefined
  | JNull
  | JBool (b : bool)
  | JNum (n : Z)
  | JStr (s : string)
  | JObj (o : nat)
  | JFun (f : nat)
  | JError (message : string).

(** [!v] is false exactly on these. *)
Definition truthy (v : jsval) : bool :=
  match v with
  | JUndefined | JNull => false
  | JBool b => b
  | JNum n => negb (n =? 0)%Z
  | JStr s => negb (String.eqb s "")
  | JObj _ | JFun _ | JError _ => true
  end.

(** The result of running a piece of code: a value, or a thrown value. *)
Inductive Outcome (X : Type) : Type :=
  | Return (x : X)
  | Throw (e : jsval).
Arguments Return {X} x.
Arguments Throw {X} e.

(** [%d] of [util.format] on an integer. *)
Definition format_d (n : Z) : string := NilZero.string_of_int (Z.to_int n).

(** ** The entity hierarchy *)

Definition TransactionRef := nat.
Definition SegmentRef := nat.

Module Call.
Record t : Type := mk { id : Z; segment : SegmentRef; value : jsval }.

(** [function Call(id, segment, value)]; an absent segment is [None]. *)
Definition construct (id : Z) (segment : option SegmentRef) (value : jsval)
  : Outcome t :=
  if (id =? 0)%Z then Throw (JError "Calls must have an ID.")
  else match segment with
       | None => Throw (JError "Calls must be associated with a segment.")
       | Some segment =>
           if negb (truthy value)
           then Throw (JError "Calls must be associated with a segment value.")
           else Return (mk id segment value)
       end.
End Call.

Module Segment.
Record t : Type :=
  mk { id : Z; transaction : TransactionRef; value : jsval; numCalls : Z }.

(** [function Segment(id, transaction, value)]. *)
Definition construct (id : Z) (transaction : option TransactionRef)
    (value : jsval) : Outcome t :=
  if (id =? 0)%Z then Throw (JError "Segments must have an ID.")
  else match transaction with
       | None =>
           Throw (JError "Segments must be associated with a transaction.")
       | Some transaction =>
           if negb (truthy value)
           then Throw (JError "Segments must be associated with a value.")
           else Return (mk id transaction value 0)
       end.

Definition set_numCalls (n : Z) (s : t) : t :=
  mk (id s) (transaction s) (value s) n.
End Segment.

Module Transaction.
Record t : Type := mk { id : Z; value : jsval; numSegments : Z }.

(** [function Transaction(id, value)]. *)
Definition construct (id : Z) (value : jsval) : Outcome t :=
  if (id =? 0)%Z then Throw (JError "Transactions must have an ID.")
  else if negb (truthy value)
       then Throw (JError "Transactions must be associated with a value.")
       else Return (mk id value 0).

Definition set_numSegments (n : Z) (x : t) : t := mk (id x) (value x) n.
End Transaction.

(** Modelled from the spec: the State module (lib/transaction/tracer/state),
    which the tracer requires and instantiates with [new State(...)].  The
    specification describes a State as an immutable triple of transaction,
    segment and call plus a boolean marker that the tracer always sets;
    States are compared by their components. *)
Module State.
Record t : Type :=
  mk { transaction : TransactionRef; segment : SegmentRef;
       call : Call.t; full : bool }.
End State.

(** ** The describer *)

Record Describer : Type := mkDescriber {
  trace : list string;
  creations : list string;
  wrappings : list string;
  verbose : list string
}.

(** [function Describer()]. *)
Definition Describer_construct : Describer := mkDescriber [] [] [] [].

Definition push_trace (id : string) (d : Describer) : Describer :=
  mkDescriber (trace d ++ [id]) (creations d) (wrappings d) (verbose d ++ [id]).

Definition push_creation (c : string) (d : Describer) : Describer :=
  mkDescriber (trace d) (creations d ++ [c]) (wrappings d) (verbose d ++ [c]).

Definition push_wrapping (x : string) (d : Describer) : Describer :=
  mkDescriber (trace d) (creations d) (wrappings d ++ [x]) (verbose d ++ [x]).

(** ** The collaborators *)

(** The shared context object the tracer is given: its [state] slot, and
    [enter] and [exit].  The object is defined outside the tracer, which
    only reads the slot and calls the two methods; they act on the context
    alone. *)
Class ContextContract (Context : Type) : Type := {
  context_state : Context -> option State.t;
  context_enter : State.t -> Context -> Context;
  context_exit : State.t -> Context -> Context
}.

(** The producer of request values: [agent.createTransaction()] and, on the
    value it returned, [value.getTrace().root].  Both run on the state [Env]
    that the agent and the handlers keep for themselves, and cannot reach
    the tracer's own objects. *)
Class AgentContract (Agent Env : Type) : Type := {
  createTransaction : Agent -> Env -> Outcome jsval * Env;
  getTraceRoot : jsval -> Env -> Outcome jsval * Env
}.

(** Modelled from the spec: the context object that is given to the
    tracer.  The specification asks that [enter] makes its State the active
    one and saves what was active before, and that [exit] restores what was
    active before the matching [enter]: a stack, whose top is the [state]
    slot. *)
Module StackContext.
Definition t : Type := list State.t.
Definition state (c : t) : option State.t := head c.
Definition enter (s : State.t) (c : t) : t := s :: c.
Definition exit (s : State.t) (c : t) : t := tail c.
End StackContext.

#[export] Instance StackContext_contract : ContextContract StackContext.t := {
  context_state := StackContext.state;
  context_enter := StackContext.enter;
  context_exit := StackContext.exit
}.

(** ** The tracer and the world it runs in *)

Section Tracer.

Context {Agent Context Env : Type}.
Context `{!ContextContract Context, !AgentContract Agent Env}.

Record Tracer : Type := mkTracer {
  numTransactions : Z;
  agent : Agent;
  context : Context;
  describer : Describer
}.

(** [function Tracer(agent, context)]. *)
Definition Tracer_construct (agent : option Agent) (context : option Context)
  : Outcome Tracer :=
  match agent with
  | None => Throw (JError "Must be initialized with an agent.")
  | Some agent =>
      match context with
      | None => Throw (JError "Must include shared context.")
      | Some context => Return (mkTracer 0 agent context Describer_construct)
      end
  end.

Record World : Type := mkWorld {
  tracer : Tracer;
  transactions : list Transaction.t;
  segments : list Segment.t;
  env : Env
}.

Definition M (X : Type) : Type := World -> Outcome X * World.

Definition ret {X} (x : X) : M X := fun w => (Return x, w).
Definition bind {X Y} (m : M X) (k : X -> M Y) : M Y :=
  fun w => match m w with
           | (Return x, w') => k x w'
           | (Throw e, w') => (Throw e, w')
           end.
Definition gets {X} (f : World -> X) : M X := fun w => (Return (f w), w).
Definition modify (f : World -> World) : M unit := fun w => (Return tt, f w).
Definition lift {X} (o : Outcome X) : M X := fun w => (o, w).

Notation "x <- m ;; k" := (bind m (fun x => k))
  (at level 100, m at next level, right associativity).
Notation "m ;; k" := (bind m (fun _ => k))
  (at level 100, right associativity).

Definition set_tracer (f : Tracer -> Tracer) (w : World) : World :=
  mkWorld (f (tracer w)) (transactions w) (segments w) (env w).
Definition set_transactions (l : list Transaction.t) (w : World) : World :=
  mkWorld (tracer w) l (segments w) (env w).
Definition set_segments (l : list Segment.t) (w : World) : World :=
  mkWorld (tracer w) (transactions w) l (env w).
Definition set_env (e : Env) (w : World) : World :=
  mkWorld (tracer w) (transactions w) (segments w) e.

Definition set_describer (f : Describer -> Describer) (t : Tracer) : Tracer :=
  mkTracer (numTransactions t) (agent t) (context t) (f (describer t)).
Definition set_context (f : Context -> Context) (t : Tracer) : Tracer :=
  mkTracer (numTransactions t) (agent t) (f (context t)) (describer t).
Definition set_numTransactions (n : Z) (t : Tracer) : Tracer :=
  mkTracer n (agent t) (context t) (describer t).

(** Reading a field through a reference.  A JavaScript reference always
    names a live object; an index outside the store stands for no
    JavaScript value, and the model raises a TypeError there. *)
Definition deref {X} (store : World -> list X) (r : nat) : M X :=
  fun w => match store w !! r with
           | Some x => (Return x, w)
           | None => (Throw (JError "TypeError"), w)
           end.

(** [new Transaction(...)] and [new Segment(...)]: the constructor runs,
    and the object it built joins the store. *)
Definition new_Transaction (id : Z) (value : jsval) : M TransactionRef :=
  x <- lift (Transaction.construct id value) ;;
  r <- gets (fun w => length (transactions w)) ;;
  modify (fun w => set_transactions (transactions w ++ [x]) w) ;;
  ret r.

Definition new_Segment (id : Z) (transaction : TransactionRef) (value : jsval)
  : M SegmentRef :=
  s <- lift (Segment.construct id (Some transaction) value) ;;
  r <- gets (fun w => length (segments w)) ;;
  modify (fun w => set_segments (segments w ++ [s]) w) ;;
  ret r.

(** [Call.prototype.format]. *)
Definition Call_format (this : Call.t) : M string :=
  s <- deref segments (Call.segment this) ;;
  t <- deref transactions (Segment.transaction s) ;;
  ret ("T" +:+ format_d (Transaction.id t) +:+
       "S" +:+ format_d (Segment.id s) +:+
       "C" +:+ format_d (Call.id this)).

(** [Segment.prototype.addCall]. *)
Definition Segment_addCall (this : SegmentRef) (value : jsval) : M Call.t :=
  s <- deref segments this ;;
  modify (fun w =>
    set_segments
      (<[this := Segment.set_numCalls (Segment.numCalls s + 1) s]> (segments w))
      w) ;;
  lift (Call.construct (Segment.numCalls s + 1) (Some this) value).

(** [Transaction.prototype.addSegment]. *)
Definition Transaction_addSegment (this : TransactionRef) (value : jsval)
  : M SegmentRef :=
  t <- deref transactions this ;;
  modify (fun w =>
    set_transactions
      (<[this := Transaction.set_numSegments (Transaction.numSegments t + 1) t]>
         (transactions w))
      w) ;;
  new_Segment (Transaction.numSegments t + 1) this value.

(** [Describer.prototype.traceCall]. *)
Definition traceCall (direction : string) (call : Call.t) : M unit :=
  formatted <- Call_format call ;;
  let id := direction +:+ formatted in
  modify (set_tracer (set_describer (push_trace id))).

(** [Describer.prototype.traceCreation]; [type[0]] of an empty string is
    undefined. *)
Definition traceCreation (type : string) : M unit :=
  let creation :=
    match type with
    | String c _ => "+" +:+ String c ""
    | EmptyString => "+undefined"
    end in
  modify (set_tracer (set_describer (push_creation creation))).

(** [Describer.prototype.traceWrapping]. *)
Definition traceWrapping (direction type : string) : M unit :=
  let wrapping := direction +:+ type in
  modify (set_tracer (set_describer (push_wrapping wrapping))).

(** A JavaScript function applied to a receiver and arguments. *)
Definition Callable (R : Type) : Type := jsval -> list jsval -> M R.

(** [Describer.prototype.wrapExecution]. *)
Definition wrapExecution {R} (type : string) (handler : Callable R)
  : Callable R :=
  fun this arguments =>
    traceWrapping "->" type ;;
    returned <- handler this arguments ;;
    traceWrapping "<-" type ;;
    ret returned.

(** [Tracer.prototype.enter] and [Tracer.prototype.exit]. *)
Definition enter (state : State.t) : M unit :=
  traceCall "->" (State.call state) ;;
  modify (set_tracer (set_context (context_enter state))).

Definition exit (state : State.t) : M unit :=
  traceCall "<-" (State.call state) ;;
  modify (set_tracer (set_context (context_exit state))).

(** [Tracer.prototype.addTransaction]. *)
Definition addTransaction (value : jsval) : M TransactionRef :=
  modify (set_tracer (fun t =>
    set_numTransactions (numTransactions t + 1) t)) ;;
  traceCreation "Trace" ;;
  n <- gets (fun w => numTransactions (tracer w)) ;;
  new_Transaction n value.

(** [Tracer.prototype.addSegment]. *)
Definition addSegment (transaction : TransactionRef) (value : jsval)
  : M SegmentRef :=
  traceCreation "Segment" ;;
  Transaction_addSegment transaction value.

(** [Tracer.prototype.addCall]. *)
Definition addCall (segment : SegmentRef) (value : jsval) : M Call.t :=
  traceCreation "Call" ;;
  Segment_addCall segment value.

(** A handler: a function object, known by its identity as a value and by
    what applying it does. *)
Record Handler : Type := mkHandler {
  fn_id : nat;
  fn_apply : Callable jsval
}.
Definition fn_value (h : Handler) : jsval := JFun (fn_id h).

(** The agent's code, run from the tracer. *)
Definition on_env {X} (f : Env -> Outcome X * Env) : M X :=
  fun w => let (o, e) := f (env w) in (o, set_env e w).

(** [Tracer.prototype.transactionProxy].  The outer wrapper is called on
    the spot, with no receiver and no argument; what it returns, and what
    the proxy returns, is the inner wrapper. *)
Definition transactionProxy (handler : Handler) : M (Callable jsval) :=
  wrapExecution "T outer" (fun _ _ =>
    ret (wrapExecution "T inner" (fun this arguments =>
      a <- gets (fun w => agent (tracer w)) ;;
      value <- on_env (createTransaction a) ;;
      transaction <- addTransaction value ;;
      root <- on_env (getTraceRoot value) ;;
      segment <- addSegment transaction root ;;
      call <- addCall segment (fn_value handler) ;;
      let state := State.mk transaction segment call true in
      enter state ;;
      returned <- fn_apply handler this arguments ;;
      exit state ;;
      ret returned)))
    JUndefined [].

(** [Tracer.prototype.segmentProxy]. *)
Definition segmentProxy (handler : Handler) : M (Callable jsval) :=
  wrapExecution "S outer" (fun _ _ =>
    ret (wrapExecution "S inner" (fun this arguments =>
      state <- gets (fun w => context_state (context (tracer w))) ;;
      match state with
      | None => fn_apply handler this arguments
      | Some state =>
          s <- deref segments (State.segment state) ;;
          segment <- addSegment (State.transaction state) (Segment.value s) ;;
          call <- addCall segment (fn_value handler) ;;
          let state := State.mk (State.transaction state) segment call true in
          enter state ;;
          returned <- fn_apply handler this arguments ;;
          exit state ;;
          ret returned
      end)))
    JUndefined [].

(** [Tracer.prototype.callbackProxy].  The inner function assigns the
    State it builds to the captured variable [state]; the next invocation
    reads the transaction and the segment back from it, which are the
    captured ones again ([State_rebuild]), so the closure is modelled over
    the State captured at construction. *)
Definition callbackProxy (handler : Handler) : M (Callable jsval) :=
  state <- gets (fun w => context_state (context (tracer w))) ;;
  match state with
  | None => ret (fn_apply handler)
  | Some state =>
      wrapExecution "C outer" (fun _ _ =>
        call <- addCall (Call.segment (State.call state)) (fn_value handler) ;;
        ret (wrapExecution "C inner" (fun this arguments =>
          let state :=
            State.mk (State.transaction state) (State.segment state) call true in
          enter state ;;
          returned <- fn_apply handler this arguments ;;
          exit state ;;
          ret returned)))
        JUndefined []
  end.

End Tracer.


Arguments World : clear implicits.
Arguments Tracer : clear implicits.
Arguments Handler : clear implicits.
Arguments M : clear implicits.
Arguments Callable : clear implicits.

(** ** What the properties are stated with *)

Section Vocabulary.

Context {Agent Context Env : Type}.
Context `{!ContextContract Context, !AgentContract Agent Env}.

Local Abbreviation world := (World Agent Context Env).

(** [w] with entries appended to the four logs of the describer. *)
Definition logged (tr cr wr vb : list string) (w : world) : world :=
  let t := tracer w in
  let d := describer t in
  mkWorld
    (mkTracer (numTransactions t) (agent t) (context t)
       (mkDescriber (trace d ++ tr) (creations d ++ cr)
          (wrappings d ++ wr) (verbose d ++ vb)))
    (transactions w) (segments w) (env w).

(** [w] with another context object content. *)
Definition with_context (c : Context) (w : world) : world :=
  let t := tracer w in
  mkWorld (mkTracer (numTransactions t) (agent t) c (describer t))
    (transactions w) (segments w) (env w).

(** [w] with another transaction counter. *)
Definition with_numTransactions (n : Z) (w : world) : world :=
  let t := tracer w in
  mkWorld (mkTracer n (agent t) (context t) (describer t))
    (transactions w) (segments w) (env w).

(** The textual identity of a call: [T<t>S<s>C<c>]. *)
Definition identity (t s c : Z) : string :=
  "T" +:+ format_d t +:+ "S" +:+ format_d s +:+ "C" +:+ format_d c.

(** The call [c] has its segment [s] and, above it, its transaction [t]
    in the store of [w]. *)
Definition resolves (w : world) (c : Call.t) (t : Transaction.t)
    (s : Segment.t) : Prop :=
  segments w !! Call.segment c = Some s /\
  transactions w !! Segment.transaction s = Some t.

(** A State whose three components are one ancestor chain: the call was
    made under the segment, and the segment belongs to the transaction. *)
Definition chain (w : world) (st : State.t) (t : Transaction.t)
    (s : Segment.t) : Prop :=
  Call.segment (State.call st) = State.segment st /\
  segments w !! State.segment st = Some s /\
  Segment.transaction s = State.transaction st /\
  transactions w !! State.transaction st = Some t.

(** Objects stay in the store, and the fields given at construction stay
    what they were; the child counters may have moved.  The code of the
    tracer never assigns those fields again, and whatever a handler does
    through the tracer keeps a later world in this relation with an
    earlier one. *)
Definition heap_extends (w w' : world) : Prop :=
  (forall r t, transactions w !! r = Some t ->
     exists t', transactions w' !! r = Some t' /\
       Transaction.id t' = Transaction.id t /\
       Transaction.value t' = Transaction.value t) /\
  (forall r s, segments w !! r = Some s ->
     exists s', segments w' !! r = Some s' /\
       Segment.id s' = Segment.id s /\
       Segment.transaction s' = Segment.transaction s /\
       Segment.value s' = Segment.value s).

(** What every proxy does with the outcome of the handler it called
    under the State [st]: on a result, [exit], the closing wrapping entry
    and the result; on a throw, nothing. *)
Definition around (st : State.t) (label : string)
    (res : Outcome jsval * world) : Outcome jsval * world :=
  match res with
  | (Return r, w2) =>
      bind (exit st)
        (fun _ => bind (traceWrapping "<-" label) (fun _ => ret r)) w2
  | (Throw e, w2) => (Throw e, w2)
  end.

Local Abbreviation handler := (Handler Agent Context Env).

(** The State that the callable of [segmentProxy h] enters when it is
    invoked in [w] while [st] is active: the transaction of [st], the
    segment it has just created and the call made under that segment. *)
Definition segment_state (h : handler) (st : State.t) (w : world) : State.t :=
  let segment := length (segments w) in
  State.mk (State.transaction st) segment
    (Call.mk 1 segment (fn_value h)) true.

(** The world in which that callable invokes the handler, where [t] and
    [s] are the transaction and the segment of [st] in [w]. *)
Definition segment_entry (h : handler) (st : State.t) (t : Transaction.t)
    (s : Segment.t) (w : world) : world :=
  let n := (Transaction.numSegments t + 1)%Z in
  let id := "->" +:+ identity (Transaction.id t) n 1 in
  with_context (context_enter (segment_state h st w) (context (tracer w)))
    (logged [id] ["+S"; "+C"] ["->S inner"] ["->S inner"; "+S"; "+C"; id]
       (set_segments
          (segments w ++
             [Segment.mk n (State.transaction st) (Segment.value s) 1])
          (set_transactions
             (<[State.transaction st := Transaction.set_numSegments n t]>
                (transactions w))
             w))).

(** The State that the callable of [transactionProxy h] enters when it is
    invoked in [w]. *)
Definition transaction_state (h : handler) (w : world) : State.t :=
  let segment := length (segments w) in
  State.mk (length (transactions w)) segment
    (Call.mk 1 segment (fn_value h)) true.

(** The world in which that callable invokes the handler, where the agent
    produced the value [v] and the root [root], and left [e] behind. *)
Definition transaction_entry (h : handler) (v root : jsval) (e : Env)
    (w : world) : world :=
  let n := (numTransactions (tracer w) + 1)%Z in
  let id := "->" +:+ identity n 1 1 in
  with_context (context_enter (transaction_state h w) (context (tracer w)))
    (logged [id] ["+T"; "+S"; "+C"] ["->T inner"]
       ["->T inner"; "+T"; "+S"; "+C"; id]
       (with_numTransactions n
          (set_env e
             (set_segments
                (segments w ++
                   [Segment.mk 1 (length (transactions w)) root 1])
                (set_transactions
                   (transactions w ++ [Transaction.mk n v 1]) w))))).

(** The call that [callbackProxy h] makes when it is constructed while
    [st] is active, where [s] is the segment of the call of [st]. *)
Definition callback_call (h : handler) (st : State.t) (s : Segment.t)
  : Call.t :=
  Call.mk (Segment.numCalls s + 1) (Call.segment (State.call st))
    (fn_value h).

(** The State that its callable enters at every invocation. *)
Definition callback_state (h : handler) (st : State.t) (s : Segment.t)
  : State.t :=
  State.mk (State.transaction st) (State.segment st)
    (callback_call h st s) true.

(** The world that the construction leaves. *)
Definition callback_constructed (st : State.t) (s : Segment.t) (w : world)
  : world :=
  logged [] ["+C"] ["->C outer"; "<-C outer"]
    ["->C outer"; "+C"; "<-C outer"]
    (set_segments
       (<[Call.segment (State.call st) :=
            Segment.set_numCalls (Segment.numCalls s + 1) s]> (segments w))
       w).

(** The world in which the callable invokes the handler when it is
    invoked in [w], where [t1] and [s1] are the transaction and the
    segment above the call in [w]. *)
Definition callback_entry (st' : State.t) (t1 : Transaction.t)
    (s1 : Segment.t) (w : world) : world :=
  let id :=
    "->" +:+ identity (Transaction.id t1) (Segment.id s1)
               (Call.id (State.call st')) in
  with_context (context_enter st' (context (tracer w)))
    (logged [id] [] ["->C inner"] ["->C inner"; id] w).

(** A caller that makes one invocation after the other and catches what
    each of them throws. *)
Fixpoint attempts {X} (ms : list (M Agent Context Env X)) (w : world)
  : list (Outcome X) * world :=
  match ms with
  | [] => ([], w)
  | m :: ms =>
      let (o, w1) := m w in
      let (os, w2) := attempts ms w1 in
      (o :: os, w2)
  end.

(** The objects an invocation returned, in order. *)
Fixpoint returned {X} (os : list (Outcome X)) : list X :=
  match os with
  | [] => []
  | Return x :: os => x :: returned os
  | Throw _ :: os => returned os
  end.

End Vocabulary.

Arguments identity : simpl never.
Arguments format_d : simpl never.

(** ** Concrete collaborators, for the scenarios *)

Module Scenario.

(** An agent that hands out a request object whose trace has a root. *)
#[global] Instance agent_contract : AgentContract unit nat := {
  createTransaction := fun _ e => (Return (JObj 0), e);
  getTraceRoot := fun _ e => (Return (JObj 1), e)
}.

(** An agent that has nothing to hand out. *)
Definition no_agent : AgentContract unit nat := {|
  createTransaction := fun _ e => (Return JUndefined, e);
  getTraceRoot := fun _ e => (Throw (JError "TypeError"), e)
|}.

Definition world : Type := World unit StackContext.t nat.

(** [new Tracer(agent, context)] on a new context, and nothing else yet. *)
Definition fresh : world :=
  mkWorld (mkTracer 0%Z tt [] Describer_construct) [] [] 0.

(** [function () { return 42; }] *)
Definition return42 : Handler unit StackContext.t nat :=
  mkHandler 0 (fun _ _ w => (Return (JNum 42), w)).

(** A handler that counts its invocations in [Env] and returns its
    receiver. *)
Definition counting : Handler unit StackContext.t nat :=
  mkHandler 1 (fun this _ w => (Return this, set_env (S (env w)) w)).

(** [function () { throw new Error("boom"); }], counting as well. *)
Definition failing : Handler unit StackContext.t nat :=
  mkHandler 2 (fun _ _ w => (Throw (JError "boom"), set_env (S (env w)) w)).

(** A world in the middle of a transaction: transaction 1 with its root
    segment, and the State of the first call active. *)
Definition active_state : State.t :=
  State.mk 0 0 (Call.mk 1 0 (JFun 0)) true.

Definition busy : world :=
  mkWorld (mkTracer 1%Z tt [active_state] Describer_construct)
    [Transaction.mk 1 (JObj 0) 1] [Segment.mk 1 0 (JObj 1) 1] 0.

(** A later world, in the middle of another transaction: transaction 2
    with its root segment, and the State of its first call active. *)
Definition other_state : State.t :=
  State.mk 1 1 (Call.mk 1 1 (JFun 5)) true.

Definition elsewhere : world :=
  mkWorld (mkTracer 2%Z tt [other_state] Describer_construct)
    [Transaction.mk 1 (JObj 0) 1; Transaction.mk 2 (JObj 2) 1]
    [Segment.mk 1 0 (JObj 1) 2; Segment.mk 1 1 (JObj 3) 1] 0.

(** A world with one transaction that has no segment yet. *)
Definition childless : world :=
  mkWorld (mkTracer 1%Z tt [] Describer_construct)
    [Transaction.mk 1 (JObj 0) 0] [] 0.

End Scenario.

(** ** Numerals *)

(** The characters that [%d] prints: the digits and the sign. *)
Fixpoint occurs (a : Ascii.ascii) (s : string) : bool :=
  match s with
  | EmptyString => false
  | String b s => Ascii.eqb a b || occurs a s
  end.

Definition numeral_char (a : Ascii.ascii) : bool := occurs a "0123456789-".

Fixpoint numeral (s : string) : bool :=
  match s with
  | EmptyString => true
  | String a s => numeral_char a && numeral s
  end.

(** ** Relations between the world before and the world after *)

Section Invariants.

Context {Agent Context Env : Type}.
Context `{!ContextContract Context, !AgentContract Agent Env}.

Local Abbreviation world := (World Agent Context Env).

(** Whatever [m] returns or throws, the world it leaves is related by [R]
    to the world it was started in. *)
Definition preserves {X} (R : world -> world -> Prop)
    (m : M Agent Context Env X) : Prop :=
  forall w, R w (snd (m w)).

(** The relation of the worlds that keep the property [P]. *)
Definition keeps (P : world -> Prop) (w w' : world) : Prop := P w -> P w'.

(** A relation that every method of the tracer preserves, apart from
    [addTransaction] and the agent. *)
Record stable (R : world -> world -> Prop) : Prop := mkStable {
  stable_refl : forall w, R w w;
  stable_trans : forall w1 w2 w3, R w1 w2 -> R w2 w3 -> R w1 w3;
  stable_traceWrapping : forall direction type,
    preserves R (traceWrapping direction type);
  stable_enter : forall st, preserves R (enter st);
  stable_exit : forall st, preserves R (exit st);
  stable_addSegment : forall r v, preserves R (addSegment r v);
  stable_addCall : forall r v, preserves R (addCall r v)
}.

(** The four logs only grow at their ends. *)
Definition logs_grow (w w' : world) : Prop :=
  trace (describer (tracer w)) `prefix_of` trace (describer (tracer w')) /\
  creations (describer (tracer w)) `prefix_of`
    creations (describer (tracer w')) /\
  wrappings (describer (tracer w)) `prefix_of`
    wrappings (describer (tracer w')) /\
  verbose (describer (tracer w)) `prefix_of` verbose (describer (tracer w')).

(** [v] is an interleaving of [t], [c] and [wr] that keeps the order of
    each of them. *)
Inductive merged
  : list string -> list string -> list string -> list string -> Prop :=
  | merged_nil : merged [] [] [] []
  | merged_trace x t c wr v :
      merged t c wr v -> merged (x :: t) c wr (x :: v)
  | merged_creation x t c wr v :
      merged t c wr v -> merged t (x :: c) wr (x :: v)
  | merged_wrapping x t c wr v :
      merged t c wr v -> merged t c (x :: wr) (x :: v).

(** The verbose log is an interleaving of the three other logs. *)
Definition interleaved (w : world) : Prop :=
  let d := describer (tracer w) in
  merged (trace d) (creations d) (wrappings d) (verbose d).

(** The store as the constructors and the counters leave it: the ids of
    the transactions lie between 1 and the counter of the tracer and are
    pairwise distinct; every segment belongs to a transaction of the store,
    its id lies between 1 and the counter of that transaction, and two
    segments of one transaction have distinct ids; values are truthy and
    counters are not negative. *)
Definition store_wf (w : world) : Prop :=
  (0 <= numTransactions (tracer w))%Z /\
  (forall r t, transactions w !! r = Some t ->
     (1 <= Transaction.id t <= numTransactions (tracer w))%Z /\
     (0 <= Transaction.numSegments t)%Z /\
     truthy (Transaction.value t) = true) /\
  (forall r1 r2 t1 t2,
     transactions w !! r1 = Some t1 -> transactions w !! r2 = Some t2 ->
     Transaction.id t1 = Transaction.id t2 -> r1 = r2) /\
  (forall r s, segments w !! r = Some s ->
     exists t, transactions w !! Segment.transaction s = Some t /\
       (1 <= Segment.id s <= Transaction.numSegments t)%Z /\
       (0 <= Segment.numCalls s)%Z /\
       truthy (Segment.value s) = true) /\
  (forall r1 r2 s1 s2,
     segments w !! r1 = Some s1 -> segments w !! r2 = Some s2 ->
     Segment.transaction s1 = Segment.transaction s2 ->
     Segment.id s1 = Segment.id s2 -> r1 = r2).

(** A call as [addCall] makes it: under a segment of the store, with an id
    between 1 and the counter of that segment, and holding a truthy
    value. *)
Definition call_wf (w : world) (c : Call.t) : Prop :=
  exists s, segments w !! Call.segment c = Some s /\
    (1 <= Call.id c <= Segment.numCalls s)%Z /\
    truthy (Call.value c) = true.

(** No transaction was asked for: the counter of the tracer, the number of
    transactions in the store and the number of [+T] entries are the
    same. *)
Definition same_transactions (w w' : world) : Prop :=
  numTransactions (tracer w') = numTransactions (tracer w) /\
  length (transactions w') = length (transactions w) /\
  length (filter (fun x => x = "+T") (creations (describer (tracer w')))) =
  length (filter (fun x => x = "+T") (creations (describer (tracer w)))).

(** The describer and the tracer agree on how many transactions were
    asked for. *)
Definition transactions_counted (w : world) : Prop :=
  Z.of_nat
    (length (filter (fun x => x = "+T") (creations (describer (tracer w)))))
  = numTransactions (tracer w).

(** The three kinds of counters never go back. *)
Definition counters_grow (w w' : world) : Prop :=
  (numTransactions (tracer w) <= numTransactions (tracer w'))%Z /\
  (forall r t, transactions w !! r = Some t ->
     exists t', transactions w' !! r = Some t' /\
       (Transaction.numSegments t <= Transaction.numSegments t')%Z) /\
  (forall r s, segments w !! r = Some s ->
     exists s', segments w' !! r = Some s' /\
       (Segment.numCalls s <= Segment.numCalls s')%Z).

(** [R] is preserved by everything the tracer does short of creating a
    transaction: by [enter], [exit], [addSegment], [addCall] and
    [traceWrapping], by the construction of a segment proxy and of a
    callback proxy, and by an invocation of the callable either of them
    returned whenever the handler preserves [R] on that invocation. *)
Definition subsidiary_preserves (R : world -> world -> Prop)
    (h : Handler Agent Context Env) : Prop :=
  (forall st, preserves R (enter st)) /\
  (forall st, preserves R (exit st)) /\
  (forall r v, preserves R (addSegment r v)) /\
  (forall r v, preserves R (addCall r v)) /\
  (forall direction type, preserves R (traceWrapping direction type)) /\
  preserves R (segmentProxy h) /\
  preserves R (callbackProxy h) /\
  forall w0 (f : Callable Agent Context Env jsval) w0' this args,
    segmentProxy h w0 = (Return f, w0') \/
    callbackProxy h w0 = (Return f, w0') ->
    preserves R (fn_apply h this args) -> preserves R (f this args).

(** [R] is preserved by all of that, by [addTransaction], by the
    construction of a transaction proxy and by an invocation of the
    callable it returned whenever the handler preserves [R] on that
    invocation. *)
Definition tracer_preserves (R : world -> world -> Prop)
    (h : Handler Agent Context Env) : Prop :=
  subsidiary_preserves R h /\
  (forall v, preserves R (addTransaction v)) /\
  preserves R (transactionProxy h) /\
  forall w0 (f : Callable Agent Context Env jsval) w0' this args,
    transactionProxy h w0 = (Return f, w0') ->
    preserves R (fn_apply h this args) -> preserves R (f this args).

(** [function () { return tracer.segmentProxy(g).apply(this, arguments); }]:
    a handler that runs [g] as a subsidiary of whatever is active. *)
Definition calls_subsidiary (id : nat) (g : Handler Agent Context Env)
  : Handler Agent Context Env :=
  mkHandler id (fun this arguments =>
    bind (segmentProxy g) (fun f => f this arguments)).

End Invariants.

(** ** The States of the context *)

Section Chains.

Context {Agent Context Env : Type}.
Context `{!ContextContract Context, !AgentContract Agent Env}.

Local Abbreviation world := (World Agent Context Env).

(** The context reports [st]: [st] is the State in its slot, or comes
    back into the slot after some exits. *)
Definition reports (c : Context) (st : State.t) : Prop :=
  exists exits : list State.t,
    context_state (fold_left (fun c x => context_exit x c) exits c) = Some st.

(** The context invents no State: what it reports after it was entered
    with [st] is [st], or what it reported before. *)
Definition invents_no_state : Prop :=
  forall st (c : Context) x,
    reports (context_enter st c) x -> x = st \/ reports c x.

(** Every State that the context reports is an ancestor chain of the
    store. *)
Definition context_chained (w : world) : Prop :=
  forall st, reports (context (tracer w)) st -> exists t s, chain w st t s.

(** The invariant of the tracer: the store is as the constructors and the
    counters leave it, and the context holds chains only. *)
Definition tracer_wf (w : world) : Prop := store_wf w /\ context_chained w.

(** What code that reaches the store and the context through the tracer
    only does to the world: it keeps the objects of the store, the
    invariant of the store and the invariant of the tracer. *)
Definition well_behaved (w w' : world) : Prop :=
  heap_extends w w' /\ keeps store_wf w w' /\ keeps tracer_wf w w'.

(** [function () { throw undefined; }] with the identity of [h]. *)
Definition throwing (h : Handler Agent Context Env)
  : Handler Agent Context Env :=
  mkHandler (fn_id h) (fun _ _ w => (Throw JUndefined, w)).

End Chains.

(** ** Running the operations *)

Section Properties.

Context {Agent Context Env : Type}.
Context `{!ContextContract Context, !AgentContract Agent Env}.

Local Abbreviation world := (World Agent Context Env).
Local Abbreviation handler := (Handler Agent Context Env).
Local Abbreviation callable := (Callable Agent Context Env jsval).

Implicit Types (w : world) (h : handler) (v : jsval) (st : State.t).

Lemma bind_Return {X Y} (m : M Agent Context Env X)
    (k : X -> M Agent Context Env Y) w x w' :
  m w = (Return x, w') -> bind m k w = k x w'.
Proof. intros E. unfold bind. now rewrite E. Qed.

Lemma bind_Throw {X Y} (m : M Agent Context Env X)
    (k : X -> M Agent Context Env Y) w e w' :
  m w = (Throw e, w') -> bind m k w = (Throw e, w').
Proof. intros E. unfold bind. now rewrite E. Qed.

Lemma ret_run {X} (x : X) w : ret x w = (Return x, w).
Proof. reflexivity. Qed.

Lemma deref_Some {X} (store : world -> list X) r w x :
  store w !! r = Some x -> deref store r w = (Return x, w).
Proof. intros E. unfold deref. now rewrite E. Qed.

Lemma deref_None {X} (store : world -> list X) r w :
  store w !! r = None -> deref store r w = (Throw (JError "TypeError"), w).
Proof. intros E. unfold deref. now rewrite E. Qed.

(** Building the State of [callbackProxy] again from the State it built
    gives the same State. *)
Lemma State_rebuild st (call : Call.t) :
  let st1 :=
    State.mk (State.transaction st) (State.segment st) call true in
  State.mk (State.transaction st1) (State.segment st1) call true = st1.
Proof. reflexivity. Qed.

(** *** The store *)

Lemma lookup_snoc {X} (l : list X) (x : X) : (l ++ [x]) !! length l = Some x.
Proof. now apply list_lookup_middle. Qed.

Lemma insert_snoc {X} (l : list X) (x y : X) :
  <[length l := y]> (l ++ [x]) = l ++ [y].
Proof.
  rewrite insert_app_r_alt by lia. now rewrite Nat.sub_diag.
Qed.

Lemma heap_extends_refl w : heap_extends w w.
Proof. split; intros r x E; exists x; auto. Qed.

Lemma heap_extends_trans w1 w2 w3 :
  heap_extends w1 w2 -> heap_extends w2 w3 -> heap_extends w1 w3.
Proof.
  intros [T12 S12] [T23 S23]. split.
  - intros r t E. destruct (T12 r t E) as (t2 & E2 & I2 & V2).
    destruct (T23 r t2 E2) as (t3 & E3 & I3 & V3).
    exists t3. repeat split; congruence.
  - intros r s E. destruct (S12 r s E) as (s2 & E2 & I2 & P2 & V2).
    destruct (S23 r s2 E2) as (s3 & E3 & I3 & P3 & V3).
    exists s3. repeat split; congruence.
Qed.

Lemma resolves_extends w w' c t s :
  resolves w c t s -> heap_extends w w' ->
  exists t' s', resolves w' c t' s' /\
    Transaction.id t' = Transaction.id t /\ Segment.id s' = Segment.id s /\
    Segment.transaction s' = Segment.transaction s.
Proof.
  intros [Es Et] [HT HS].
  destruct (HS _ _ Es) as (s' & Es' & Is & Ps & _).
  destruct (HT _ _ Et) as (t' & Et' & It & _).
  exists t', s'. unfold resolves. rewrite Ps. auto.
Qed.

Lemma heap_extends_same_store w w' :
  transactions w' = transactions w -> segments w' = segments w ->
  heap_extends w w'.
Proof.
  intros Et Es. split; intros r x E; exists x.
  - rewrite Et. auto.
  - rewrite Es. auto.
Qed.

(** *** The describer and the context *)

Lemma traceWrapping_run direction type w :
  traceWrapping direction type w =
    (Return tt, logged [] [] [direction +:+ type] [direction +:+ type] w).
Proof.
  destruct w as [[n a c [tr cr wr vb]] txs sgs en].
  unfold traceWrapping, modify, logged. cbn. now rewrite !app_nil_r.
Qed.

Lemma traceCreation_run c rest w :
  traceCreation (String c rest) w =
    (Return tt, logged [] ["+" +:+ String c ""] [] ["+" +:+ String c ""] w).
Proof.
  destruct w as [[n a cx [tr cr wr vb]] txs sgs en].
  unfold traceCreation, modify, logged. cbn. now rewrite !app_nil_r.
Qed.

Lemma Call_format_run w c t s :
  resolves w c t s ->
  Call_format c w =
    (Return (identity (Transaction.id t) (Segment.id s) (Call.id c)), w).
Proof.
  intros [Es Et]. unfold Call_format.
  rewrite (bind_Return _ _ _ _ _ (deref_Some segments _ _ _ Es)).
  now rewrite (bind_Return _ _ _ _ _ (deref_Some transactions _ _ _ Et)).
Qed.

Lemma traceCall_run direction w c t s :
  resolves w c t s ->
  let id :=
    direction +:+ identity (Transaction.id t) (Segment.id s) (Call.id c) in
  traceCall direction c w = (Return tt, logged [id] [] [] [id] w).
Proof.
  intros R id. unfold traceCall.
  rewrite (bind_Return _ _ _ _ _ (Call_format_run _ _ _ _ R)).
  destruct w as [[n a cx [tr cr wr vb]] txs sgs en].
  unfold modify, logged. cbn. now rewrite !app_nil_r.
Qed.

Lemma enter_run w st t s :
  resolves w (State.call st) t s ->
  let id :=
    "->" +:+ identity (Transaction.id t) (Segment.id s)
               (Call.id (State.call st)) in
  enter st w =
    (Return tt,
     with_context (context_enter st (context (tracer w)))
       (logged [id] [] [] [id] w)).
Proof.
  intros R id. unfold enter.
  rewrite (bind_Return _ _ _ _ _ (traceCall_run "->" _ _ _ _ R)).
  reflexivity.
Qed.

Lemma exit_run w st t s :
  resolves w (State.call st) t s ->
  let id :=
    "<-" +:+ identity (Transaction.id t) (Segment.id s)
               (Call.id (State.call st)) in
  exit st w =
    (Return tt,
     with_context (context_exit st (context (tracer w)))
       (logged [id] [] [] [id] w)).
Proof.
  intros R id. unfold exit.
  rewrite (bind_Return _ _ _ _ _ (traceCall_run "<-" _ _ _ _ R)).
  reflexivity.
Qed.

(** *** Creating entities *)

Ltac world_eq :=
  repeat match goal with
         | w : World _ _ _ |- _ =>
             destruct w as [[? ? ? [? ? ? ?]] ? ? ?]
         end;
  cbv beta iota zeta delta
    [logged with_context with_numTransactions set_tracer set_transactions
     set_segments set_env set_describer set_context set_numTransactions
     push_trace push_creation push_wrapping
     tracer transactions segments env
     numTransactions agent context describer
     trace creations wrappings verbose];
  rewrite ?insert_snoc, <- ?app_assoc, ?app_nil_r; reflexivity.

Lemma Segment_addCall_run w r s v :
  segments w !! r = Some s ->
  Segment_addCall r v w =
    (Call.construct (Segment.numCalls s + 1) (Some r) v,
     set_segments
       (<[r := Segment.set_numCalls (Segment.numCalls s + 1) s]> (segments w))
       w).
Proof.
  intros E. unfold Segment_addCall.
  now rewrite (bind_Return _ _ _ _ _ (deref_Some segments _ _ _ E)).
Qed.

Lemma addCall_run w r s v :
  segments w !! r = Some s ->
  addCall r v w =
    (Call.construct (Segment.numCalls s + 1) (Some r) v,
     set_segments
       (<[r := Segment.set_numCalls (Segment.numCalls s + 1) s]> (segments w))
       (logged [] ["+C"] [] ["+C"] w)).
Proof.
  intros E. unfold addCall.
  rewrite (bind_Return _ _ _ _ _ (traceCreation_run _ _ _)).
  now rewrite (Segment_addCall_run _ _ s).
Qed.

Lemma Call_construct_ok id r v :
  id <> 0%Z -> truthy v = true ->
  Call.construct id (Some r) v = Return (Call.mk id r v).
Proof.
  intros Hid Hv. unfold Call.construct.
  destruct (Z.eqb_spec id 0); [contradiction|]. now rewrite Hv.
Qed.

Lemma Segment_construct_ok id r v :
  id <> 0%Z -> truthy v = true ->
  Segment.construct id (Some r) v = Return (Segment.mk id r v 0).
Proof.
  intros Hid Hv. unfold Segment.construct.
  destruct (Z.eqb_spec id 0); [contradiction|]. now rewrite Hv.
Qed.

Lemma Segment_construct_falsy id r v :
  id <> 0%Z -> truthy v = false ->
  Segment.construct id (Some r) v =
    Throw (JError "Segments must be associated with a value.").
Proof.
  intros Hid Hv. unfold Segment.construct.
  destruct (Z.eqb_spec id 0); [contradiction|]. now rewrite Hv.
Qed.

Lemma Transaction_construct_ok id v :
  id <> 0%Z -> truthy v = true ->
  Transaction.construct id v = Return (Transaction.mk id v 0).
Proof.
  intros Hid Hv. unfold Transaction.construct.
  destruct (Z.eqb_spec id 0); [contradiction|]. now rewrite Hv.
Qed.

Lemma Transaction_construct_falsy id v :
  id <> 0%Z -> truthy v = false ->
  Transaction.construct id v =
    Throw (JError "Transactions must be associated with a value.").
Proof.
  intros Hid Hv. unfold Transaction.construct.
  destruct (Z.eqb_spec id 0); [contradiction|]. now rewrite Hv.
Qed.

Lemma Transaction_addSegment_run w r t v :
  transactions w !! r = Some t ->
  let n := (Transaction.numSegments t + 1)%Z in
  let w1 :=
    set_transactions
      (<[r := Transaction.set_numSegments n t]> (transactions w)) w in
  Transaction_addSegment r v w =
    match Segment.construct n (Some r) v with
    | Return s => (Return (length (segments w)),
                   set_segments (segments w ++ [s]) w1)
    | Throw e => (Throw e, w1)
    end.
Proof.
  intros E n w1. unfold Transaction_addSegment.
  rewrite (bind_Return _ _ _ _ _ (deref_Some transactions _ _ _ E)).
  unfold new_Segment, bind, modify, lift, gets, ret. fold n.
  now destruct (Segment.construct n (Some r) v).
Qed.

Lemma addSegment_run w r t v :
  transactions w !! r = Some t ->
  let n := (Transaction.numSegments t + 1)%Z in
  let w1 :=
    set_transactions
      (<[r := Transaction.set_numSegments n t]> (transactions w))
      (logged [] ["+S"] [] ["+S"] w) in
  addSegment r v w =
    match Segment.construct n (Some r) v with
    | Return s => (Return (length (segments w)),
                   set_segments (segments w ++ [s]) w1)
    | Throw e => (Throw e, w1)
    end.
Proof.
  intros E n w1. unfold addSegment.
  rewrite (bind_Return _ _ _ _ _ (traceCreation_run _ _ _)).
  now rewrite (Transaction_addSegment_run _ _ t).
Qed.

Lemma addTransaction_run w v :
  let n := (numTransactions (tracer w) + 1)%Z in
  let w1 := with_numTransactions n (logged [] ["+T"] [] ["+T"] w) in
  addTransaction v w =
    match Transaction.construct n v with
    | Return t => (Return (length (transactions w)),
                   set_transactions (transactions w ++ [t]) w1)
    | Throw e => (Throw e, w1)
    end.
Proof.
  intros n w1. unfold addTransaction, new_Transaction.
  unfold bind, modify, lift, gets, ret, traceCreation. cbn. fold n.
  destruct (Transaction.construct n v); f_equal; subst w1; world_eq.
Qed.

(** Creating entities keeps the objects of the store and their fields:
    what the tracer does on behalf of a handler extends the store. *)
Lemma insert_extends_segments w r s n :
  segments w !! r = Some s ->
  heap_extends w
    (set_segments (<[r := Segment.set_numCalls n s]> (segments w)) w).
Proof.
  intros Hs. split; [intros r' t Ht; exists t; auto|].
  intros r' s' Hs'. cbn. destruct (decide (r = r')) as [<-|Hne].
  - rewrite list_lookup_insert_eq by now apply lookup_lt_Some with s.
    pose proof (eq_trans (eq_sym Hs') Hs) as [= ->].
    eexists. repeat split.
  - rewrite list_lookup_insert_ne by exact Hne. exists s'. auto.
Qed.

Lemma Segment_addCall_extends w r v :
  heap_extends w (snd (Segment_addCall r v w)).
Proof.
  destruct (segments w !! r) as [s|] eqn:Hs.
  - rewrite (Segment_addCall_run w r s v Hs). cbn [snd].
    now apply insert_extends_segments.
  - unfold Segment_addCall.
    rewrite (bind_Throw _ _ _ _ _ (deref_None segments _ _ Hs)).
    apply heap_extends_refl.
Qed.

Lemma Transaction_addSegment_extends w r v :
  heap_extends w (snd (Transaction_addSegment r v w)).
Proof.
  destruct (transactions w !! r) as [t|] eqn:Ht.
  - rewrite (Transaction_addSegment_run w r t v Ht).
    assert (Hins : heap_extends w
              (set_transactions
                 (<[r := Transaction.set_numSegments
                           (Transaction.numSegments t + 1) t]>
                    (transactions w)) w)).
    { split; [|intros r' s Hs; exists s; auto].
      intros r' t' Ht'. cbn. destruct (decide (r = r')) as [<-|Hne].
      - rewrite list_lookup_insert_eq by now apply lookup_lt_Some with t.
        pose proof (eq_trans (eq_sym Ht') Ht) as [= ->].
        eexists. repeat split.
      - rewrite list_lookup_insert_ne by exact Hne. exists t'. auto. }
    destruct (Segment.construct _ _ _) as [s|e]; cbn [snd]; [|exact Hins].
    apply (heap_extends_trans _ _ _ Hins).
    split; [intros r' t' Ht'; exists t'; auto|].
    intros r' s' Hs'. exists s'. cbn. cbn in Hs'.
    rewrite (lookup_app_l_Some _ _ _ _ Hs'). auto.
  - unfold Transaction_addSegment.
    rewrite (bind_Throw _ _ _ _ _ (deref_None transactions _ _ Ht)).
    apply heap_extends_refl.
Qed.

Lemma addTransaction_extends w v :
  heap_extends w (snd (addTransaction v w)).
Proof.
  rewrite addTransaction_run.
  destruct (Transaction.construct _ _) as [t|e]; cbn [snd].
  - split; [|intros r s Hs; exists s; auto].
    intros r t' Ht'. exists t'. cbn.
    rewrite (lookup_app_l_Some _ _ _ _ Ht'). auto.
  - apply heap_extends_same_store; reflexivity.
Qed.

(** *** The pattern shared by the proxies *)

Lemma wrapExecution_run {R} type (f : Callable Agent Context Env R)
    this args w :
  wrapExecution type f this args w =
    match f this args (logged [] [] ["->" +:+ type] ["->" +:+ type] w) with
    | (Return r, w2) =>
        (Return r, logged [] [] ["<-" +:+ type] ["<-" +:+ type] w2)
    | (Throw e, w2) => (Throw e, w2)
    end.
Proof.
  unfold wrapExecution.
  rewrite (bind_Return _ _ _ _ _ (traceWrapping_run _ _ _)).
  unfold bind at 1.
  destruct (f this args _) as [[r|e] w2]; [|reflexivity].
  now rewrite (bind_Return _ _ _ _ _ (traceWrapping_run _ _ _)).
Qed.

Lemma around_Return st label r w2 t s :
  resolves w2 (State.call st) t s ->
  let id :=
    "<-" +:+ identity (Transaction.id t) (Segment.id s)
               (Call.id (State.call st)) in
  around st label (Return r, w2) =
    (Return r,
     logged [id] [] ["<-" +:+ label] [id; "<-" +:+ label]
       (with_context (context_exit st (context (tracer w2))) w2)).
Proof.
  intros R id. unfold around.
  rewrite (bind_Return _ _ _ _ _ (exit_run _ _ _ _ R)).
  rewrite (bind_Return _ _ _ _ _ (traceWrapping_run _ _ _)).
  unfold ret. f_equal. fold id. world_eq.
Qed.

Lemma around_Throw st label e w2 :
  around st label (Throw e, w2) = (Throw e, w2).
Proof. reflexivity. Qed.

Lemma gets_run {X} (f : world -> X) w x :
  f w = x -> gets f w = (Return x, w).
Proof. intros <-. reflexivity. Qed.

(** *** segmentProxy *)

Lemma segment_prelude h st t s w :
  context_state (context (tracer w)) = Some st ->
  transactions w !! State.transaction st = Some t ->
  segments w !! State.segment st = Some s ->
  truthy (Segment.value s) = true ->
  (Transaction.numSegments t + 1)%Z <> 0%Z ->
  forall k : State.t -> M Agent Context Env jsval,
  bind (deref segments (State.segment st)) (fun s =>
    bind (addSegment (State.transaction st) (Segment.value s))
      (fun segment =>
         bind (addCall segment (fn_value h)) (fun call =>
           bind (enter
                   (State.mk (State.transaction st) segment call true))
             (fun _ =>
                k (State.mk (State.transaction st) segment call true)))))
    (logged [] [] ["->" +:+ "S inner"] ["->" +:+ "S inner"] w)
  = k (segment_state h st w) (segment_entry h st t s w).
Proof.
  intros Hst Ht Hs Hv Hn k.
  set (wA := logged [] [] ["->S inner"] ["->S inner"] w).
  rewrite (bind_Return _ _ wA s wA) by (apply deref_Some; exact Hs).
  assert (HtA : transactions wA !! State.transaction st = Some t) by exact Ht.
  pose proof (addSegment_run wA _ t (Segment.value s) HtA) as E.
  cbv zeta in E. rewrite (Segment_construct_ok _ _ _ Hn Hv) in E.
  rewrite (bind_Return _ _ _ _ _ E). clear E.
  match goal with |- bind _ _ ?w = _ => set (wB := w) end.
  assert (HsB : segments wB !! length (segments wA) =
                Some (Segment.mk (Transaction.numSegments t + 1)
                        (State.transaction st) (Segment.value s) 0)).
  { subst wB. cbn. apply lookup_snoc. }
  pose proof (addCall_run wB _ _ (fn_value h) HsB) as E.
  rewrite Call_construct_ok in E by (first [reflexivity | cbn; lia]).
  rewrite (bind_Return _ _ _ _ _ E). clear E.
  match goal with |- bind _ _ ?w = _ => set (wC := w) end.
  assert (R : resolves wC
                (Call.mk 1 (length (segments w)) (fn_value h))
                (Transaction.set_numSegments (Transaction.numSegments t + 1) t)
                (Segment.mk (Transaction.numSegments t + 1)
                   (State.transaction st) (Segment.value s) 1)).
  { split.
    - subst wC wB. cbn. rewrite insert_snoc. apply lookup_snoc.
    - subst wC wB. cbn. apply list_lookup_insert_eq.
      now apply lookup_lt_Some with t. }
  erewrite bind_Return;
    [| exact (enter_run wC
                (State.mk (State.transaction st) (length (segments w))
                   (Call.mk 1 (length (segments w)) (fn_value h)) true)
                _ _ R)].
  f_equal. subst wC wB wA. unfold segment_entry, segment_state.
  world_eq.
Qed.

Lemma finish_around st label (res : Outcome jsval * world) :
  match
    match res with
    | (Return returned, w2) =>
        bind (exit st) (fun _ => ret returned) w2
    | (Throw e, w2) => (Throw e, w2)
    end
  with
  | (Return r, w3) =>
      (Return r, logged [] [] ["<-" +:+ label] ["<-" +:+ label] w3)
  | (Throw e, w3) => (Throw e, w3)
  end = around st label res.
Proof.
  destruct res as [[r|e] w2]; [|reflexivity].
  unfold around, bind. destruct (exit st w2) as [[[]|e] w3]; [|reflexivity].
  rewrite traceWrapping_run. reflexivity.
Qed.

Lemma segmentProxy_run h :
  exists f : callable,
    (forall w0,
       segmentProxy h w0 =
         (Return f,
          logged [] [] ["->S outer"; "<-S outer"]
            ["->S outer"; "<-S outer"] w0))
    /\ (forall this args w,
          context_state (context (tracer w)) = None ->
          f this args w =
            match fn_apply h this args
                    (logged [] [] ["->S inner"] ["->S inner"] w) with
            | (Return r, w2) =>
                (Return r, logged [] [] ["<-S inner"] ["<-S inner"] w2)
            | (Throw e, w2) => (Throw e, w2)
            end)
    /\ (forall this args w st t s,
          context_state (context (tracer w)) = Some st ->
          transactions w !! State.transaction st = Some t ->
          segments w !! State.segment st = Some s ->
          truthy (Segment.value s) = true ->
          (Transaction.numSegments t + 1)%Z <> 0%Z ->
          f this args w =
            around (segment_state h st w) "S inner"
              (fn_apply h this args (segment_entry h st t s w))).
Proof.
  eexists. split; [|split].
  - intros w0. unfold segmentProxy. rewrite wrapExecution_run, ret_run.
    f_equal. world_eq.
  - intros this args w Hst. rewrite wrapExecution_run.
    erewrite bind_Return; [| apply gets_run; exact Hst].
    reflexivity.
  - intros this args w st t s Hst Ht Hs Hv Hn. rewrite wrapExecution_run.
    erewrite bind_Return; [| apply gets_run; exact Hst].
    cbv beta iota zeta.
    pose proof (segment_prelude h st t s w Hst Ht Hs Hv Hn
                  (fun state =>
                     bind (fn_apply h this args) (fun returned =>
                       bind (exit state) (fun _ => ret returned)))) as E.
    cbv beta in E. rewrite E. clear E.
    unfold bind at 1. apply finish_around.
Qed.

(** *** transactionProxy *)

Lemma on_env_run {X} (f : Env -> Outcome X * Env) w o e :
  f (env w) = (o, e) -> on_env f w = (o, set_env e w).
Proof. intros E. unfold on_env. now rewrite E. Qed.

Lemma transaction_prelude h v root e1 e2 w :
  createTransaction (agent (tracer w)) (env w) = (Return v, e1) ->
  truthy v = true ->
  (numTransactions (tracer w) + 1)%Z <> 0%Z ->
  getTraceRoot v e1 = (Return root, e2) ->
  truthy root = true ->
  forall k : State.t -> M Agent Context Env jsval,
  bind (gets (fun w => agent (tracer w))) (fun a =>
    bind (on_env (createTransaction a)) (fun value =>
      bind (addTransaction value) (fun transaction =>
        bind (on_env (getTraceRoot value)) (fun root =>
          bind (addSegment transaction root) (fun segment =>
            bind (addCall segment (fn_value h)) (fun call =>
              bind (enter (State.mk transaction segment call true))
                (fun _ =>
                   k (State.mk transaction segment call true))))))))
    (logged [] [] ["->" +:+ "T inner"] ["->" +:+ "T inner"] w)
  = k (transaction_state h w) (transaction_entry h v root e2 w).
Proof.
  intros Hc Hv Hn Hr Hroot k.
  set (wA := logged [] [] ["->T inner"] ["->T inner"] w).
  erewrite bind_Return; [| apply gets_run; reflexivity].
  erewrite bind_Return; [| apply on_env_run; exact Hc].
  pose proof (addTransaction_run (set_env e1 wA) v) as E.
  cbv zeta in E. rewrite Transaction_construct_ok in E by assumption.
  erewrite bind_Return; [| exact E]. clear E.
  match goal with |- bind _ _ ?w = _ => set (wB := w) end.
  erewrite bind_Return; [| apply on_env_run; exact Hr].
  assert (HtB : transactions (set_env e2 wB) !! length (transactions w) =
                Some (Transaction.mk (numTransactions (tracer w) + 1) v 0)).
  { subst wB. cbn. apply lookup_snoc. }
  pose proof (addSegment_run (set_env e2 wB) _ _ root HtB) as E.
  cbv zeta in E.
  rewrite Segment_construct_ok in E by (first [assumption | cbn; lia]).
  erewrite bind_Return; [| exact E]. clear E.
  match goal with |- bind _ _ ?w = _ => set (wC := w) end.
  assert (HsC : segments wC !! length (segments w) =
                Some (Segment.mk 1 (length (transactions w)) root 0)).
  { subst wC wB. cbn. apply lookup_snoc. }
  pose proof (addCall_run wC _ _ (fn_value h) HsC) as E.
  rewrite Call_construct_ok in E by (first [reflexivity | cbn; lia]).
  erewrite bind_Return; [| exact E]. clear E.
  match goal with |- bind _ _ ?w = _ => set (wD := w) end.
  assert (R : resolves wD
                (Call.mk 1 (length (segments w)) (fn_value h))
                (Transaction.mk (numTransactions (tracer w) + 1) v 1)
                (Segment.mk 1 (length (transactions w)) root 1)).
  { split.
    - subst wD wC wB. cbn. rewrite insert_snoc. apply lookup_snoc.
    - subst wD wC wB. cbn. rewrite insert_snoc. apply lookup_snoc. }
  erewrite bind_Return;
    [| exact (enter_run wD
                (State.mk (length (transactions w)) (length (segments w))
                   (Call.mk 1 (length (segments w)) (fn_value h)) true)
                _ _ R)].
  f_equal. subst wD wC wB wA. unfold transaction_entry, transaction_state.
  world_eq.
Qed.

Lemma transactionProxy_run h :
  exists f : callable,
    (forall w0,
       transactionProxy h w0 =
         (Return f,
          logged [] [] ["->T outer"; "<-T outer"]
            ["->T outer"; "<-T outer"] w0))
    /\ (forall this args w v root e1 e2,
          createTransaction (agent (tracer w)) (env w) = (Return v, e1) ->
          truthy v = true ->
          (numTransactions (tracer w) + 1)%Z <> 0%Z ->
          getTraceRoot v e1 = (Return root, e2) ->
          truthy root = true ->
          f this args w =
            around (transaction_state h w) "T inner"
              (fn_apply h this args (transaction_entry h v root e2 w))).
Proof.
  eexists. split.
  - intros w0. unfold transactionProxy.
    rewrite wrapExecution_run, ret_run. f_equal. world_eq.
  - intros this args w v root e1 e2 Hc Hv Hn Hr Hroot.
    rewrite wrapExecution_run.
    pose proof (transaction_prelude h v root e1 e2 w Hc Hv Hn Hr Hroot
                  (fun state =>
                     bind (fn_apply h this args) (fun returned =>
                       bind (exit state) (fun _ => ret returned)))) as E.
    cbv beta in E. cbv beta zeta. rewrite E. clear E.
    unfold bind at 1. apply finish_around.
Qed.

(** *** callbackProxy *)

Lemma callbackProxy_run_none h w0 :
  context_state (context (tracer w0)) = None ->
  callbackProxy h w0 = (Return (fn_apply h), w0).
Proof.
  intros Hst. unfold callbackProxy.
  erewrite bind_Return; [| apply gets_run; exact Hst].
  reflexivity.
Qed.

Lemma callbackProxy_run h st s :
  (Segment.numCalls s + 1)%Z <> 0%Z ->
  exists f : callable,
    (forall w0,
       context_state (context (tracer w0)) = Some st ->
       segments w0 !! Call.segment (State.call st) = Some s ->
       callbackProxy h w0 = (Return f, callback_constructed st s w0))
    /\ (forall this args w t1 s1,
          resolves w (callback_call h st s) t1 s1 ->
          f this args w =
            around (callback_state h st s) "C inner"
              (fn_apply h this args
                 (callback_entry (callback_state h st s) t1 s1 w))).
Proof.
  intros Hn. eexists. split.
  - intros w0 Hst Hs. unfold callbackProxy.
    erewrite bind_Return; [| apply gets_run; exact Hst].
    cbv beta iota. rewrite wrapExecution_run.
    set (wA := logged [] [] ["->C outer"] ["->C outer"] w0).
    assert (HsA : segments wA !! Call.segment (State.call st) = Some s)
      by exact Hs.
    pose proof (addCall_run wA _ _ (fn_value h) HsA) as E.
    rewrite Call_construct_ok in E by (first [reflexivity | assumption]).
    erewrite bind_Return; [| exact E]. clear E.
    rewrite ret_run. f_equal.
    subst wA. unfold callback_constructed. world_eq.
  - intros this args w t1 s1 R. cbv beta.
    rewrite wrapExecution_run. cbv zeta.
    set (wA := logged [] [] ["->" +:+ "C inner"] ["->" +:+ "C inner"] w).
    assert (RA : resolves wA (State.call (callback_state h st s)) t1 s1)
      by exact R.
    erewrite bind_Return;
      [| exact (enter_run wA (callback_state h st s) _ _ RA)].
    unfold bind at 1.
    replace (with_context _ _)
      with (callback_entry (callback_state h st s) t1 s1 w)
      by (subst wA; unfold callback_entry; world_eq).
    apply finish_around.
Qed.

(** *** After the handler *)

Lemma around_returns st label w1 r w2 t s :
  resolves w1 (State.call st) t s ->
  heap_extends w1 w2 ->
  let id :=
    "<-" +:+ identity (Transaction.id t) (Segment.id s)
               (Call.id (State.call st)) in
  around st label (Return r, w2) =
    (Return r,
     logged [id] [] ["<-" +:+ label] [id; "<-" +:+ label]
       (with_context (context_exit st (context (tracer w2))) w2)).
Proof.
  intros R Hext id.
  destruct (resolves_extends _ _ _ _ _ R Hext)
    as (t' & s' & R' & It & Is & _).
  rewrite (around_Return _ _ _ _ _ _ R'). subst id. now rewrite It, Is.
Qed.

Lemma segment_entry_resolves h st t s w :
  transactions w !! State.transaction st = Some t ->
  resolves (segment_entry h st t s w) (State.call (segment_state h st w))
    (Transaction.set_numSegments (Transaction.numSegments t + 1) t)
    (Segment.mk (Transaction.numSegments t + 1) (State.transaction st)
       (Segment.value s) 1).
Proof.
  intros Ht. split; cbn.
  - apply lookup_snoc.
  - apply list_lookup_insert_eq. now apply lookup_lt_Some with t.
Qed.

Lemma transaction_entry_resolves h v root e w :
  resolves (transaction_entry h v root e w)
    (State.call (transaction_state h w))
    (Transaction.mk (numTransactions (tracer w) + 1) v 1)
    (Segment.mk 1 (length (transactions w)) root 1).
Proof. split; cbn; apply lookup_snoc. Qed.

(** ** The proxies *)

(** C2.  The callable returned by [segmentProxy h], invoked with the
    receiver [this] and the arguments [args] in a world [w].

    While the context has no state, the handler is applied to the same
    receiver and arguments in [w] itself, to which only the wrapping entry
    has been logged: no entity has been created and the context has not
    been entered; the callable returns the handler's result, and the
    world the handler left, with the closing wrapping entry logged and
    the context not exited.

    While a State [st] is active, the handler is applied in a world that
    has exactly one more segment, under the transaction of [st] and with
    the value of the segment of [st], exactly one call, the first under
    that segment and holding the handler, and whose context has been
    entered once with the State of these; when the handler returns, that
    State is exited once and the callable returns the handler's result. *)
Theorem segmentProxy_invocation h w0 this args w :
  exists (f : callable) (w0' : world),
    segmentProxy h w0 = (Return f, w0') /\
    (context_state (context (tracer w)) = None ->
     forall r w2,
       fn_apply h this args (logged [] [] ["->S inner"] ["->S inner"] w)
         = (Return r, w2) ->
       f this args w =
         (Return r, logged [] [] ["<-S inner"] ["<-S inner"] w2)) /\
    (forall st t s,
       context_state (context (tracer w)) = Some st ->
       transactions w !! State.transaction st = Some t ->
       segments w !! State.segment st = Some s ->
       truthy (Segment.value s) = true ->
       (Transaction.numSegments t + 1)%Z <> 0%Z ->
       let n := (Transaction.numSegments t + 1)%Z in
       let segment := length (segments w) in
       let call := Call.mk 1 segment (fn_value h) in
       let st' := State.mk (State.transaction st) segment call true in
       let w1 := segment_entry h st t s w in
       transactions w1 =
         <[State.transaction st := Transaction.set_numSegments n t]>
           (transactions w) /\
       segments w1 =
         segments w ++
           [Segment.mk n (State.transaction st) (Segment.value s) 1] /\
       creations (describer (tracer w1)) =
         creations (describer (tracer w)) ++ ["+S"; "+C"] /\
       context (tracer w1) = context_enter st' (context (tracer w)) /\
       trace (describer (tracer w1)) =
         trace (describer (tracer w)) ++
           ["->" +:+ identity (Transaction.id t) n 1] /\
       forall r w2,
         fn_apply h this args w1 = (Return r, w2) ->
         heap_extends w1 w2 ->
         let id := "<-" +:+ identity (Transaction.id t) n 1 in
         f this args w =
           (Return r,
            logged [id] [] ["<-S inner"] [id; "<-S inner"]
              (with_context (context_exit st' (context (tracer w2))) w2))).
Proof.
  destruct (segmentProxy_run h) as (f & Hf & Hnone & Hsome).
  exists f, (logged [] [] ["->S outer"; "<-S outer"]
               ["->S outer"; "<-S outer"] w0).
  split; [apply Hf | split].
  - intros Hst r w2 Hh. rewrite (Hnone _ _ _ Hst), Hh. reflexivity.
  - intros st t s Hst Ht Hs Hv Hn n segment call st' w1.
    repeat (split; [reflexivity|]).
    intros r w2 Hh Hext id.
    rewrite (Hsome _ _ _ _ _ _ Hst Ht Hs Hv Hn). fold w1. rewrite Hh.
    exact (around_returns (segment_state h st w) "S inner" w1 r w2 _ _
             (segment_entry_resolves h st t s w Ht) Hext).
Qed.

(** C10.  Whether [segmentProxy h] passes through or tracks is decided
    by the state of the context when the returned callable is invoked:
    the callable is the same whatever the world of the construction, with
    or without an active State there, and the construction leaves the
    context as it was.  Invoked while the context has no state it applies
    the handler and nothing else; invoked while a State is active it
    creates a segment and a call, enters, and exits after the handler. *)
Theorem segmentProxy_decides_at_invocation h :
  exists f : callable,
    (forall w0,
       exists w0', segmentProxy h w0 = (Return f, w0') /\
         context (tracer w0') = context (tracer w0)) /\
    (forall this args w,
       context_state (context (tracer w)) = None ->
       let w1 := logged [] [] ["->S inner"] ["->S inner"] w in
       (forall r w2, fn_apply h this args w1 = (Return r, w2) ->
          f this args w =
            (Return r, logged [] [] ["<-S inner"] ["<-S inner"] w2)) /\
       (forall e w2, fn_apply h this args w1 = (Throw e, w2) ->
          f this args w = (Throw e, w2))) /\
    (forall this args w st t s,
       context_state (context (tracer w)) = Some st ->
       transactions w !! State.transaction st = Some t ->
       segments w !! State.segment st = Some s ->
       truthy (Segment.value s) = true ->
       (Transaction.numSegments t + 1)%Z <> 0%Z ->
       let n := (Transaction.numSegments t + 1)%Z in
       let st' := segment_state h st w in
       let w1 := segment_entry h st t s w in
       length (segments w1) = S (length (segments w)) /\
       creations (describer (tracer w1)) =
         creations (describer (tracer w)) ++ ["+S"; "+C"] /\
       context (tracer w1) = context_enter st' (context (tracer w)) /\
       forall r w2,
         fn_apply h this args w1 = (Return r, w2) ->
         heap_extends w1 w2 ->
         let id := "<-" +:+ identity (Transaction.id t) n 1 in
         f this args w =
           (Return r,
            logged [id] [] ["<-S inner"] [id; "<-S inner"]
              (with_context (context_exit st' (context (tracer w2))) w2))).
Proof.
  destruct (segmentProxy_run h) as (f & Hf & Hnone & Hsome).
  exists f. split; [|split].
  - intros w0. eexists. split; [apply Hf | reflexivity].
  - intros this args w Hst w1. split.
    + intros r w2 Hh. rewrite (Hnone _ _ _ Hst). fold w1. now rewrite Hh.
    + intros e w2 Hh. rewrite (Hnone _ _ _ Hst). fold w1. now rewrite Hh.
  - intros this args w st t s Hst Ht Hs Hv Hn n st' w1.
    split; [|split; [reflexivity | split; [reflexivity|]]].
    + subst w1. cbn. rewrite length_app. cbn. lia.
    + intros r w2 Hh Hext id.
      rewrite (Hsome _ _ _ _ _ _ Hst Ht Hs Hv Hn). fold w1. rewrite Hh.
      exact (around_returns st' "S inner" w1 r w2 _ _
               (segment_entry_resolves h st t s w Ht) Hext).
Qed.

(** C4.  When the handler throws inside a proxy that has entered a State,
    the callable throws what the handler threw and leaves the world as
    the handler left it: nothing is logged after the handler and the
    context is not exited.  This holds for the callables of
    [transactionProxy], of [segmentProxy] with an active State, and of
    [callbackProxy] constructed with an active State. *)
Theorem handler_throw_skips_exit h this args w e w2 :
  (forall f w0 w0' v root e1 e2,
     transactionProxy h w0 = (Return f, w0') ->
     createTransaction (agent (tracer w)) (env w) = (Return v, e1) ->
     truthy v = true ->
     (numTransactions (tracer w) + 1)%Z <> 0%Z ->
     getTraceRoot v e1 = (Return root, e2) ->
     truthy root = true ->
     let w1 := transaction_entry h v root e2 w in
     context (tracer w1) =
       context_enter (transaction_state h w) (context (tracer w)) /\
     (fn_apply h this args w1 = (Throw e, w2) ->
      f this args w = (Throw e, w2))) /\
  (forall f w0 w0' st t s,
     segmentProxy h w0 = (Return f, w0') ->
     context_state (context (tracer w)) = Some st ->
     transactions w !! State.transaction st = Some t ->
     segments w !! State.segment st = Some s ->
     truthy (Segment.value s) = true ->
     (Transaction.numSegments t + 1)%Z <> 0%Z ->
     let w1 := segment_entry h st t s w in
     context (tracer w1) =
       context_enter (segment_state h st w) (context (tracer w)) /\
     (fn_apply h this args w1 = (Throw e, w2) ->
      f this args w = (Throw e, w2))) /\
  (forall f w0 w0' st s t1 s1,
     callbackProxy h w0 = (Return f, w0') ->
     context_state (context (tracer w0)) = Some st ->
     segments w0 !! Call.segment (State.call st) = Some s ->
     (Segment.numCalls s + 1)%Z <> 0%Z ->
     resolves w (callback_call h st s) t1 s1 ->
     let w1 := callback_entry (callback_state h st s) t1 s1 w in
     context (tracer w1) =
       context_enter (callback_state h st s) (context (tracer w)) /\
     (fn_apply h this args w1 = (Throw e, w2) ->
      f this args w = (Throw e, w2))).
Proof.
  split; [|split].
  - intros f w0 w0' v root e1 e2 Hp Hc Hv Hn Hr Hroot w1.
    split; [reflexivity|]. intros Hh.
    destruct (transactionProxy_run h) as (f0 & Hf & Hrun).
    rewrite Hf in Hp. injection Hp as <- _.
    rewrite (Hrun _ _ _ _ _ _ _ Hc Hv Hn Hr Hroot). fold w1.
    now rewrite Hh.
  - intros f w0 w0' st t s Hp Hst Ht Hs Hv Hn w1.
    split; [reflexivity|]. intros Hh.
    destruct (segmentProxy_run h) as (f0 & Hf & _ & Hrun).
    rewrite Hf in Hp. injection Hp as <- _.
    rewrite (Hrun _ _ _ _ _ _ Hst Ht Hs Hv Hn). fold w1.
    now rewrite Hh.
  - intros f w0 w0' st s t1 s1 Hp Hst Hs Hn R w1.
    split; [reflexivity|]. intros Hh.
    destruct (callbackProxy_run h st s Hn) as (f0 & Hf & Hrun).
    rewrite (Hf _ Hst Hs) in Hp. injection Hp as <- _.
    rewrite (Hrun _ _ _ _ _ R). fold w1.
    now rewrite Hh.
Qed.

(** C1.  [callbackProxy h], constructed while a State [st] is active whose
    call was made under its segment [s], of the transaction [t]: the
    construction makes exactly one call, the next one under [s], and
    enters nothing.  Every invocation of the returned callable, in
    whatever later world [w] and whatever the state of the context there,
    enters the State made of the transaction and the segment of [st] and
    of that call, applies the handler, exits the same State and returns
    the handler's result; the entries logged on entering and exiting carry
    the ids of [t], of [s] and of the call. *)
Theorem callbackProxy_resumes_captured h w0 st t s :
  context_state (context (tracer w0)) = Some st ->
  chain w0 st t s ->
  (Segment.numCalls s + 1)%Z <> 0%Z ->
  let call :=
    Call.mk (Segment.numCalls s + 1) (State.segment st) (fn_value h) in
  let st' :=
    State.mk (State.transaction st) (State.segment st) call true in
  exists f : callable,
    callbackProxy h w0 =
      (Return f,
       logged [] ["+C"] ["->C outer"; "<-C outer"]
         ["->C outer"; "+C"; "<-C outer"]
         (set_segments
            (<[State.segment st :=
                 Segment.set_numCalls (Segment.numCalls s + 1) s]>
               (segments w0))
            w0)) /\
    forall this args w,
      heap_extends w0 w ->
      let ids :=
        identity (Transaction.id t) (Segment.id s)
          (Segment.numCalls s + 1) in
      let w1 :=
        with_context (context_enter st' (context (tracer w)))
          (logged ["->" +:+ ids] [] ["->C inner"]
             ["->C inner"; "->" +:+ ids] w) in
      forall r w2,
        fn_apply h this args w1 = (Return r, w2) ->
        heap_extends w1 w2 ->
        f this args w =
          (Return r,
           logged ["<-" +:+ ids] [] ["<-C inner"]
             ["<-" +:+ ids; "<-C inner"]
             (with_context (context_exit st' (context (tracer w2))) w2)).
Proof.
  intros Hst (Hcs & Hs & Hts & Ht) Hn call st'.
  destruct (callbackProxy_run h st s Hn) as (f & Hf & Hrun).
  assert (Hs' : segments w0 !! Call.segment (State.call st) = Some s)
    by now rewrite Hcs.
  assert (Est : callback_state h st s = st').
  { unfold callback_state, callback_call. now rewrite Hcs. }
  exists f. split.
  - rewrite (Hf _ Hst Hs'). unfold callback_constructed. now rewrite Hcs.
  - intros this args w Hext ids w1 r w2 Hh Hext2.
    assert (R0 : resolves w0 call t s).
    { split; cbn; [exact Hs | now rewrite Hts]. }
    destruct (resolves_extends _ _ _ _ _ R0 Hext)
      as (t1 & s1 & R1 & It & Is & _).
    assert (R1' : resolves w (callback_call h st s) t1 s1).
    { unfold callback_call. now rewrite Hcs. }
    rewrite (Hrun _ _ _ _ _ R1'). rewrite Est.
    assert (Ew : callback_entry st' t1 s1 w = w1).
    { unfold callback_entry. rewrite It, Is. reflexivity. }
    rewrite Ew, Hh.
    assert (R2 : resolves w1 (State.call st') t1 s1) by exact R1.
    rewrite (around_returns st' "C inner" w1 r w2 _ _ R2 Hext2).
    rewrite It, Is. reflexivity.
Qed.

(** C5, as the code has it.  Constructing [transactionProxy h] crosses
    the outer wrapping and nothing else: it logs the two outer wrapping
    entries and returns the inner callable, which is the same for every
    world; no entity is created, the context is not entered and the
    handler is not applied.  All of that happens at each invocation of
    the returned callable: it creates the transaction, its root segment
    and the call, enters, applies the handler, exits and returns the
    handler's result. *)
Theorem transactionProxy_defers_to_invocation h :
  exists f : callable,
    (forall w0,
       transactionProxy h w0 =
         (Return f,
          logged [] [] ["->T outer"; "<-T outer"]
            ["->T outer"; "<-T outer"] w0)) /\
    (forall this args w v root e1 e2,
       createTransaction (agent (tracer w)) (env w) = (Return v, e1) ->
       truthy v = true ->
       (numTransactions (tracer w) + 1)%Z <> 0%Z ->
       getTraceRoot v e1 = (Return root, e2) ->
       truthy root = true ->
       let n := (numTransactions (tracer w) + 1)%Z in
       let transaction := length (transactions w) in
       let segment := length (segments w) in
       let call := Call.mk 1 segment (fn_value h) in
       let st' := State.mk transaction segment call true in
       let w1 := transaction_entry h v root e2 w in
       transactions w1 = transactions w ++ [Transaction.mk n v 1] /\
       segments w1 = segments w ++ [Segment.mk 1 transaction root 1] /\
       creations (describer (tracer w1)) =
         creations (describer (tracer w)) ++ ["+T"; "+S"; "+C"] /\
       context (tracer w1) = context_enter st' (context (tracer w)) /\
       trace (describer (tracer w1)) =
         trace (describer (tracer w)) ++ ["->" +:+ identity n 1 1] /\
       forall r w2,
         fn_apply h this args w1 = (Return r, w2) ->
         heap_extends w1 w2 ->
         let id := "<-" +:+ identity n 1 1 in
         f this args w =
           (Return r,
            logged [id] [] ["<-T inner"] [id; "<-T inner"]
              (with_context (context_exit st' (context (tracer w2))) w2))).
Proof.
  destruct (transactionProxy_run h) as (f & Hf & Hrun).
  exists f. split; [exact Hf|].
  intros this args w v root e1 e2 Hc Hv Hn Hr Hroot
    n transaction segment call st' w1.
  repeat (split; [reflexivity|]).
  intros r w2 Hh Hext id.
  rewrite (Hrun _ _ _ _ _ _ _ Hc Hv Hn Hr Hroot). fold w1. rewrite Hh.
  exact (around_returns (transaction_state h w) "T inner" w1 r w2 _ _
           (transaction_entry_resolves h v root e2 w) Hext).
Qed.

(** C3.  On a tracer that has just been constructed, the callable returned
    by [transactionProxy] for a handler that returns 42 returns 42, and
    leaves the trace [->T1S1C1], [<-T1S1C1] and the creations [+T], [+S],
    [+C], whenever the agent hands out a request value and a root. *)
Theorem direct_call_scenario (a : Agent) (c : Context) (en : Env)
    (tr : Tracer Agent Context) h v root e1 e2 this args :
  Tracer_construct (Some a) (Some c) = Return tr ->
  fn_apply h = (fun _ _ w => (Return (JNum 42), w)) ->
  createTransaction a en = (Return v, e1) ->
  truthy v = true ->
  getTraceRoot v e1 = (Return root, e2) ->
  truthy root = true ->
  exists (f : callable) w1 w2,
    transactionProxy h (mkWorld tr [] [] en) = (Return f, w1) /\
    f this args w1 = (Return (JNum 42), w2) /\
    trace (describer (tracer w2)) = ["->T1S1C1"; "<-T1S1C1"] /\
    creations (describer (tracer w2)) = ["+T"; "+S"; "+C"].
Proof.
  intros Htr Hh Hc Hv Hr Hroot. injection Htr as <-.
  destruct (transactionProxy_run h) as (f & Hf & Hrun).
  set (w0 := mkWorld (mkTracer 0 a c Describer_construct) [] [] en).
  set (w1 := logged [] [] ["->T outer"; "<-T outer"]
               ["->T outer"; "<-T outer"] w0).
  assert (Hn : (numTransactions (tracer w1) + 1)%Z <> 0%Z) by (cbn; lia).
  pose proof (Hrun this args w1 v root e1 e2 Hc Hv Hn Hr Hroot) as E.
  rewrite Hh in E.
  rewrite (around_returns (transaction_state h w1) "T inner"
             (transaction_entry h v root e2 w1) _ _ _ _
             (transaction_entry_resolves h v root e2 w1)
             (heap_extends_refl _)) in E.
  eexists f, w1, _. split; [apply Hf|]. split; [exact E|].
  split; reflexivity.
Qed.

(** ** Construction and ids *)

(** Reading back what an entity constructor did from its outcome [H]. *)
Ltac constructed H :=
  unfold Call.construct, Segment.construct, Transaction.construct in H;
  repeat match type of H with
         | context [(?id =? 0)%Z] => destruct (Z.eqb_spec id 0)
         | context [match ?o with Some _ => _ | None => _ end] => destruct o
         | context [truthy ?v] => destruct (truthy v) eqn:?
         end;
  cbn in H; try discriminate H; try (injection H as <-); cbn.

(** C7.  Each of the three entity constructors throws exactly when its id,
    its parent or its value is falsy or absent, and the tracer's
    constructor exactly when the agent or the context is; a constructor
    that returns has stored what it was given, with the counters at 0 and
    an empty describer. *)
Theorem construction_errors :
  (forall id seg v,
     (exists e, Call.construct id seg v = Throw e) <->
     id = 0%Z \/ seg = None \/ truthy v = false) /\
  (forall id seg v c,
     Call.construct id seg v = Return c ->
     Call.id c = id /\ seg = Some (Call.segment c) /\ Call.value c = v) /\
  (forall id txn v,
     (exists e, Segment.construct id txn v = Throw e) <->
     id = 0%Z \/ txn = None \/ truthy v = false) /\
  (forall id txn v s,
     Segment.construct id txn v = Return s ->
     Segment.id s = id /\ txn = Some (Segment.transaction s) /\
     Segment.value s = v /\ Segment.numCalls s = 0%Z) /\
  (forall id v,
     (exists e, Transaction.construct id v = Throw e) <->
     id = 0%Z \/ truthy v = false) /\
  (forall id v t,
     Transaction.construct id v = Return t ->
     Transaction.id t = id /\ Transaction.value t = v /\
     Transaction.numSegments t = 0%Z) /\
  (forall (a : option Agent) (c : option Context),
     (exists e, Tracer_construct a c = Throw e) <-> a = None \/ c = None) /\
  (forall (a : option Agent) (c : option Context) tr,
     Tracer_construct a c = Return tr ->
     a = Some (agent tr) /\ c = Some (context tr) /\
     numTransactions tr = 0%Z /\ describer tr = Describer_construct).
Proof.
  split; [|split; [|split; [|split; [|split; [|split; [|split]]]]]].
  - intros id seg v. split.
    + intros [e He]. constructed He; auto.
    + unfold Call.construct. intros [-> | [-> | Hv]].
      * eauto.
      * destruct (id =? 0)%Z; eauto.
      * destruct (id =? 0)%Z; [eauto|]. destruct seg; [|eauto].
        rewrite Hv. eauto.
  - intros id seg v c Hc. constructed Hc; auto.
  - intros id txn v. split.
    + intros [e He]. constructed He; auto.
    + unfold Segment.construct. intros [-> | [-> | Hv]].
      * eauto.
      * destruct (id =? 0)%Z; eauto.
      * destruct (id =? 0)%Z; [eauto|]. destruct txn; [|eauto].
        rewrite Hv. eauto.
  - intros id txn v s Hs. constructed Hs; auto.
  - intros id v. split.
    + intros [e He]. constructed He; auto.
    + unfold Transaction.construct. intros [-> | Hv].
      * eauto.
      * destruct (id =? 0)%Z; [eauto|]. rewrite Hv. eauto.
  - intros id v t Ht. constructed Ht; auto.
  - intros a c. split.
    + intros [e He]. destruct a, c; cbn in He; auto. discriminate.
    + intros [-> | ->]; [|destruct a]; cbn; eauto.
  - intros a c tr Htr. destruct a, c; cbn in Htr; try discriminate.
    injection Htr as <-. auto.
Qed.

Lemma attempts_cons {X} (m : M Agent Context Env X) ms w o w1 os w2 :
  m w = (o, w1) -> attempts ms w1 = (os, w2) ->
  attempts (m :: ms) w = (o :: os, w2).
Proof. intros E1 E2. cbn. now rewrite E1, E2. Qed.

Lemma attempts_length {X} (ms : list (M Agent Context Env X)) :
  forall w outs w', attempts ms w = (outs, w') -> length outs = length ms.
Proof.
  induction ms as [|m ms IH]; intros w outs w' E; cbn in E.
  - now injection E as <- _.
  - destruct (m w) as [o w1]. destruct (attempts ms w1) as [os w2] eqn:E2.
    injection E as <- _. cbn. f_equal. exact (IH _ _ _ E2).
Qed.

Lemma addTransaction_falsy w v :
  (0 <= numTransactions (tracer w))%Z ->
  truthy v = false ->
  addTransaction v w =
    (Throw (JError "Transactions must be associated with a value."),
     with_numTransactions (numTransactions (tracer w) + 1)
       (logged [] ["+T"] [] ["+T"] w)).
Proof.
  intros Hn Hv. rewrite addTransaction_run.
  rewrite Transaction_construct_falsy by (first [assumption | lia]).
  reflexivity.
Qed.

Lemma failed_attempts vs :
  forall w,
    (0 <= numTransactions (tracer w))%Z ->
    Forall (fun v => truthy v = false) vs ->
    exists outs w1,
      attempts (map addTransaction vs) w = (outs, w1) /\
      returned outs = [] /\
      length outs = length vs /\
      transactions w1 = transactions w /\
      numTransactions (tracer w1) =
        (numTransactions (tracer w) + Z.of_nat (length vs))%Z /\
      creations (describer (tracer w1)) =
        creations (describer (tracer w)) ++ replicate (length vs) "+T".
Proof.
  induction vs as [|v vs IH]; intros w Hn Hvs.
  - exists [], w. cbn. rewrite app_nil_r, Z.add_0_r. repeat split.
  - inversion Hvs as [|? ? Hv Hvs']; subst.
    pose proof (addTransaction_falsy w v Hn Hv) as E.
    set (wA := with_numTransactions _ _) in E.
    destruct (IH wA) as (outs & w1 & Ea & Hret & Hlen & Htx & Hnum & Hcr);
      [cbn; lia | assumption |].
    exists (Throw (JError "Transactions must be associated with a value.")
              :: outs), w1.
    split; [exact (attempts_cons _ _ _ _ _ _ _ E Ea)|].
    split; [exact Hret|]. split; [cbn; now rewrite Hlen|].
    split; [exact Htx|]. split.
    + rewrite Hnum. cbn [length]. cbn -[Z.add Z.of_nat]. lia.
    + rewrite Hcr. cbn. now rewrite <- app_assoc.
Qed.

(** C9.  [addTransaction] counts and logs before it constructs: given a
    falsy value it throws, and the transaction counter has advanced and
    [+T] has been logged all the same.  After any number of such failed
    attempts, the next transaction created gets the id that follows the
    counter, failed attempts included. *)
Theorem addTransaction_not_atomic w :
  (0 <= numTransactions (tracer w))%Z ->
  let n := numTransactions (tracer w) in
  (forall v,
     truthy v = false ->
     addTransaction v w =
       (Throw (JError "Transactions must be associated with a value."),
        with_numTransactions (n + 1) (logged [] ["+T"] [] ["+T"] w))) /\
  (forall vs v',
     Forall (fun v => truthy v = false) vs ->
     truthy v' = true ->
     exists outs w1 w2,
       attempts (map addTransaction vs) w = (outs, w1) /\
       returned outs = [] /\
       length outs = length vs /\
       numTransactions (tracer w1) = (n + Z.of_nat (length vs))%Z /\
       creations (describer (tracer w1)) =
         creations (describer (tracer w)) ++ replicate (length vs) "+T" /\
       addTransaction v' w1 = (Return (length (transactions w)), w2) /\
       transactions w2 =
         transactions w ++
           [Transaction.mk (n + Z.of_nat (length vs) + 1) v' 0]).
Proof.
  intros Hn n. split.
  - intros v Hv. exact (addTransaction_falsy w v Hn Hv).
  - intros vs v' Hvs Hv'.
    destruct (failed_attempts vs w Hn Hvs)
      as (outs & w1 & Ea & Hret & Hlen & Htx & Hnum & Hcr).
    pose proof (addTransaction_run w1 v') as E. cbv zeta in E.
    rewrite Transaction_construct_ok in E by (first [assumption | lia]).
    eexists outs, w1, _.
    split; [exact Ea|]. split; [exact Hret|]. split; [exact Hlen|].
    split; [exact Hnum|]. split; [exact Hcr|].
    split; [rewrite E, Htx; reflexivity|].
    cbn. now rewrite Hnum.
Qed.

Lemma Call_construct_cases id r v :
  id <> 0%Z ->
  Call.construct id (Some r) v =
    if truthy v then Return (Call.mk id r v)
    else Throw (JError "Calls must be associated with a segment value.").
Proof.
  intros Hid. unfold Call.construct.
  destruct (Z.eqb_spec id 0); [contradiction|]. now destruct (truthy v).
Qed.

Lemma addCall_attempts r vs :
  forall w s outs w',
    segments w !! r = Some s ->
    (0 <= Segment.numCalls s)%Z ->
    attempts (map (Segment_addCall r) vs) w = (outs, w') ->
    forall k v,
      vs !! k = Some v ->
      outs !! k =
        Some (if truthy v
              then Return (Call.mk (Segment.numCalls s + Z.of_nat k + 1) r v)
              else Throw (JError
                     "Calls must be associated with a segment value.")).
Proof.
  induction vs as [|v0 vs IH]; intros w s outs w' Hs Hn E k v Hk.
  - destruct k; discriminate.
  - cbn [map] in E. cbn [attempts] in E.
    rewrite (Segment_addCall_run w r s v0 Hs) in E.
    set (w1 := set_segments _ w) in E.
    destruct (attempts (map (Segment_addCall r) vs) w1) as [os w2] eqn:E2.
    injection E as <- <-.
    destruct k as [|k].
    + injection Hk as <-. cbn.
      rewrite Call_construct_cases by lia.
      now rewrite Z.add_0_r.
    + cbn in Hk.
      assert (Hs1 : segments w1 !! r =
                    Some (Segment.set_numCalls (Segment.numCalls s + 1) s)).
      { subst w1. cbn. apply list_lookup_insert_eq.
        now apply lookup_lt_Some with s. }
      pose proof (IH w1 _ os w2 Hs1 ltac:(cbn; lia) E2 k v Hk) as IHk.
      change (os !! k =
              Some (if truthy v
                    then Return
                           (Call.mk
                              (Segment.numCalls s + Z.of_nat (S k) + 1) r v)
                    else Throw (JError
                           "Calls must be associated with a segment value."))).
      rewrite IHk. cbn [Segment.numCalls Segment.set_numCalls].
      destruct (truthy v); [|reflexivity]. do 3 f_equal. lia.
Qed.

Lemma addSegment_attempts r vs :
  forall w t outs w',
    transactions w !! r = Some t ->
    (0 <= Transaction.numSegments t)%Z ->
    attempts (map (Transaction_addSegment r) vs) w = (outs, w') ->
    (forall i x, segments w !! i = Some x -> segments w' !! i = Some x) /\
    forall k v,
      vs !! k = Some v ->
      if truthy v
      then exists sref,
             outs !! k = Some (Return sref) /\
             segments w' !! sref =
               Some (Segment.mk
                       (Transaction.numSegments t + Z.of_nat k + 1) r v 0)
      else outs !! k =
             Some (Throw (JError "Segments must be associated with a value.")).
Proof.
  induction vs as [|v0 vs IH]; intros w t outs w' Ht Hn E.
  - cbn in E. injection E as <- <-. split; [auto|].
    intros k v Hk. destruct k; discriminate.
  - cbn [map] in E. cbn [attempts] in E.
    pose proof (Transaction_addSegment_run w r t v0 Ht) as E1.
    cbv zeta in E1.
    set (wt := set_transactions _ w) in E1.
    assert (Ht1 : forall l, transactions (set_segments l wt) !! r =
                    Some (Transaction.set_numSegments
                            (Transaction.numSegments t + 1) t)).
    { intros l. subst wt. cbn. apply list_lookup_insert_eq.
      now apply lookup_lt_Some with t. }
    destruct (truthy v0) eqn:Hv0.
    + rewrite Segment_construct_ok in E1 by (first [assumption | lia]).
      rewrite E1 in E.
      set (w1 := set_segments _ wt) in E.
      destruct (attempts (map (Transaction_addSegment r) vs) w1)
        as [os w2] eqn:E2.
      injection E as <- <-.
      destruct (IH w1 _ os w2 (Ht1 _) ltac:(cbn; lia) E2) as [Hkeep Hids].
      assert (Hgrow : forall i x,
                 segments w !! i = Some x -> segments w1 !! i = Some x).
      { intros i x Hi. subst w1 wt. cbn. now apply lookup_app_l_Some. }
      split; [auto|].
      intros k v Hk. destruct k as [|k].
      * injection Hk as <-. rewrite Hv0.
        exists (length (segments w)). split; [reflexivity|].
        apply Hkeep. subst w1 wt. cbn. rewrite Z.add_0_r.
        apply lookup_snoc.
      * cbn in Hk. specialize (Hids k v Hk). cbn -[Z.of_nat] in Hids.
        destruct (truthy v).
        -- destruct Hids as (sref & Ho & Hl). exists sref.
           split; [exact Ho|]. rewrite Hl. do 2 f_equal. lia.
        -- exact Hids.
    + rewrite Segment_construct_falsy in E1 by (first [assumption | lia]).
      rewrite E1 in E.
      destruct (attempts (map (Transaction_addSegment r) vs) wt)
        as [os w2] eqn:E2.
      injection E as <- <-.
      assert (Ht1' : transactions wt !! r =
                Some (Transaction.set_numSegments
                        (Transaction.numSegments t + 1) t)).
      { exact (Ht1 (segments w)). }
      destruct (IH wt _ os w2 Ht1' ltac:(cbn; lia) E2) as [Hkeep Hids].
      split; [exact Hkeep|].
      intros k v Hk. destruct k as [|k].
      * injection Hk as <-. now rewrite Hv0.
      * cbn in Hk. specialize (Hids k v Hk). cbn -[Z.of_nat] in Hids.
        destruct (truthy v).
        -- destruct Hids as (sref & Ho & Hl). exists sref.
           split; [exact Ho|]. rewrite Hl. do 2 f_equal. lia.
        -- exact Hids.
Qed.

Lemma call_of_attempt r vs w s outs w' k c :
  segments w !! r = Some s ->
  (0 <= Segment.numCalls s)%Z ->
  attempts (map (Segment_addCall r) vs) w = (outs, w') ->
  outs !! k = Some (Return c) ->
  Call.id c = (Segment.numCalls s + Z.of_nat k + 1)%Z.
Proof.
  intros Hs Hn E Hk.
  assert (Hlt : k < length vs).
  { apply lookup_lt_Some in Hk.
    rewrite (attempts_length _ _ _ _ E), length_map in Hk. exact Hk. }
  destruct (lookup_lt_is_Some_2 vs k Hlt) as [v Hv].
  rewrite (addCall_attempts r vs w s outs w' Hs Hn E k v Hv) in Hk.
  destruct (truthy v); [|discriminate]. now injection Hk as <-.
Qed.

Lemma segment_of_attempt r vs w t outs w' k sref x :
  transactions w !! r = Some t ->
  (0 <= Transaction.numSegments t)%Z ->
  attempts (map (Transaction_addSegment r) vs) w = (outs, w') ->
  outs !! k = Some (Return sref) ->
  segments w' !! sref = Some x ->
  Segment.id x = (Transaction.numSegments t + Z.of_nat k + 1)%Z.
Proof.
  intros Ht Hn E Hk Hx.
  assert (Hlt : k < length vs).
  { apply lookup_lt_Some in Hk.
    rewrite (attempts_length _ _ _ _ E), length_map in Hk. exact Hk. }
  destruct (lookup_lt_is_Some_2 vs k Hlt) as [v Hv].
  destruct (addSegment_attempts r vs w t outs w' Ht Hn E) as [_ Hids].
  specialize (Hids k v Hv). destruct (truthy v).
  - destruct Hids as (sref' & Ho & Hl). rewrite Ho in Hk.
    injection Hk as ->. rewrite Hl in Hx. now injection Hx as <-.
  - rewrite Hids in Hk. discriminate.
Qed.

Lemma returned_all {X} (outs : list (Outcome X)) :
  (forall k o, outs !! k = Some o -> exists x, o = Return x) ->
  forall k x, returned outs !! k = Some x -> outs !! k = Some (Return x).
Proof.
  induction outs as [|o outs IH]; intros Hall k x Hk.
  - destruct k; discriminate.
  - destruct (Hall 0 o eq_refl) as [y ->]. cbn in Hk.
    destruct k as [|k].
    + now injection Hk as <-.
    + apply IH; [|exact Hk].
      intros k' o' Hk'. exact (Hall (S k') o' Hk').
Qed.

Lemma calls_all_returned r vs w s outs w' :
  segments w !! r = Some s ->
  (0 <= Segment.numCalls s)%Z ->
  attempts (map (Segment_addCall r) vs) w = (outs, w') ->
  Forall (fun v => truthy v = true) vs ->
  forall k o, outs !! k = Some o -> exists x, o = Return x.
Proof.
  intros Hs Hn E Hvs k o Hk.
  assert (Hlt : k < length vs).
  { apply lookup_lt_Some in Hk.
    rewrite (attempts_length _ _ _ _ E), length_map in Hk. exact Hk. }
  destruct (lookup_lt_is_Some_2 vs k Hlt) as [v Hv].
  rewrite (addCall_attempts r vs w s outs w' Hs Hn E k v Hv) in Hk.
  rewrite (proj1 (Forall_lookup _ vs) Hvs k v Hv) in Hk.
  injection Hk as <-. eauto.
Qed.

Lemma segments_all_returned r vs w t outs w' :
  transactions w !! r = Some t ->
  (0 <= Transaction.numSegments t)%Z ->
  attempts (map (Transaction_addSegment r) vs) w = (outs, w') ->
  Forall (fun v => truthy v = true) vs ->
  forall k o, outs !! k = Some o -> exists x, o = Return x.
Proof.
  intros Ht Hn E Hvs k o Hk.
  assert (Hlt : k < length vs).
  { apply lookup_lt_Some in Hk.
    rewrite (attempts_length _ _ _ _ E), length_map in Hk. exact Hk. }
  destruct (lookup_lt_is_Some_2 vs k Hlt) as [v Hv].
  destruct (addSegment_attempts r vs w t outs w' Ht Hn E) as [_ Hids].
  specialize (Hids k v Hv).
  rewrite (proj1 (Forall_lookup _ vs) Hvs k v Hv) in Hids.
  destruct Hids as (sref & Ho & _). rewrite Ho in Hk.
  injection Hk as <-. eauto.
Qed.

(** C6, as the code has it.  The counter of the parent advances at every
    invocation of [addSegment] or [addCall], before the entity is
    constructed.  So the invocation number [k + 1] on a parent whose
    counter was [n] yields, when its value is truthy, an entity with the
    id [n + k + 1], and throws, with the id consumed, when its value is
    falsy.  Ids under one parent are strictly increasing in the order of
    creation, hence never used twice; and when no invocation fails, the
    entity number [k + 1] among those created has the id [n + k + 1]: on a
    new parent, the N-th created has the id N. *)
Theorem ids_count_invocations :
  (forall w r t vs outs w',
     transactions w !! r = Some t ->
     (0 <= Transaction.numSegments t)%Z ->
     attempts (map (Transaction_addSegment r) vs) w = (outs, w') ->
     (forall k v,
        vs !! k = Some v ->
        if truthy v
        then exists sref,
               outs !! k = Some (Return sref) /\
               segments w' !! sref =
                 Some (Segment.mk
                         (Transaction.numSegments t + Z.of_nat k + 1) r v 0)
        else outs !! k =
               Some (Throw
                       (JError "Segments must be associated with a value.")))
     /\
     (forall i j si sj x y,
        i < j ->
        outs !! i = Some (Return si) -> outs !! j = Some (Return sj) ->
        segments w' !! si = Some x -> segments w' !! sj = Some y ->
        (Segment.id x < Segment.id y)%Z) /\
     (Forall (fun v => truthy v = true) vs ->
      forall k sref x,
        returned outs !! k = Some sref ->
        segments w' !! sref = Some x ->
        Segment.id x = (Transaction.numSegments t + Z.of_nat k + 1)%Z)) /\
  (forall w r s vs outs w',
     segments w !! r = Some s ->
     (0 <= Segment.numCalls s)%Z ->
     attempts (map (Segment_addCall r) vs) w = (outs, w') ->
     (forall k v,
        vs !! k = Some v ->
        outs !! k =
          Some (if truthy v
                then Return
                       (Call.mk (Segment.numCalls s + Z.of_nat k + 1) r v)
                else Throw (JError
                       "Calls must be associated with a segment value.")))
     /\
     (forall i j ci cj,
        i < j ->
        outs !! i = Some (Return ci) -> outs !! j = Some (Return cj) ->
        (Call.id ci < Call.id cj)%Z) /\
     (Forall (fun v => truthy v = true) vs ->
      forall k c,
        returned outs !! k = Some c ->
        Call.id c = (Segment.numCalls s + Z.of_nat k + 1)%Z)).
Proof.
  split.
  - intros w r t vs outs w' Ht Hn E. split; [|split].
    + exact (proj2 (addSegment_attempts r vs w t outs w' Ht Hn E)).
    + intros i j si sj x y Hij Hi Hj Hx Hy.
      rewrite (segment_of_attempt r vs w t outs w' i si x Ht Hn E Hi Hx).
      rewrite (segment_of_attempt r vs w t outs w' j sj y Ht Hn E Hj Hy).
      lia.
    + intros Hvs k sref x Hk Hx.
      apply (segment_of_attempt r vs w t outs w' k sref x Ht Hn E); [|exact Hx].
      apply returned_all; [|exact Hk].
      exact (segments_all_returned r vs w t outs w' Ht Hn E Hvs).
  - intros w r s vs outs w' Hs Hn E. split; [|split].
    + exact (addCall_attempts r vs w s outs w' Hs Hn E).
    + intros i j ci cj Hij Hi Hj.
      rewrite (call_of_attempt r vs w s outs w' i ci Hs Hn E Hi).
      rewrite (call_of_attempt r vs w s outs w' j cj Hs Hn E Hj).
      lia.
    + intros Hvs k c Hk.
      apply (call_of_attempt r vs w s outs w' k c Hs Hn E).
      apply returned_all; [|exact Hk].
      exact (calls_all_returned r vs w s outs w' Hs Hn E Hvs).
Qed.

End Properties.

(** ** The scenarios *)

Lemma busy_elsewhere : heap_extends Scenario.busy Scenario.elsewhere.
Proof.
  split; intros r x E; destruct r as [|r]; cbn in E; try discriminate;
    injection E as <-; eexists; repeat split; reflexivity.
Qed.

(** [callbackProxy] constructed in the middle of transaction 1 and invoked
    in the middle of transaction 2: the entries are those of transaction
    1, and the State of transaction 2 is active again afterwards. *)
Lemma callbackProxy_resumes_captured_witness :
  exists f w0' w2,
    callbackProxy Scenario.counting Scenario.busy = (Return f, w0') /\
    creations (describer (tracer w0')) = ["+C"] /\
    f (JNum 7) [] Scenario.elsewhere = (Return (JNum 7), w2) /\
    trace (describer (tracer w2)) = ["->T1S1C2"; "<-T1S1C2"] /\
    context (tracer w2) = [Scenario.other_state] /\
    env w2 = 1.
Proof.
  destruct (callbackProxy_resumes_captured (ContextContract0 := StackContext_contract)
              Scenario.counting Scenario.busy
              Scenario.active_state (Transaction.mk 1 (JObj 0) 1)
              (Segment.mk 1 0 (JObj 1) 1) eq_refl)
    as (f & Hf & Hinv).
  - repeat split.
  - cbn. lia.
  - eexists f, _, _. split; [exact Hf|]. split; [reflexivity|].
    split.
    + apply (Hinv (JNum 7) [] Scenario.elsewhere busy_elsewhere (JNum 7) _
               eq_refl).
      apply heap_extends_same_store; reflexivity.
    + repeat split.
Defined.

(** [segmentProxy]: outside any transaction the handler alone runs; in the
    middle of transaction 1 the second segment of that transaction is
    created, with the value of the active segment, and entered. *)
Lemma segmentProxy_invocation_witness :
  (exists f w0' w2,
     segmentProxy Scenario.counting Scenario.fresh = (Return f, w0') /\
     f (JNum 7) [] Scenario.fresh = (Return (JNum 7), w2) /\
     transactions w2 = [] /\ segments w2 = [] /\
     creations (describer (tracer w2)) = [] /\
     trace (describer (tracer w2)) = [] /\
     context (tracer w2) = [] /\ env w2 = 1) /\
  (exists f w0' w2,
     segmentProxy Scenario.counting Scenario.fresh = (Return f, w0') /\
     f (JNum 7) [] Scenario.busy = (Return (JNum 7), w2) /\
     segments w2 = [Segment.mk 1 0 (JObj 1) 1; Segment.mk 2 0 (JObj 1) 1] /\
     creations (describer (tracer w2)) = ["+S"; "+C"] /\
     trace (describer (tracer w2)) = ["->T1S2C1"; "<-T1S2C1"] /\
     context (tracer w2) = [Scenario.active_state] /\ env w2 = 1).
Proof.
  split.
  - destruct (segmentProxy_invocation
                (ContextContract0 := StackContext_contract)
                Scenario.counting Scenario.fresh (JNum 7) [] Scenario.fresh)
      as (f & w0' & Hf & Hnone & _).
    eexists f, w0', _. split; [exact Hf|].
    split; [exact (Hnone eq_refl (JNum 7) _ eq_refl)|]. repeat split.
  - destruct (segmentProxy_invocation
                (ContextContract0 := StackContext_contract)
                Scenario.counting Scenario.fresh (JNum 7) [] Scenario.busy)
      as (f & w0' & Hf & _ & Hsome).
    destruct (Hsome Scenario.active_state (Transaction.mk 1 (JObj 0) 1)
                (Segment.mk 1 0 (JObj 1) 1) eq_refl eq_refl eq_refl eq_refl
                ltac:(cbn; lia))
      as (_ & _ & _ & _ & _ & Hret).
    eexists f, w0', _. split; [exact Hf|]. split.
    + apply (Hret (JNum 7) _ eq_refl).
      apply heap_extends_same_store; reflexivity.
    + repeat split.
Defined.

(** The direct call, with the agent of the scenarios. *)
Lemma direct_call_scenario_witness :
  exists f w1 w2,
    transactionProxy Scenario.return42 Scenario.fresh = (Return f, w1) /\
    f JUndefined [] w1 = (Return (JNum 42), w2) /\
    trace (describer (tracer w2)) = ["->T1S1C1"; "<-T1S1C1"] /\
    creations (describer (tracer w2)) = ["+T"; "+S"; "+C"].
Proof.
  exact (direct_call_scenario
           (ContextContract0 := StackContext_contract)
           (AgentContract0 := Scenario.agent_contract)
           tt [] 0 (mkTracer 0%Z tt [] Describer_construct)
           Scenario.return42 (JObj 0) (JObj 1) 0 0 JUndefined []
           eq_refl eq_refl eq_refl eq_refl eq_refl eq_refl).
Defined.

(** A handler that throws, under each of the three proxies: the entry of
    the exit is missing from the trace, and the State entered is still on
    top of the context. *)
Lemma handler_throw_skips_exit_witness :
  (exists f w0' w2,
     transactionProxy Scenario.failing Scenario.fresh = (Return f, w0') /\
     f JUndefined [] Scenario.fresh = (Throw (JError "boom"), w2) /\
     trace (describer (tracer w2)) = ["->T1S1C1"] /\
     wrappings (describer (tracer w2)) = ["->T inner"] /\
     context (tracer w2) = [State.mk 0 0 (Call.mk 1 0 (JFun 2)) true]) /\
  (exists f w0' w2,
     segmentProxy Scenario.failing Scenario.fresh = (Return f, w0') /\
     f JUndefined [] Scenario.busy = (Throw (JError "boom"), w2) /\
     trace (describer (tracer w2)) = ["->T1S2C1"] /\
     wrappings (describer (tracer w2)) = ["->S inner"] /\
     context (tracer w2) =
       [State.mk 0 1 (Call.mk 1 1 (JFun 2)) true; Scenario.active_state]) /\
  (exists f w0' w2,
     callbackProxy Scenario.failing Scenario.busy = (Return f, w0') /\
     f JUndefined [] Scenario.elsewhere = (Throw (JError "boom"), w2) /\
     trace (describer (tracer w2)) = ["->T1S1C2"] /\
     wrappings (describer (tracer w2)) = ["->C inner"] /\
     context (tracer w2) =
       [State.mk 0 0 (Call.mk 2 0 (JFun 2)) true; Scenario.other_state]).
Proof.
  split; [|split].
  - eexists _, _, _. split; [reflexivity|]. split.
    + refine (proj2 (proj1 (handler_throw_skips_exit
                (ContextContract0 := StackContext_contract)
                (AgentContract0 := Scenario.agent_contract)
                Scenario.failing JUndefined [] Scenario.fresh
                (JError "boom") _)
              _ Scenario.fresh _ (JObj 0) (JObj 1) 0 0
              eq_refl eq_refl eq_refl _ eq_refl eq_refl) eq_refl).
      cbn. lia.
    + repeat split.
  - eexists _, _, _. split; [reflexivity|]. split.
    + refine (proj2 (proj1 (proj2 (handler_throw_skips_exit
                (ContextContract0 := StackContext_contract)
                (AgentContract0 := Scenario.agent_contract)
                Scenario.failing JUndefined [] Scenario.busy
                (JError "boom") _))
              _ Scenario.fresh _ Scenario.active_state
              (Transaction.mk 1 (JObj 0) 1) (Segment.mk 1 0 (JObj 1) 1)
              eq_refl eq_refl eq_refl eq_refl eq_refl _) eq_refl).
      cbn. lia.
    + repeat split.
  - eexists _, _, _. split; [reflexivity|]. split.
    + refine (proj2 (proj2 (proj2 (handler_throw_skips_exit
                (ContextContract0 := StackContext_contract)
                (AgentContract0 := Scenario.agent_contract)
                Scenario.failing JUndefined [] Scenario.elsewhere
                (JError "boom") _))
              _ Scenario.busy _ Scenario.active_state
              (Segment.mk 1 0 (JObj 1) 1)
              (Transaction.mk 1 (JObj 0) 1) (Segment.mk 1 0 (JObj 1) 2)
              eq_refl eq_refl eq_refl _ _) eq_refl).
      * cbn. lia.
      * split; reflexivity.
    + repeat split.
Defined.

(** C5 fails on the code: when [transactionProxy] has returned, on a tracer
    that has just been constructed and for a handler that counts its
    invocations, no transaction, segment or call exists, nothing has been
    created or traced, the context is empty and the handler has not run. *)
Lemma transactionProxy_construction_counterexample :
  exists f w1,
    transactionProxy Scenario.counting Scenario.fresh = (Return f, w1) /\
    transactions w1 = [] /\ segments w1 = [] /\
    numTransactions (tracer w1) = 0%Z /\
    creations (describer (tracer w1)) = [] /\
    trace (describer (tracer w1)) = [] /\
    wrappings (describer (tracer w1)) = ["->T outer"; "<-T outer"] /\
    context (tracer w1) = [] /\
    env w1 = 0.
Proof. eexists _, _. split; [reflexivity|]. repeat split. Qed.

(** The same construction, and then the first invocation of what it
    returned: this is when the entities are created and the handler runs. *)
Lemma transactionProxy_defers_to_invocation_witness :
  exists f w1 w2,
    transactionProxy Scenario.counting Scenario.fresh = (Return f, w1) /\
    creations (describer (tracer w1)) = [] /\ env w1 = 0 /\
    f (JNum 7) [] w1 = (Return (JNum 7), w2) /\
    transactions w2 = [Transaction.mk 1 (JObj 0) 1] /\
    segments w2 = [Segment.mk 1 0 (JObj 1) 1] /\
    creations (describer (tracer w2)) = ["+T"; "+S"; "+C"] /\
    trace (describer (tracer w2)) = ["->T1S1C1"; "<-T1S1C1"] /\
    env w2 = 1.
Proof.
  destruct (transactionProxy_defers_to_invocation
              (ContextContract0 := StackContext_contract)
              (AgentContract0 := Scenario.agent_contract)
              Scenario.counting)
    as (f & Hf & Hinv).
  eexists f, _, _. split; [exact (Hf Scenario.fresh)|].
  split; [reflexivity|]. split; [reflexivity|].
  match goal with |- f _ _ ?w = _ /\ _ => set (w1 := w) end.
  destruct (Hinv (JNum 7) [] w1 (JObj 0) (JObj 1) 0 0
              eq_refl eq_refl ltac:(cbn; lia) eq_refl eq_refl)
    as (_ & _ & _ & _ & _ & Hret).
  split.
  - apply (Hret (JNum 7) _ eq_refl).
    apply heap_extends_same_store; reflexivity.
  - repeat split.
Defined.

(** C6 fails on the code: on a transaction without segments, an
    [addSegment] that is given no value throws, and the first segment that
    is created after it has the id 2. *)
Lemma first_segment_counterexample :
  exists outs w' sref x,
    attempts
      [Transaction_addSegment 0 JUndefined;
       Transaction_addSegment 0 (JObj 1)] Scenario.childless = (outs, w') /\
    returned outs = [sref] /\
    segments w' = [x] /\
    segments w' !! sref = Some x /\
    Segment.id x = 2%Z.
Proof. eexists _, _, _, _. split; [reflexivity|]. repeat split. Qed.

(** Invocations and ids on a transaction without segments and on a segment
    that has one call. *)
Lemma ids_count_invocations_witness :
  (exists outs w',
     attempts (map (Transaction_addSegment 0) [JUndefined; JObj 1])
       Scenario.childless = (outs, w') /\
     outs !! 0 =
       Some (Throw (JError "Segments must be associated with a value.")) /\
     exists sref,
       outs !! 1 = Some (Return sref) /\
       segments w' !! sref = Some (Segment.mk 2 0 (JObj 1) 0)) /\
  (exists outs w',
     attempts (map (Segment_addCall 0) [JFun 3; JNull; JFun 4])
       Scenario.busy = (outs, w') /\
     outs !! 0 = Some (Return (Call.mk 2 0 (JFun 3))) /\
     outs !! 1 =
       Some (Throw (JError "Calls must be associated with a segment value.")) /\
     outs !! 2 = Some (Return (Call.mk 4 0 (JFun 4)))) /\
  (exists outs w' c1 c2,
     attempts (map (Segment_addCall 0) [JFun 3; JFun 4])
       Scenario.busy = (outs, w') /\
     returned outs = [c1; c2] /\
     Call.id c1 = 2%Z /\ Call.id c2 = 3%Z).
Proof.
  destruct (ids_count_invocations
              (Agent := unit) (Context := StackContext.t) (Env := nat))
    as [Hsegments Hcalls].
  split; [|split].
  - eexists _, _. split; [reflexivity|].
    match goal with
    | |- ?o !! 0 = _ /\ _ =>
        destruct (Hsegments Scenario.childless 0 (Transaction.mk 1 (JObj 0) 0)
                    [JUndefined; JObj 1] o _ eq_refl ltac:(cbn; lia) eq_refl)
          as (Hk & _ & _)
    end.
    split.
    + exact (Hk 0 JUndefined eq_refl).
    + exact (Hk 1 (JObj 1) eq_refl).
  - eexists _, _. split; [reflexivity|].
    match goal with
    | |- ?o !! 0 = _ /\ _ =>
        destruct (Hcalls Scenario.busy 0 (Segment.mk 1 0 (JObj 1) 1)
                    [JFun 3; JNull; JFun 4] o _ eq_refl ltac:(cbn; lia)
                    eq_refl)
          as (Hk & _ & _)
    end.
    split; [|split].
    + exact (Hk 0 (JFun 3) eq_refl).
    + exact (Hk 1 JNull eq_refl).
    + exact (Hk 2 (JFun 4) eq_refl).
  - eexists _, _, _, _. split; [reflexivity|]. split; [reflexivity|].
    match goal with
    | |- Call.id ?c1 = _ /\ Call.id ?c2 = _ =>
        destruct (Hcalls Scenario.busy 0 (Segment.mk 1 0 (JObj 1) 1)
                    [JFun 3; JFun 4] [Return c1; Return c2] _ eq_refl
                    ltac:(cbn; lia) eq_refl)
          as (_ & _ & Hall)
    end.
    split.
    + exact (Hall ltac:(repeat constructor) 0 _ eq_refl).
    + exact (Hall ltac:(repeat constructor) 1 _ eq_refl).
Defined.

(** With an agent that has nothing to hand out, the callable of
    [transactionProxy] throws the error of the Transaction constructor,
    and transaction 1 is spent. *)
Example producer_returns_nothing :
  exists f w1 w2,
    transactionProxy (AgentContract0 := Scenario.no_agent)
      Scenario.return42 Scenario.fresh = (Return f, w1) /\
    f JUndefined [] w1 =
      (Throw (JError "Transactions must be associated with a value."), w2) /\
    numTransactions (tracer w2) = 1%Z /\
    creations (describer (tracer w2)) = ["+T"] /\
    transactions w2 = [].
Proof. eexists _, _, _. split; [reflexivity|]. repeat split. Qed.

(** Two failed attempts on a tracer that has just been constructed, and
    then a transaction: it is the first one created, and its id is 3. *)
Lemma addTransaction_not_atomic_witness :
  (exists w',
     addTransaction JUndefined Scenario.fresh =
       (Throw (JError "Transactions must be associated with a value."), w') /\
     numTransactions (tracer w') = 1%Z /\
     creations (describer (tracer w')) = ["+T"] /\
     transactions w' = []) /\
  (exists outs w1 w2,
     attempts (map addTransaction [JUndefined; JNull]) Scenario.fresh
       = (outs, w1) /\
     returned outs = [] /\
     numTransactions (tracer w1) = 2%Z /\
     creations (describer (tracer w1)) = ["+T"; "+T"] /\
     addTransaction (JObj 0) w1 = (Return 0, w2) /\
     transactions w2 = [Transaction.mk 3 (JObj 0) 0]).
Proof.
  destruct (addTransaction_not_atomic Scenario.fresh ltac:(cbn; lia))
    as [Hone Hmany].
  split.
  - eexists. split; [exact (Hone JUndefined eq_refl)|]. repeat split.
  - destruct (Hmany [JUndefined; JNull] (JObj 0)
                ltac:(repeat constructor) eq_refl)
      as (outs & w1 & w2 & Ha & Hret & _ & Hnum & Hcr & Hadd & Htx).
    exists outs, w1, w2. repeat split; assumption.
Defined.

(** One callable, whether [segmentProxy] was called outside or inside a
    transaction: invoked inside it tracks, invoked outside it passes
    through. *)
Lemma segmentProxy_decides_at_invocation_witness :
  exists f wa wb w2 w3,
    segmentProxy Scenario.counting Scenario.fresh = (Return f, wa) /\
    segmentProxy Scenario.counting Scenario.busy = (Return f, wb) /\
    f (JNum 7) [] Scenario.busy = (Return (JNum 7), w2) /\
    creations (describer (tracer w2)) = ["+S"; "+C"] /\
    trace (describer (tracer w2)) = ["->T1S2C1"; "<-T1S2C1"] /\
    f (JNum 7) [] Scenario.fresh = (Return (JNum 7), w3) /\
    creations (describer (tracer w3)) = [] /\
    trace (describer (tracer w3)) = [] /\
    segments w3 = [].
Proof.
  destruct (segmentProxy_decides_at_invocation
              (ContextContract0 := StackContext_contract) Scenario.counting)
    as (f & Hf & Hnone & Hsome).
  destruct (Hf Scenario.fresh) as (wa & Ha & _).
  destruct (Hf Scenario.busy) as (wb & Hb & _).
  destruct (Hnone (JNum 7) [] Scenario.fresh eq_refl) as [Hret3 _].
  destruct (Hsome (JNum 7) [] Scenario.busy Scenario.active_state
              (Transaction.mk 1 (JObj 0) 1) (Segment.mk 1 0 (JObj 1) 1)
              eq_refl eq_refl eq_refl eq_refl ltac:(cbn; lia))
    as (_ & _ & _ & Hret2).
  eexists f, wa, wb, _, _.
  split; [exact Ha|]. split; [exact Hb|]. split.
  - apply (Hret2 (JNum 7) _ eq_refl).
    apply heap_extends_same_store; reflexivity.
  - split; [reflexivity|]. split; [reflexivity|]. split.
    + exact (Hret3 (JNum 7) _ eq_refl).
    + repeat split.
Defined.

(** ** What every operation preserves *)

Section Coverage.

Context {Agent Context Env : Type}.
Context `{!ContextContract Context, !AgentContract Agent Env}.

Local Abbreviation world := (World Agent Context Env).
Local Abbreviation handler := (Handler Agent Context Env).
Local Abbreviation callable := (Callable Agent Context Env jsval).

Implicit Types (w : world) (h : handler) (v : jsval) (st : State.t).
Implicit Types (R : world -> world -> Prop).

Local Abbreviation on_worlds R := (R : world -> world -> Prop).

Ltac normalize_world :=
  repeat match goal with
         | w : World _ _ _ |- _ =>
             destruct w as [[? ? ? [? ? ? ?]] ? ? ?]
         end;
  cbv beta iota zeta delta
    [logged with_context with_numTransactions set_tracer set_transactions
     set_segments set_env set_describer set_context set_numTransactions
     push_trace push_creation push_wrapping
     tracer transactions segments env
     numTransactions agent context describer
     trace creations wrappings verbose].

Lemma preserves_bind {X Y} R (m : M Agent Context Env X)
    (k : X -> M Agent Context Env Y) :
  (forall w1 w2 w3, R w1 w2 -> R w2 w3 -> R w1 w3) ->
  preserves R m -> (forall x, preserves R (k x)) -> preserves R (bind m k).
Proof.
  intros Htrans Hm Hk w. unfold bind. specialize (Hm w).
  destruct (m w) as [[x|e] w1]; cbn in *.
  - exact (Htrans _ _ _ Hm (Hk x w1)).
  - exact Hm.
Qed.

Lemma preserves_ret {X} R (x : X) :
  (forall w, R w w) -> preserves R (ret x).
Proof. intros Hrefl w. apply Hrefl. Qed.

Lemma preserves_gets {X} R (f : world -> X) :
  (forall w, R w w) -> preserves R (gets f).
Proof. intros Hrefl w. apply Hrefl. Qed.

Lemma preserves_lift {X} R (o : Outcome X) :
  (forall w, R w w) -> preserves R (lift o).
Proof. intros Hrefl w. apply Hrefl. Qed.

Lemma preserves_deref {X} R (store : world -> list X) r :
  (forall w, R w w) -> preserves R (deref store r).
Proof.
  intros Hrefl w. unfold deref. destruct (store w !! r); apply Hrefl.
Qed.

Lemma preserves_modify R (f : world -> world) :
  (forall w, R w (f w)) -> preserves R (modify f).
Proof. intros Hf w. apply Hf. Qed.

(** Solving [preserves R m] along the structure of [m]. *)
Ltac preserve_with HR extra :=
  repeat first
    [ assumption
    | extra
    | apply (stable_traceWrapping _ HR)
    | apply (stable_enter _ HR)
    | apply (stable_exit _ HR)
    | apply (stable_addSegment _ HR)
    | apply (stable_addCall _ HR)
    | apply preserves_ret; exact (stable_refl _ HR)
    | apply preserves_gets; exact (stable_refl _ HR)
    | apply preserves_deref; exact (stable_refl _ HR)
    | apply preserves_bind; [exact (stable_trans _ HR) | | intros ?]
    | match goal with
      | |- preserves _ (match ?x with Some _ => _ | None => _ end) =>
          destruct x
      end ].

Ltac preserve HR := preserve_with HR fail.

Lemma wrapExecution_stable {X} R type (f : Callable Agent Context Env X)
    this args :
  stable R -> preserves R (f this args) ->
  preserves R (wrapExecution type f this args).
Proof. intros HR Hf. unfold wrapExecution. preserve HR. Qed.

Lemma segmentProxy_stable R h :
  stable R ->
  preserves R (segmentProxy h) /\
  forall w0 (f : callable) w0',
    segmentProxy h w0 = (Return f, w0') ->
    forall this args,
      preserves R (fn_apply h this args) -> preserves R (f this args).
Proof.
  intros HR. split.
  - unfold segmentProxy. apply wrapExecution_stable; [exact HR|].
    preserve HR.
  - intros w0 f w0' Hp this args Hh.
    unfold segmentProxy in Hp. rewrite wrapExecution_run, ret_run in Hp.
    injection Hp as <- _.
    apply wrapExecution_stable; [exact HR|]. preserve HR.
Qed.

Lemma callbackProxy_stable R h :
  stable R ->
  preserves R (callbackProxy h) /\
  forall w0 (f : callable) w0',
    callbackProxy h w0 = (Return f, w0') ->
    forall this args,
      preserves R (fn_apply h this args) -> preserves R (f this args).
Proof.
  intros HR. split.
  - unfold callbackProxy. preserve HR.
  - intros w0 f w0' Hp this args Hh.
    unfold callbackProxy, bind at 1, gets in Hp.
    destruct (context_state (context (tracer w0))) as [st|].
    + rewrite wrapExecution_run in Hp. unfold bind in Hp.
      destruct (addCall _ _ _) as [[call|e] w1]; [|discriminate].
      rewrite ret_run in Hp. injection Hp as <- _.
      apply wrapExecution_stable; [exact HR|]. preserve HR.
    + rewrite ret_run in Hp. injection Hp as <- _. exact Hh.
Qed.

Lemma on_env_preserves {X} R (f : Env -> Outcome X * Env) :
  (forall (e : Env) w, R w (set_env e w)) -> preserves R (on_env f).
Proof.
  intros Henv w. unfold on_env. destruct (f (env w)) as [o e]. apply Henv.
Qed.

Lemma transactionProxy_stable R h :
  stable R ->
  (forall v, preserves R (addTransaction v)) ->
  (forall (e : Env) w, R w (set_env e w)) ->
  preserves R (transactionProxy h) /\
  forall w0 (f : callable) w0',
    transactionProxy h w0 = (Return f, w0') ->
    forall this args,
      preserves R (fn_apply h this args) -> preserves R (f this args).
Proof.
  intros HR Hadd Henv. split.
  - unfold transactionProxy. apply wrapExecution_stable; [exact HR|].
    preserve HR.
  - intros w0 f w0' Hp this args Hh.
    unfold transactionProxy in Hp. rewrite wrapExecution_run, ret_run in Hp.
    injection Hp as <- _.
    apply wrapExecution_stable; [exact HR|].
    preserve_with HR
      ltac:(first [apply Hadd | apply on_env_preserves; exact Henv]).
Qed.

Lemma stable_subsidiary R h : stable R -> subsidiary_preserves R h.
Proof.
  intros HR. destruct (segmentProxy_stable R h HR) as [Hs Hsf].
  destruct (callbackProxy_stable R h HR) as [Hc Hcf].
  split; [exact (stable_enter _ HR)|].
  split; [exact (stable_exit _ HR)|].
  split; [exact (stable_addSegment _ HR)|].
  split; [exact (stable_addCall _ HR)|].
  split; [exact (stable_traceWrapping _ HR)|].
  split; [exact Hs|]. split; [exact Hc|].
  intros w0 f w0' this args [Hp|Hp] Hh.
  - exact (Hsf w0 f w0' Hp this args Hh).
  - exact (Hcf w0 f w0' Hp this args Hh).
Qed.

Lemma stable_tracer R h :
  stable R ->
  (forall v, preserves R (addTransaction v)) ->
  (forall (e : Env) w, R w (set_env e w)) ->
  tracer_preserves R h.
Proof.
  intros HR Hadd Henv.
  destruct (transactionProxy_stable R h HR Hadd Henv) as [Ht Htf].
  split; [exact (stable_subsidiary R h HR)|].
  split; [exact Hadd|]. split; [exact Ht|].
  intros w0 f w0' this args Hp Hh. exact (Htf w0 f w0' Hp this args Hh).
Qed.

(** *** The logs *)

(** Taking the methods of the tracer apart, down to single updates of the
    world [f], where [leaf] has to show that [w] and [f w] are related. *)
Ltac preserve_updates Hrefl Htrans leaf :=
  unfold enter, exit, addSegment, addCall, addTransaction, traceCall,
    Call_format, traceCreation, traceWrapping, Transaction_addSegment,
    Segment_addCall, new_Segment, new_Transaction;
  repeat first
    [ apply preserves_ret; exact Hrefl
    | apply preserves_gets; exact Hrefl
    | apply preserves_lift; exact Hrefl
    | apply preserves_deref; exact Hrefl
    | apply preserves_modify; intros ?; leaf
    | apply preserves_bind; [exact Htrans | | intros ?] ].

Lemma logs_grow_refl w : logs_grow w w.
Proof. repeat split; reflexivity. Qed.

Lemma logs_grow_trans w1 w2 w3 :
  logs_grow w1 w2 -> logs_grow w2 w3 -> logs_grow w1 w3.
Proof.
  intros (A1 & B1 & C1 & D1) (A2 & B2 & C2 & D2).
  repeat split; etransitivity; eassumption.
Qed.

Ltac logs_grow_leaf :=
  unfold logs_grow; cbn;
  repeat split; first [reflexivity | apply prefix_app_r; reflexivity].

Lemma logs_grow_stable : stable (on_worlds logs_grow).
Proof.
  split;
    [ exact logs_grow_refl | exact logs_grow_trans | intros .. ];
    preserve_updates logs_grow_refl logs_grow_trans logs_grow_leaf.
Qed.

Lemma logs_grow_addTransaction v :
  preserves (on_worlds logs_grow) (addTransaction v).
Proof. preserve_updates logs_grow_refl logs_grow_trans logs_grow_leaf. Qed.

Lemma merged_snoc_trace x t c wr vb :
  merged t c wr vb -> merged (t ++ [x]) c wr (vb ++ [x]).
Proof.
  induction 1; cbn; try (constructor; assumption).
  repeat constructor.
Qed.

Lemma merged_snoc_creation x t c wr vb :
  merged t c wr vb -> merged t (c ++ [x]) wr (vb ++ [x]).
Proof.
  induction 1; cbn; try (constructor; assumption).
  repeat constructor.
Qed.

Lemma merged_snoc_wrapping x t c wr vb :
  merged t c wr vb -> merged t c (wr ++ [x]) (vb ++ [x]).
Proof.
  induction 1; cbn; try (constructor; assumption).
  repeat constructor.
Qed.

Lemma merged_length t c wr vb :
  merged t c wr vb -> length vb = length t + length c + length wr.
Proof. induction 1; cbn; lia. Qed.

Lemma keeps_refl (P : world -> Prop) w : keeps P w w.
Proof. intros H. exact H. Qed.

Lemma keeps_trans (P : world -> Prop) w1 w2 w3 :
  keeps P w1 w2 -> keeps P w2 w3 -> keeps P w1 w3.
Proof. unfold keeps. auto. Qed.

Ltac interleaved_leaf :=
  unfold keeps, interleaved; cbn; intros ?;
  first [ assumption
        | apply merged_snoc_trace; assumption
        | apply merged_snoc_creation; assumption
        | apply merged_snoc_wrapping; assumption ].

Lemma interleaved_stable : stable (on_worlds (keeps interleaved)).
Proof.
  split;
    [ exact (keeps_refl _) | exact (keeps_trans _) | intros .. ];
    preserve_updates (keeps_refl interleaved) (keeps_trans interleaved)
      interleaved_leaf.
Qed.

Lemma interleaved_addTransaction v :
  preserves (on_worlds (keeps interleaved)) (addTransaction v).
Proof.
  preserve_updates (keeps_refl interleaved) (keeps_trans interleaved)
    interleaved_leaf.
Qed.

(** *** The store *)

Ltac same_store_leaf := apply heap_extends_same_store; reflexivity.

Lemma heap_extends_stable : stable (on_worlds heap_extends).
Proof.
  split;
    [ exact heap_extends_refl | exact heap_extends_trans | intros .. ].
  - preserve_updates (@heap_extends_refl Agent Context Env)
      (@heap_extends_trans Agent Context Env) same_store_leaf.
  - preserve_updates (@heap_extends_refl Agent Context Env)
      (@heap_extends_trans Agent Context Env) same_store_leaf.
  - preserve_updates (@heap_extends_refl Agent Context Env)
      (@heap_extends_trans Agent Context Env) same_store_leaf.
  - unfold addSegment. apply preserves_bind.
    + exact heap_extends_trans.
    + preserve_updates (@heap_extends_refl Agent Context Env)
        (@heap_extends_trans Agent Context Env) same_store_leaf.
    + intros _ w. apply Transaction_addSegment_extends.
  - unfold addCall. apply preserves_bind.
    + exact heap_extends_trans.
    + preserve_updates (@heap_extends_refl Agent Context Env)
        (@heap_extends_trans Agent Context Env) same_store_leaf.
    + intros _ w. apply Segment_addCall_extends.
Qed.

Lemma Segment_construct_Return id r v s :
  Segment.construct id (Some r) v = Return s ->
  s = Segment.mk id r v 0 /\ id <> 0%Z /\ truthy v = true.
Proof.
  unfold Segment.construct. destruct (Z.eqb_spec id 0); [discriminate|].
  destruct (truthy v); [|discriminate]. intros [= <-]. auto.
Qed.

Lemma Transaction_construct_Return id v t :
  Transaction.construct id v = Return t ->
  t = Transaction.mk id v 0 /\ id <> 0%Z /\ truthy v = true.
Proof.
  unfold Transaction.construct. destruct (Z.eqb_spec id 0); [discriminate|].
  destruct (truthy v); [|discriminate]. intros [= <-]. auto.
Qed.

Lemma Call_construct_Return id r v c :
  Call.construct id (Some r) v = Return c ->
  c = Call.mk id r v /\ id <> 0%Z /\ truthy v = true.
Proof.
  unfold Call.construct. destruct (Z.eqb_spec id 0); [discriminate|].
  destruct (truthy v); [|discriminate]. intros [= <-]. auto.
Qed.

Lemma Segment_addCall_wf r v :
  preserves (on_worlds (keeps store_wf)) (Segment_addCall r v).
Proof.
  intros w Hwf. destruct (segments w !! r) as [s|] eqn:Hs.
  2:{ unfold Segment_addCall.
      rewrite (bind_Throw _ _ _ _ _ (deref_None segments _ _ Hs)).
      exact Hwf. }
  rewrite (Segment_addCall_run w r s v Hs). cbn [snd].
  destruct Hwf as (Hn & Ht & Htu & Hsw & Hsu).
  assert (Hback : forall r' s',
            <[r := Segment.set_numCalls (Segment.numCalls s + 1) s]>
              (segments w) !! r' = Some s' ->
            exists s0, segments w !! r' = Some s0 /\
              Segment.id s' = Segment.id s0 /\
              Segment.transaction s' = Segment.transaction s0 /\
              Segment.value s' = Segment.value s0 /\
              (Segment.numCalls s0 <= Segment.numCalls s')%Z).
  { intros r' s' Hl.
    apply list_lookup_insert_Some in Hl as [(Hr & Hx & _)|(_ & Hl)].
    - subst r' s'. exists s. cbn. repeat split; [exact Hs | lia].
    - exists s'. repeat split; [exact Hl | lia]. }
  unfold store_wf. cbn.
  split; [exact Hn|]. split; [exact Ht|]. split; [exact Htu|]. split.
  - intros r' s' Hl.
    destruct (Hback _ _ Hl) as (s0 & H0 & Hi & Htr & Hv & Hc).
    destruct (Hsw _ _ H0) as (t & Hlt & Hid & Hnc & Hval).
    exists t. rewrite Htr, Hi, Hv. repeat split; try assumption; lia.
  - intros r1 r2 s1 s2 H1 H2 Htr Hid.
    destruct (Hback _ _ H1) as (a & Ha & Hia & Hta & _).
    destruct (Hback _ _ H2) as (b & Hb & Hib & Htb & _).
    apply (Hsu r1 r2 a b Ha Hb); congruence.
Qed.

Lemma Transaction_addSegment_wf r v :
  preserves (on_worlds (keeps store_wf)) (Transaction_addSegment r v).
Proof.
  intros w Hwf. destruct (transactions w !! r) as [t|] eqn:Hr.
  2:{ unfold Transaction_addSegment.
      rewrite (bind_Throw _ _ _ _ _ (deref_None transactions _ _ Hr)).
      exact Hwf. }
  rewrite (Transaction_addSegment_run w r t v Hr).
  destruct Hwf as (Hn & Ht & Htu & Hsw & Hsu).
  set (m := Transaction.numSegments t).
  set (new := <[r := Transaction.set_numSegments (m + 1) t]> (transactions w)).
  assert (Hm : (0 <= m)%Z) by (destruct (Ht _ _ Hr) as (_ & Hm & _); exact Hm).
  assert (Hback : forall r' t',
            new !! r' = Some t' ->
            exists t0, transactions w !! r' = Some t0 /\
              Transaction.id t' = Transaction.id t0 /\
              Transaction.value t' = Transaction.value t0 /\
              (0 <= Transaction.numSegments t')%Z).
  { intros r' t' Hl.
    apply list_lookup_insert_Some in Hl as [(Hx & Hy & _)|(_ & Hl)].
    - subst r' t'. exists t. cbn. repeat split; [exact Hr | lia].
    - exists t'. destruct (Ht _ _ Hl) as (_ & H0 & _).
      repeat split; [exact Hl | exact H0]. }
  assert (Hforth : forall r' t0,
            transactions w !! r' = Some t0 ->
            exists t', new !! r' = Some t' /\
              (Transaction.numSegments t0 <= Transaction.numSegments t')%Z /\
              (r' = r -> t0 = t /\ Transaction.numSegments t' = (m + 1)%Z)).
  { intros r' t0 Hl. destruct (decide (r = r')) as [Heq|Hne].
    - subst r'. pose proof (eq_trans (eq_sym Hl) Hr) as [= ->].
      exists (Transaction.set_numSegments (m + 1) t). split.
      + apply list_lookup_insert_eq. now apply lookup_lt_Some with t.
      + cbn. fold m. split; [lia | auto].
    - exists t0. split.
      + subst new. rewrite list_lookup_insert_ne by exact Hne. exact Hl.
      + split; [lia | intros ->; contradiction]. }
  assert (Hw1 : store_wf
            (set_transactions new w) /\
          forall r' s', segments w !! r' = Some s' ->
            Segment.transaction s' = r -> (Segment.id s' <= m)%Z).
  { split.
    - unfold store_wf. cbn. split; [exact Hn|]. split; [|split; [|split]].
      + intros r' t' Hl. destruct (Hback _ _ Hl) as (t0 & H0 & Hi & Hv & Hc).
        destruct (Ht _ _ H0) as (Hid & _ & Hval).
        rewrite Hi, Hv. auto.
      + intros r1 r2 t1 t2 H1 H2 Hid.
        destruct (Hback _ _ H1) as (a & Ha & Hia & _).
        destruct (Hback _ _ H2) as (b & Hb & Hib & _).
        apply (Htu r1 r2 a b Ha Hb). congruence.
      + intros r' s' Hl.
        destruct (Hsw _ _ Hl) as (t0 & H0 & Hid & Hnc & Hval).
        destruct (Hforth _ _ H0) as (t' & H' & Hle & _).
        exists t'. repeat split; try assumption; lia.
      + exact Hsu.
    - intros r' s' Hl Htr.
      destruct (Hsw _ _ Hl) as (t0 & H0 & Hid & _).
      rewrite Htr in H0. pose proof (eq_trans (eq_sym H0) Hr) as [= ->].
      fold m in Hid. lia. }
  destruct Hw1 as [Hw1 Hold].
  destruct (Segment.construct (m + 1) (Some r) v) as [s|e] eqn:Hc;
    cbn [snd]; [|exact Hw1].
  apply Segment_construct_Return in Hc as (-> & _ & Hv).
  destruct Hw1 as (_ & Ht1 & Htu1 & Hsw1 & Hsu1).
  unfold store_wf. cbn. split; [exact Hn|]. split; [exact Ht1|].
  split; [exact Htu1|]. split.
  - intros r' s' Hl. apply lookup_snoc_Some in Hl as [(_ & Hl)|(_ & <-)].
    + exact (Hsw1 _ _ Hl).
    + destruct (Hforth _ _ Hr) as (t' & H' & _ & Hnum).
      destruct (Hnum eq_refl) as (_ & Hnum').
      exists t'. cbn. repeat split; try assumption; lia.
  - intros r1 r2 s1 s2 H1 H2 Htr Hid.
    apply lookup_snoc_Some in H1 as [(_ & H1)|(-> & <-)];
      apply lookup_snoc_Some in H2 as [(_ & H2)|(-> & <-)].
    + exact (Hsu _ _ _ _ H1 H2 Htr Hid).
    + cbn in Htr, Hid. pose proof (Hold _ _ H1 Htr). lia.
    + cbn in Htr, Hid. pose proof (Hold _ _ H2 (eq_sym Htr)). lia.
    + reflexivity.
Qed.

Lemma addTransaction_wf v :
  preserves (on_worlds (keeps store_wf)) (addTransaction v).
Proof.
  intros w Hwf. rewrite addTransaction_run.
  destruct Hwf as (Hn & Ht & Htu & Hsw & Hsu).
  set (n := numTransactions (tracer w)) in *.
  assert (Hw1 : store_wf
            (with_numTransactions (n + 1) (logged [] ["+T"] [] ["+T"] w))).
  { unfold store_wf. cbn. split; [lia|]. split; [|auto].
    intros r t Hl. destruct (Ht _ _ Hl) as (Hid & Hm & Hval).
    repeat split; try assumption; lia. }
  destruct (Transaction.construct (n + 1) v) as [t|e] eqn:Hc;
    cbn [snd]; [|exact Hw1].
  apply Transaction_construct_Return in Hc as (-> & _ & Hv).
  unfold store_wf. cbn. split; [lia|]. split; [|split; [|split]].
  - intros r t Hl. apply lookup_snoc_Some in Hl as [(_ & Hl)|(_ & <-)].
    + destruct (Ht _ _ Hl) as (Hid & Hm & Hval).
      repeat split; try assumption; lia.
    + cbn. repeat split; try assumption; lia.
  - intros r1 r2 t1 t2 H1 H2 Hid.
    apply lookup_snoc_Some in H1 as [(_ & H1)|(-> & <-)];
      apply lookup_snoc_Some in H2 as [(_ & H2)|(-> & <-)].
    + exact (Htu _ _ _ _ H1 H2 Hid).
    + cbn in Hid. destruct (Ht _ _ H1) as (Hr1 & _). fold n in Hr1. lia.
    + cbn in Hid. destruct (Ht _ _ H2) as (Hr2 & _). fold n in Hr2. lia.
    + reflexivity.
  - intros r s Hl. destruct (Hsw _ _ Hl) as (t & H0 & Hrest).
    exists t. split; [|exact Hrest]. now apply lookup_app_l_Some.
  - exact Hsu.
Qed.

Ltac wf_leaf := unfold keeps, store_wf; cbn; intros H; exact H.

Lemma store_wf_stable : stable (on_worlds (keeps store_wf)).
Proof.
  split; [ exact (keeps_refl _) | exact (keeps_trans _) | intros .. ].
  - preserve_updates (keeps_refl store_wf) (keeps_trans store_wf) wf_leaf.
  - preserve_updates (keeps_refl store_wf) (keeps_trans store_wf) wf_leaf.
  - preserve_updates (keeps_refl store_wf) (keeps_trans store_wf) wf_leaf.
  - unfold addSegment. apply preserves_bind.
    + exact (keeps_trans _).
    + preserve_updates (keeps_refl store_wf) (keeps_trans store_wf) wf_leaf.
    + intros _. apply Transaction_addSegment_wf.
  - unfold addCall. apply preserves_bind.
    + exact (keeps_trans _).
    + preserve_updates (keeps_refl store_wf) (keeps_trans store_wf) wf_leaf.
    + intros _. apply Segment_addCall_wf.
Qed.

(** *** The transactions *)

Lemma same_transactions_refl w : same_transactions w w.
Proof. repeat split. Qed.

Lemma same_transactions_trans w1 w2 w3 :
  same_transactions w1 w2 -> same_transactions w2 w3 ->
  same_transactions w1 w3.
Proof.
  intros (A1 & B1 & C1) (A2 & B2 & C2). repeat split; congruence.
Qed.

Ltac same_transactions_leaf :=
  unfold same_transactions; cbn; cbv [String.append];
  rewrite ?length_insert, ?filter_app, ?length_app; cbn;
  repeat case_decide; try discriminate; cbn;
  repeat split; lia.

Lemma same_transactions_stable : stable (on_worlds same_transactions).
Proof.
  split;
    [ exact same_transactions_refl | exact same_transactions_trans
    | intros .. ];
    preserve_updates (@same_transactions_refl) (@same_transactions_trans)
      same_transactions_leaf.
Qed.

Ltac counted_leaf :=
  unfold keeps, transactions_counted; cbn; cbv [String.append];
  rewrite ?filter_app, ?length_app; cbn;
  repeat case_decide; try discriminate; cbn;
  intros ?; first [assumption | lia].

Lemma transactions_counted_stable :
  stable (on_worlds (keeps transactions_counted)).
Proof.
  split; [ exact (keeps_refl _) | exact (keeps_trans _) | intros .. ];
    preserve_updates (keeps_refl transactions_counted)
      (keeps_trans transactions_counted) counted_leaf.
Qed.

Lemma transactions_counted_addTransaction v :
  preserves (on_worlds (keeps transactions_counted)) (addTransaction v).
Proof.
  intros w Hc. rewrite addTransaction_run.
  assert (H1 : transactions_counted
                 (with_numTransactions (numTransactions (tracer w) + 1)
                    (logged [] ["+T"] [] ["+T"] w))).
  { unfold transactions_counted in *. cbn.
    rewrite filter_app, length_app. cbn.
    case_decide; [cbn; lia | contradiction]. }
  destruct (Transaction.construct _ v); exact H1.
Qed.

(** *** The identity of a call *)

Lemma numeral_uint d : numeral (NilEmpty.string_of_uint d) = true.
Proof. induction d; cbn; auto. Qed.

Lemma numeral_format_d n : numeral (format_d n) = true.
Proof.
  unfold format_d. destruct (Z.to_int n) as [d|d]; cbn.
  - destruct d; try reflexivity; cbn; apply numeral_uint.
  - destruct d; try reflexivity; cbn; apply numeral_uint.
Qed.

Lemma format_d_inj x y : format_d x = format_d y -> x = y.
Proof.
  unfold format_d. intros H. apply DecimalZ.to_int_inj.
  assert (Hnn : forall z, Z.to_int z <> Decimal.Pos Decimal.Nil /\
                          Z.to_int z <> Decimal.Neg Decimal.Nil).
  { intros [|p|p]; cbn; split; try discriminate;
      intros [= Hp]; exact (DecimalPos.Unsigned.to_uint_nonnil p Hp). }
  apply (f_equal NilZero.int_of_string) in H.
  rewrite !NilZero.isi in H by apply Hnn.
  now injection H.
Qed.

(** Two strings of numeral characters that are followed by the same other
    character are the same, and so is what follows. *)
Lemma numeral_split (c : Ascii.ascii) a a' b b' :
  numeral_char c = false -> numeral a = true -> numeral a' = true ->
  a +:+ String c b = a' +:+ String c b' -> a = a' /\ b = b'.
Proof.
  intros Hc. revert a'.
  induction a as [|x a IH]; intros [|x' a'] Ha Ha' H; cbn in *.
  - now injection H.
  - injection H as <- _. apply andb_prop in Ha' as [Hx _]. congruence.
  - injection H as -> _. apply andb_prop in Ha as [Hx _]. congruence.
  - injection H as <- H. apply andb_prop in Ha as [_ Ha].
    apply andb_prop in Ha' as [_ Ha'].
    destruct (IH a' Ha Ha' H) as [-> ->]. auto.
Qed.

Lemma append_String a s x : String a s +:+ x = String a (s +:+ x).
Proof. reflexivity. Qed.

Lemma append_empty x : "" +:+ x = x.
Proof. reflexivity. Qed.

Lemma identity_inj t s c t' s' c' :
  identity t s c = identity t' s' c' -> t = t' /\ s = s' /\ c = c'.
Proof.
  unfold identity. rewrite !append_String, !append_empty. intros [= H].
  apply numeral_split in H as [Ht H];
    [| reflexivity | apply numeral_format_d | apply numeral_format_d].
  apply numeral_split in H as [Hs Hc];
    [| reflexivity | apply numeral_format_d | apply numeral_format_d].
  repeat split; now apply format_d_inj.
Qed.

(** *** The counters *)

Lemma counters_grow_refl w : counters_grow w w.
Proof.
  split; [lia|]. split; intros r x Hx; exists x; split; auto; lia.
Qed.

Lemma counters_grow_trans w1 w2 w3 :
  counters_grow w1 w2 -> counters_grow w2 w3 -> counters_grow w1 w3.
Proof.
  intros (N12 & T12 & S12) (N23 & T23 & S23). split; [lia|]. split.
  - intros r t E. destruct (T12 r t E) as (t2 & E2 & L2).
    destruct (T23 r t2 E2) as (t3 & E3 & L3). exists t3. split; [auto|lia].
  - intros r s E. destruct (S12 r s E) as (s2 & E2 & L2).
    destruct (S23 r s2 E2) as (s3 & E3 & L3). exists s3. split; [auto|lia].
Qed.

Lemma counters_grow_same w w' :
  numTransactions (tracer w') = numTransactions (tracer w) ->
  transactions w' = transactions w -> segments w' = segments w ->
  counters_grow w w'.
Proof.
  intros En Et Es. split; [lia|].
  split; intros r x Hx; exists x; split; try lia.
  - now rewrite Et.
  - now rewrite Es.
Qed.

Ltac counters_leaf := apply counters_grow_same; reflexivity.

Lemma Segment_addCall_counters r v :
  preserves (on_worlds counters_grow) (Segment_addCall r v).
Proof.
  intros w. destruct (segments w !! r) as [s|] eqn:Hs.
  2:{ unfold Segment_addCall.
      rewrite (bind_Throw _ _ _ _ _ (deref_None segments _ _ Hs)).
      apply counters_grow_refl. }
  rewrite (Segment_addCall_run w r s v Hs). cbn [snd].
  split; [cbn; lia|]. split; [intros r' t Ht; exists t; split; auto; lia|].
  intros r' s' Hs'. cbn. destruct (decide (r = r')) as [Heq|Hne].
  - subst r'. pose proof (eq_trans (eq_sym Hs') Hs) as [= ->].
    eexists. split.
    + apply list_lookup_insert_eq. now apply lookup_lt_Some with s.
    + cbn. lia.
  - exists s'. split; [|lia]. now rewrite list_lookup_insert_ne.
Qed.

Lemma Transaction_addSegment_counters r v :
  preserves (on_worlds counters_grow) (Transaction_addSegment r v).
Proof.
  intros w. destruct (transactions w !! r) as [t|] eqn:Ht.
  2:{ unfold Transaction_addSegment.
      rewrite (bind_Throw _ _ _ _ _ (deref_None transactions _ _ Ht)).
      apply counters_grow_refl. }
  rewrite (Transaction_addSegment_run w r t v Ht).
  assert (Hins : forall l : list Segment.t,
            (forall r' s', segments w !! r' = Some s' -> l !! r' = Some s') ->
            counters_grow w
              (set_segments l
                 (set_transactions
                    (<[r := Transaction.set_numSegments
                              (Transaction.numSegments t + 1) t]>
                       (transactions w)) w))).
  { intros l Hl. split; [cbn; lia|]. split.
    - intros r' t' Ht'. cbn. destruct (decide (r = r')) as [Heq|Hne].
      + subst r'. pose proof (eq_trans (eq_sym Ht') Ht) as [= ->].
        eexists. split.
        * apply list_lookup_insert_eq. now apply lookup_lt_Some with t.
        * cbn. lia.
      + exists t'. split; [|lia]. now rewrite list_lookup_insert_ne.
    - intros r' s' Hs'. exists s'. split; [|lia]. cbn. now apply Hl. }
  destruct (Segment.construct _ _ _) as [s|e]; cbn [snd].
  - apply Hins. intros r' s' Hs'. now apply lookup_app_l_Some.
  - apply (Hins (segments w)). auto.
Qed.

Lemma addTransaction_counters v :
  preserves (on_worlds counters_grow) (addTransaction v).
Proof.
  intros w. rewrite addTransaction_run.
  destruct (Transaction.construct _ _) as [t|e]; cbn [snd].
  - split; [cbn; lia|]. split.
    + intros r t' Ht'. exists t'. split; [|lia]. cbn.
      now apply lookup_app_l_Some.
    + intros r s Hs. exists s. split; [exact Hs|lia].
  - split; [cbn; lia|].
    split; intros r x Hx; exists x; split; auto; lia.
Qed.

Lemma counters_grow_stable : stable (on_worlds counters_grow).
Proof.
  split;
    [ exact counters_grow_refl | exact counters_grow_trans | intros .. ].
  - preserve_updates (@counters_grow_refl) (@counters_grow_trans)
      counters_leaf.
  - preserve_updates (@counters_grow_refl) (@counters_grow_trans)
      counters_leaf.
  - preserve_updates (@counters_grow_refl) (@counters_grow_trans)
      counters_leaf.
  - unfold addSegment. apply preserves_bind.
    + exact counters_grow_trans.
    + preserve_updates (@counters_grow_refl) (@counters_grow_trans)
        counters_leaf.
    + intros _. apply Transaction_addSegment_counters.
  - unfold addCall. apply preserves_bind.
    + exact counters_grow_trans.
    + preserve_updates (@counters_grow_refl) (@counters_grow_trans)
        counters_leaf.
    + intros _. apply Segment_addCall_counters.
Qed.

(** ** Invariants of the tracer *)

(** X1.  The four logs of the describer are append-only: whatever a method
    of the tracer, the construction of a proxy, or an invocation of a
    proxied handler that itself only appends returns or throws, every log
    of the world before is a prefix of the same log afterwards. *)
Theorem logs_are_append_only h : tracer_preserves logs_grow h.
Proof.
  apply stable_tracer.
  - exact logs_grow_stable.
  - exact logs_grow_addTransaction.
  - intros e w. repeat split; reflexivity.
Qed.

(** X2.  The verbose log is an interleaving of the trace, the creations
    and the wrappings that keeps the order of each: this holds for a
    tracer that has just been constructed, it is kept by every method of
    the tracer and by the proxies around handlers that keep it, and the
    verbose log is then as long as the three other logs together. *)
Theorem verbose_interleaves_the_logs h :
  (forall (a : Agent) (c : Context) tr txns sgs (e : Env),
     Tracer_construct (Some a) (Some c) = Return tr ->
     interleaved (mkWorld tr txns sgs e)) /\
  tracer_preserves (keeps interleaved) h /\
  (forall w,
     interleaved w ->
     length (verbose (describer (tracer w))) =
       length (trace (describer (tracer w))) +
       length (creations (describer (tracer w))) +
       length (wrappings (describer (tracer w)))).
Proof.
  split; [|split].
  - intros a c tr txns sgs e [= <-]. constructor.
  - apply stable_tracer.
    + exact interleaved_stable.
    + exact interleaved_addTransaction.
    + intros e w Hw. exact Hw.
  - intros w Hw. exact (merged_length _ _ _ _ Hw).
Qed.

(** X3.  No method of the tracer and no proxy removes an object from the
    store or changes the id, the parent or the value it was constructed
    with: the store after extends the store before, whenever the proxied
    handler does the same. *)
Theorem store_only_extends h : tracer_preserves heap_extends h.
Proof.
  apply stable_tracer.
  - exact heap_extends_stable.
  - intros v w. apply addTransaction_extends.
  - intros e w. apply heap_extends_same_store; reflexivity.
Qed.

(** X4.  The store invariant.  It holds for the empty store of a tracer
    that has just been constructed, and every method of the tracer and
    every proxy keeps it, whether it returns or throws, around handlers
    that keep it: transaction ids are distinct and at most the counter of
    the tracer, every segment belongs to a transaction of the store, the
    ids of the segments of one transaction are distinct and at most the
    counter of that transaction, and no value is falsy. *)
Theorem store_invariant h :
  (forall (a : Agent) (c : Context) tr (e : Env),
     Tracer_construct (Some a) (Some c) = Return tr ->
     store_wf (mkWorld tr [] [] e)) /\
  tracer_preserves (keeps store_wf) h.
Proof.
  split.
  - intros a c tr e [= <-]. unfold store_wf. cbn.
    split; [lia|]. repeat split; intros; discriminate.
  - apply stable_tracer.
    + exact store_wf_stable.
    + exact addTransaction_wf.
    + intros e w Hw. exact Hw.
Qed.

(** X5.  The counter of the tracer is the number of [+T] entries in the
    creation log: both start at 0, [addTransaction] advances both before
    it constructs, also when the construction fails, and nothing else
    touches either of them. *)
Theorem transactions_are_counted h :
  (forall (a : Agent) (c : Context) tr txns sgs (e : Env),
     Tracer_construct (Some a) (Some c) = Return tr ->
     transactions_counted (mkWorld tr txns sgs e)) /\
  tracer_preserves (keeps transactions_counted) h.
Proof.
  split.
  - intros a c tr txns sgs e [= <-]. reflexivity.
  - apply stable_tracer.
    + exact transactions_counted_stable.
    + exact transactions_counted_addTransaction.
    + intros e w Hw. exact Hw.
Qed.

(** X6.  A segment proxy and a callback proxy never create a transaction,
    with or without an active State: around a handler that creates none,
    the counter of the tracer, the number of transactions in the store and
    the number of [+T] entries are what they were. *)
Theorem subsidiaries_create_no_transaction h :
  subsidiary_preserves same_transactions h.
Proof. apply stable_subsidiary. exact same_transactions_stable. Qed.

(** X7.  Counters never go back: the counter of the tracer, the segment
    counter of every transaction and the call counter of every segment are
    at least what they were after any method of the tracer and any proxy,
    around handlers of which the same is true. *)
Theorem counters_never_decrease h : tracer_preserves counters_grow h.
Proof.
  apply stable_tracer.
  - exact counters_grow_stable.
  - exact addTransaction_counters.
  - intros e w. apply counters_grow_same; reflexivity.
Qed.

(** X8.  Every call belongs to a segment.  In a store that satisfies the
    invariant, the call that [addCall] returns names the segment it was
    asked for, which is in the store; its id lies between 1 and the call
    counter of that segment and its value is truthy; and this stays true
    in every later world in which the objects of the store are kept and
    the counters have not gone back. *)
Theorem calls_belong_to_segments w r v (c : Call.t) w' :
  store_wf w ->
  addCall r v w = (Return c, w') ->
  Call.segment c = r /\ Call.value c = v /\
  call_wf w' c /\
  forall w'', counters_grow w' w'' -> call_wf w'' c.
Proof.
  intros (_ & _ & _ & Hsw & _) Hadd.
  destruct (segments w !! r) as [s|] eqn:Hs.
  2:{ unfold addCall in Hadd.
      rewrite (bind_Return _ _ _ _ _ (traceCreation_run _ _ _)) in Hadd.
      unfold Segment_addCall in Hadd.
      erewrite bind_Throw in Hadd;
        [discriminate | apply deref_None; exact Hs]. }
  rewrite (addCall_run w r s v Hs) in Hadd.
  injection Hadd as Hc <-.
  apply Call_construct_Return in Hc as (-> & Hid & Hv).
  destruct (Hsw _ _ Hs) as (_ & _ & _ & Hnc & _).
  assert (Hwf : call_wf
            (set_segments
               (<[r := Segment.set_numCalls (Segment.numCalls s + 1) s]>
                  (segments w))
               (logged [] ["+C"] [] ["+C"] w))
            (Call.mk (Segment.numCalls s + 1) r v)).
  { eexists. split.
    - cbn. apply list_lookup_insert_eq. now apply lookup_lt_Some with s.
    - cbn. split; [lia | exact Hv]. }
  split; [reflexivity|]. split; [reflexivity|]. split; [exact Hwf|].
  intros w'' (_ & _ & Hseg).
  destruct Hwf as (s1 & Hs1 & Hrange & Hval).
  destruct (Hseg _ _ Hs1) as (s2 & Hs2 & Hle).
  exists s2. split; [exact Hs2|]. split; [lia | exact Hval].
Qed.

(** ** The identity of a call *)

(** X9.  [format] is faithful: for calls whose segment and transaction are
    in the store it returns [T<t>S<s>C<c>] and leaves the world alone, and
    two calls with the same identity have the same transaction id, the
    same segment id and the same call id. *)
Theorem call_identity_is_faithful w w' (c c' : Call.t) t s t' s' :
  resolves w c t s ->
  resolves w' c' t' s' ->
  Call_format c w =
    (Return (identity (Transaction.id t) (Segment.id s) (Call.id c)), w) /\
  (fst (Call_format c w) = fst (Call_format c' w') ->
   Transaction.id t = Transaction.id t' /\
   Segment.id s = Segment.id s' /\
   Call.id c = Call.id c').
Proof.
  intros R R'. split; [exact (Call_format_run w c t s R)|].
  rewrite (Call_format_run w c t s R), (Call_format_run w' c' t' s' R').
  cbn [fst]. intros [= H]. apply identity_inj. unfold identity.
  rewrite !append_String. f_equal. exact H.
Qed.

(** ** Edges of the proxies *)

(** X10.  With no State in the context, [callbackProxy] returns the handler
    itself and does nothing else: the world is the same, without even a
    wrapping entry, and what is returned behaves as the handler does on
    every receiver, arguments and world. *)
Theorem callbackProxy_without_state h w0 :
  context_state (context (tracer w0)) = None ->
  exists f : callable,
    callbackProxy h w0 = (Return f, w0) /\
    forall this args w, f this args w = fn_apply h this args w.
Proof.
  intros Hst. exists (fn_apply h). split; [|reflexivity].
  exact (callbackProxy_run_none h w0 Hst).
Qed.

(** X11.  What the callable of [transactionProxy] leaves behind when it
    cannot build its State.  The handler is never applied and the context
    is never entered; what the agent threw, or the error of the
    constructor, is thrown; and the steps before the failure stay done:
    - the agent throws: only the wrapping entry was logged;
    - the agent returns a falsy value: the counter of the tracer has
      advanced and [+T] is logged, without a transaction;
    - no root can be read: the transaction is in the store, without
      segment;
    - the root is falsy: the transaction is in the store and has counted
      one segment, [+T] and [+S] are logged, and there is no segment. *)
Theorem transactionProxy_failures h w0 (f : callable) w0' this args w :
  transactionProxy h w0 = (Return f, w0') ->
  (numTransactions (tracer w) + 1)%Z <> 0%Z ->
  let n := (numTransactions (tracer w) + 1)%Z in
  (forall x (e1 : Env),
     createTransaction (agent (tracer w)) (env w) = (Throw x, e1) ->
     f this args w =
       (Throw x, set_env e1 (logged [] [] ["->T inner"] ["->T inner"] w))) /\
  (forall v (e1 : Env),
     createTransaction (agent (tracer w)) (env w) = (Return v, e1) ->
     truthy v = false ->
     f this args w =
       (Throw (JError "Transactions must be associated with a value."),
        with_numTransactions n
          (set_env e1
             (logged [] ["+T"] ["->T inner"] ["->T inner"; "+T"] w)))) /\
  (forall v x (e1 e2 : Env),
     createTransaction (agent (tracer w)) (env w) = (Return v, e1) ->
     truthy v = true ->
     getTraceRoot v e1 = (Throw x, e2) ->
     f this args w =
       (Throw x,
        set_transactions (transactions w ++ [Transaction.mk n v 0])
          (with_numTransactions n
             (set_env e2
                (logged [] ["+T"] ["->T inner"] ["->T inner"; "+T"] w))))) /\
  (forall v root (e1 e2 : Env),
     createTransaction (agent (tracer w)) (env w) = (Return v, e1) ->
     truthy v = true ->
     getTraceRoot v e1 = (Return root, e2) ->
     truthy root = false ->
     f this args w =
       (Throw (JError "Segments must be associated with a value."),
        set_transactions (transactions w ++ [Transaction.mk n v 1])
          (with_numTransactions n
             (set_env e2
                (logged [] ["+T"; "+S"] ["->T inner"]
                   ["->T inner"; "+T"; "+S"] w))))).
Proof.
  intros Hp Hn n.
  unfold transactionProxy in Hp. rewrite wrapExecution_run, ret_run in Hp.
  injection Hp as <- _.
  set (wA := logged [] [] ["->" +:+ "T inner"] ["->" +:+ "T inner"] w).
  split; [|split; [|split]].
  - intros x e1 Hc. rewrite wrapExecution_run. fold wA.
    erewrite bind_Return; [| apply gets_run; reflexivity].
    erewrite bind_Throw; [| apply on_env_run; exact Hc].
    reflexivity.
  - intros v e1 Hc Hv. rewrite wrapExecution_run. fold wA.
    erewrite bind_Return; [| apply gets_run; reflexivity].
    erewrite bind_Return; [| apply on_env_run; exact Hc].
    pose proof (addTransaction_run (set_env e1 wA) v) as E. cbv zeta in E.
    rewrite Transaction_construct_falsy in E by assumption.
    erewrite bind_Throw; [| exact E].
    f_equal. subst wA n. normalize_world.
    rewrite ?insert_snoc, <- ?app_assoc, ?app_nil_r. reflexivity.
  - intros v x e1 e2 Hc Hv Hr. rewrite wrapExecution_run. fold wA.
    erewrite bind_Return; [| apply gets_run; reflexivity].
    erewrite bind_Return; [| apply on_env_run; exact Hc].
    pose proof (addTransaction_run (set_env e1 wA) v) as E. cbv zeta in E.
    rewrite Transaction_construct_ok in E by assumption.
    erewrite bind_Return; [| exact E].
    erewrite bind_Throw; [| apply on_env_run; exact Hr].
    f_equal. subst wA n. normalize_world.
    rewrite ?insert_snoc, <- ?app_assoc, ?app_nil_r. reflexivity.
  - intros v root e1 e2 Hc Hv Hr Hroot. rewrite wrapExecution_run. fold wA.
    erewrite bind_Return; [| apply gets_run; reflexivity].
    erewrite bind_Return; [| apply on_env_run; exact Hc].
    pose proof (addTransaction_run (set_env e1 wA) v) as E. cbv zeta in E.
    rewrite Transaction_construct_ok in E by assumption.
    erewrite bind_Return; [| exact E]. clear E.
    match goal with |- context [bind _ _ ?w0] => set (wB := w0) end.
    erewrite bind_Return; [| apply on_env_run; exact Hr].
    assert (HtB : transactions (set_env e2 wB) !! length (transactions w) =
                  Some (Transaction.mk n v 0)).
    { subst wB. cbn. apply lookup_snoc. }
    pose proof (addSegment_run (set_env e2 wB) _ _ root HtB) as E.
    cbv zeta in E.
    rewrite Segment_construct_falsy in E by (first [assumption | cbn; lia]).
    erewrite bind_Throw; [| exact E].
    f_equal. subst wB wA n. normalize_world.
    rewrite ?insert_snoc, <- ?app_assoc, ?app_nil_r. reflexivity.
Qed.

(** X12.  [addSegment] and [addCall] of the tracer are not atomic either:
    given a falsy value on a parent of the store they throw the error
    of the constructor, after the creation was logged and the counter of
    the parent has advanced, and no object has joined the store. *)
Theorem addSegment_addCall_not_atomic w v :
  truthy v = false ->
  (forall r t,
     transactions w !! r = Some t ->
     (Transaction.numSegments t + 1)%Z <> 0%Z ->
     addSegment r v w =
       (Throw (JError "Segments must be associated with a value."),
        set_transactions
          (<[r := Transaction.set_numSegments
                    (Transaction.numSegments t + 1) t]> (transactions w))
          (logged [] ["+S"] [] ["+S"] w))) /\
  (forall r s,
     segments w !! r = Some s ->
     (Segment.numCalls s + 1)%Z <> 0%Z ->
     addCall r v w =
       (Throw (JError "Calls must be associated with a segment value."),
        set_segments
          (<[r := Segment.set_numCalls (Segment.numCalls s + 1) s]>
             (segments w))
          (logged [] ["+C"] [] ["+C"] w))).
Proof.
  intros Hv. split.
  - intros r t Ht Hn. rewrite (addSegment_run w r t v Ht).
    now rewrite Segment_construct_falsy.
  - intros r s Hs Hn. rewrite (addCall_run w r s v Hs).
    rewrite Call_construct_cases by exact Hn. now rewrite Hv.
Qed.

(** ** Entering and exiting in pairs *)

Lemma segment_entry_extends h st t s w :
  transactions w !! State.transaction st = Some t ->
  heap_extends w (segment_entry h st t s w).
Proof.
  intros Ht. split.
  - intros r t' Ht'. cbn.
    destruct (decide (State.transaction st = r)) as [Heq|Hne].
    + subst r. pose proof (eq_trans (eq_sym Ht') Ht) as [= ->].
      eexists. split.
      * apply list_lookup_insert_eq. now apply lookup_lt_Some with t.
      * auto.
    + exists t'. split; [|auto]. now rewrite list_lookup_insert_ne.
  - intros r s' Hs'. exists s'. split; [|auto]. cbn.
    now apply lookup_app_l_Some.
Qed.

(** X13.  Entries and exits pair up.  When [exit] undoes [enter] in the
    context, and the handler returns with the context as it found it, then
    the callable of each proxy returns the handler's result with the
    context as the callable found it. *)
Theorem proxies_restore_context h this args w :
  (forall st (c : Context), context_exit st (context_enter st c) = c) ->
  (forall (f : callable) w0 w0' v root (e1 e2 : Env) r w2,
     transactionProxy h w0 = (Return f, w0') ->
     createTransaction (agent (tracer w)) (env w) = (Return v, e1) ->
     truthy v = true ->
     (numTransactions (tracer w) + 1)%Z <> 0%Z ->
     getTraceRoot v e1 = (Return root, e2) ->
     truthy root = true ->
     let w1 := transaction_entry h v root e2 w in
     fn_apply h this args w1 = (Return r, w2) ->
     heap_extends w1 w2 ->
     context (tracer w2) = context (tracer w1) ->
     fst (f this args w) = Return r /\
     context (tracer (snd (f this args w))) = context (tracer w)) /\
  (forall (f : callable) w0 w0' st t s r w2,
     segmentProxy h w0 = (Return f, w0') ->
     context_state (context (tracer w)) = Some st ->
     transactions w !! State.transaction st = Some t ->
     segments w !! State.segment st = Some s ->
     truthy (Segment.value s) = true ->
     (Transaction.numSegments t + 1)%Z <> 0%Z ->
     let w1 := segment_entry h st t s w in
     fn_apply h this args w1 = (Return r, w2) ->
     heap_extends w1 w2 ->
     context (tracer w2) = context (tracer w1) ->
     fst (f this args w) = Return r /\
     context (tracer (snd (f this args w))) = context (tracer w)) /\
  (forall (f : callable) w0 w0' st s t1 s1 r w2,
     callbackProxy h w0 = (Return f, w0') ->
     context_state (context (tracer w0)) = Some st ->
     segments w0 !! Call.segment (State.call st) = Some s ->
     (Segment.numCalls s + 1)%Z <> 0%Z ->
     resolves w (callback_call h st s) t1 s1 ->
     let w1 := callback_entry (callback_state h st s) t1 s1 w in
     fn_apply h this args w1 = (Return r, w2) ->
     heap_extends w1 w2 ->
     context (tracer w2) = context (tracer w1) ->
     fst (f this args w) = Return r /\
     context (tracer (snd (f this args w))) = context (tracer w)).
Proof.
  intros Hlaw. split; [|split].
  - intros f w0 w0' v root e1 e2 r w2 Hp Hc Hv Hn Hr Hroot w1 Hh Hext Hctx.
    destruct (transactionProxy_run h) as (f0 & Hf & Hrun).
    rewrite Hf in Hp. injection Hp as <- _.
    rewrite (Hrun _ _ _ _ _ _ _ Hc Hv Hn Hr Hroot). fold w1. rewrite Hh.
    rewrite (around_returns (transaction_state h w) "T inner" w1 r w2 _ _
               (transaction_entry_resolves h v root e2 w) Hext).
    split; [reflexivity|]. cbn [snd]. cbn. rewrite Hctx. apply Hlaw.
  - intros f w0 w0' st t s r w2 Hp Hst Ht Hs Hv Hn w1 Hh Hext Hctx.
    destruct (segmentProxy_run h) as (f0 & Hf & _ & Hrun).
    rewrite Hf in Hp. injection Hp as <- _.
    rewrite (Hrun _ _ _ _ _ _ Hst Ht Hs Hv Hn). fold w1. rewrite Hh.
    rewrite (around_returns (segment_state h st w) "S inner" w1 r w2 _ _
               (segment_entry_resolves h st t s w Ht) Hext).
    split; [reflexivity|]. cbn [snd]. cbn. rewrite Hctx. apply Hlaw.
  - intros f w0 w0' st s t1 s1 r w2 Hp Hst Hs Hn R w1 Hh Hext Hctx.
    destruct (callbackProxy_run h st s Hn) as (f0 & Hf & Hrun).
    rewrite (Hf _ Hst Hs) in Hp. injection Hp as <- _.
    rewrite (Hrun _ _ _ _ _ R). fold w1. rewrite Hh.
    assert (R1 : resolves w1 (State.call (callback_state h st s)) t1 s1)
      by exact R.
    rewrite (around_returns (callback_state h st s) "C inner" w1 r w2 _ _
               R1 Hext).
    split; [reflexivity|]. cbn [snd]. cbn. rewrite Hctx. apply Hlaw.
Qed.

(** ** A subsidiary inside a transaction *)

(** X14.  Direct execution of an instrumented subsidiary inside a
    transaction.  When the context hands back the State it was entered
    with, and [g] returns [r] and touches nothing, then the callable of
    [transactionProxy] around a handler that runs [segmentProxy g] returns
    [r]; the store has gained one transaction with two segments, numbered
    1 and 2 and both holding the root of the trace, and the trace shows the
    call of the subsidiary nested in the call of the transaction. *)
Theorem subsidiary_joins_the_transaction g id w0 (f : callable) w0'
    this args w v root (e1 e2 : Env) r :
  (forall st (c : Context), context_state (context_enter st c) = Some st) ->
  transactionProxy (calls_subsidiary id g) w0 = (Return f, w0') ->
  createTransaction (agent (tracer w)) (env w) = (Return v, e1) ->
  truthy v = true ->
  (numTransactions (tracer w) + 1)%Z <> 0%Z ->
  getTraceRoot v e1 = (Return root, e2) ->
  truthy root = true ->
  (forall w1, fn_apply g this args w1 = (Return r, w1)) ->
  let n := (numTransactions (tracer w) + 1)%Z in
  let T := length (transactions w) in
  let w' := snd (f this args w) in
  fst (f this args w) = Return r /\
  transactions w' = transactions w ++ [Transaction.mk n v 2] /\
  segments w' =
    segments w ++ [Segment.mk 1 T root 1; Segment.mk 2 T root 1] /\
  trace (describer (tracer w')) =
    trace (describer (tracer w)) ++
      ["->" +:+ identity n 1 1; "->" +:+ identity n 2 1;
       "<-" +:+ identity n 2 1; "<-" +:+ identity n 1 1] /\
  creations (describer (tracer w')) =
    creations (describer (tracer w)) ++ ["+T"; "+S"; "+C"; "+S"; "+C"] /\
  wrappings (describer (tracer w')) =
    wrappings (describer (tracer w)) ++
      ["->T inner"; "->S outer"; "<-S outer"; "->S inner"; "<-S inner";
       "<-T inner"].
Proof.
  intros Hlaw Hp Hc Hv Hn Hr Hroot Hg n T w'.
  set (h := calls_subsidiary id g) in *.
  destruct (transactionProxy_run h) as (f0 & Hf & Hrun).
  rewrite Hf in Hp. injection Hp as <- _.
  pose proof (Hrun this args _ _ _ _ _ Hc Hv Hn Hr Hroot) as E. clear Hrun Hf.
  set (w1 := transaction_entry h v root e2 w) in *.
  set (stT := transaction_state h w) in *.
  destruct (segmentProxy_run g) as (fg & Hfg & _ & Hrung).
  set (w2 := logged [] [] ["->S outer"; "<-S outer"]
               ["->S outer"; "<-S outer"] w1).
  assert (Hst : context_state (context (tracer w2)) = Some stT)
    by apply Hlaw.
  assert (Ht : transactions w2 !! State.transaction stT =
               Some (Transaction.mk n v 1)) by (cbn; apply lookup_snoc).
  assert (Hs : segments w2 !! State.segment stT =
               Some (Segment.mk 1 T root 1)) by (cbn; apply lookup_snoc).
  pose proof (Hrung this args w2 _ _ _ Hst Ht Hs Hroot ltac:(cbn; lia)) as Eg.
  clear Hrung.
  set (w3 := segment_entry g stT _ _ w2) in *.
  set (stS := segment_state g stT w2) in *.
  rewrite Hg in Eg.
  pose proof (segment_entry_resolves g stT _ (Segment.mk 1 T root 1) w2 Ht)
    as R3. fold w3 stS in R3.
  rewrite (around_Return _ _ _ _ _ _ R3) in Eg.
  match type of Eg with _ = (_, ?x) => set (w4 := x) in * end.
  assert (Eh : fn_apply h this args w1 = (Return r, w4)).
  { subst h. cbn [fn_apply calls_subsidiary].
    erewrite bind_Return; [| apply Hfg]. exact Eg. }
  rewrite Eh in E.
  assert (R4 : resolves w4 (State.call stT)
                 (Transaction.mk n v 2) (Segment.mk 1 T root 1)).
  { split; cbn.
    - apply lookup_app_l_Some, lookup_snoc.
    - rewrite insert_snoc. apply lookup_snoc. }
  rewrite (around_Return _ _ _ _ _ _ R4) in E.
  subst w'. rewrite E. cbn [fst snd].
  split; [reflexivity|].
  subst w4 w3 w2 w1 stS stT h n T. clear.
  normalize_world. cbn.
  rewrite ?insert_snoc, <- ?app_assoc. cbn.
  repeat split; reflexivity.
Qed.

End Coverage.

(** ** The properties on the scenarios *)

Lemma busy_wf : store_wf Scenario.busy.
Proof.
  unfold store_wf. cbn. split; [lia|]. repeat split.
  - destruct r as [|r]; cbn in H; [injection H as <-; cbn; lia | discriminate].
  - destruct r as [|r]; cbn in H; [injection H as <-; cbn; lia | discriminate].
  - destruct r as [|r]; cbn in H; [injection H as <-; cbn; lia | discriminate].
  - destruct r as [|r]; cbn in H; [now injection H as <- | discriminate].
  - intros [|r1] [|r2] t1 t2 H1 H2 _; cbn in H1, H2;
      first [reflexivity | discriminate].
  - intros [|r] s H; cbn in H; [injection H as <- | discriminate].
    eexists. split; [reflexivity|]. cbn. repeat split; lia.
  - intros [|r1] [|r2] s1 s2 H1 H2 _ _; cbn in H1, H2;
      first [reflexivity | discriminate].
Qed.

Lemma counting_keeps (P : Scenario.world -> Prop) this args :
  (forall n w, P w -> P (set_env n w)) ->
  preserves (keeps P) (fn_apply Scenario.counting this args).
Proof. intros HP w Hw. apply HP, Hw. Qed.

(** The logs around the counting handler, under a transaction proxy. *)
Lemma logs_are_append_only_witness :
  exists f w0',
    transactionProxy Scenario.counting Scenario.fresh = (Return f, w0') /\
    forall this args w, logs_grow w (snd (f this args w)).
Proof.
  eexists _, _. split; [reflexivity|]. intros this args.
  refine (proj2 (proj2 (proj2
            (logs_are_append_only
               (ContextContract0 := StackContext_contract)
               (AgentContract0 := Scenario.agent_contract)
               Scenario.counting)))
            Scenario.fresh _ _ this args eq_refl _).
  intros w. repeat split; reflexivity.
Defined.

(** The verbose log around the counting handler. *)
Lemma verbose_interleaves_the_logs_witness :
  interleaved Scenario.fresh /\
  exists f w0',
    transactionProxy Scenario.counting Scenario.fresh = (Return f, w0') /\
    forall this args w, interleaved w -> interleaved (snd (f this args w)).
Proof.
  destruct (verbose_interleaves_the_logs
              (ContextContract0 := StackContext_contract)
              (AgentContract0 := Scenario.agent_contract)
              Scenario.counting) as (Hnew & Hkeep & _).
  split; [exact (Hnew tt [] _ [] [] 0 eq_refl)|].
  eexists _, _. split; [reflexivity|]. intros this args.
  refine (proj2 (proj2 (proj2 Hkeep)) Scenario.fresh _ _ this args eq_refl _).
  apply counting_keeps. intros n w Hw. exact Hw.
Defined.

(** The store around the counting handler. *)
Lemma store_only_extends_witness :
  exists f w0',
    transactionProxy Scenario.counting Scenario.fresh = (Return f, w0') /\
    forall this args w, heap_extends w (snd (f this args w)).
Proof.
  eexists _, _. split; [reflexivity|]. intros this args.
  refine (proj2 (proj2 (proj2
            (store_only_extends
               (ContextContract0 := StackContext_contract)
               (AgentContract0 := Scenario.agent_contract)
               Scenario.counting)))
            Scenario.fresh _ _ this args eq_refl _).
  intros w. apply heap_extends_same_store; reflexivity.
Defined.

(** The invariant on the new tracer and around the counting handler. *)
Lemma store_invariant_witness :
  store_wf Scenario.fresh /\
  exists f w0',
    transactionProxy Scenario.counting Scenario.fresh = (Return f, w0') /\
    forall this args w, store_wf w -> store_wf (snd (f this args w)).
Proof.
  destruct (store_invariant
              (ContextContract0 := StackContext_contract)
              (AgentContract0 := Scenario.agent_contract)
              Scenario.counting) as (Hnew & Hkeep).
  split; [exact (Hnew tt [] _ 0 eq_refl)|].
  eexists _, _. split; [reflexivity|]. intros this args.
  refine (proj2 (proj2 (proj2 Hkeep)) Scenario.fresh _ _ this args eq_refl _).
  apply counting_keeps. intros n w Hw. exact Hw.
Defined.

(** The count on the new tracer and around the counting handler. *)
Lemma transactions_are_counted_witness :
  transactions_counted Scenario.fresh /\
  exists f w0',
    transactionProxy Scenario.counting Scenario.fresh = (Return f, w0') /\
    forall this args w,
      transactions_counted w -> transactions_counted (snd (f this args w)).
Proof.
  destruct (transactions_are_counted
              (ContextContract0 := StackContext_contract)
              (AgentContract0 := Scenario.agent_contract)
              Scenario.counting) as (Hnew & Hkeep).
  split; [exact (Hnew tt [] _ [] [] 0 eq_refl)|].
  eexists _, _. split; [reflexivity|]. intros this args.
  refine (proj2 (proj2 (proj2 Hkeep)) Scenario.fresh _ _ this args eq_refl _).
  apply counting_keeps. intros n w Hw. exact Hw.
Defined.

(** A segment proxy around the counting handler, wherever it is invoked. *)
Lemma subsidiaries_create_no_transaction_witness :
  exists f w0',
    segmentProxy Scenario.counting Scenario.fresh = (Return f, w0') /\
    forall this args w, same_transactions w (snd (f this args w)).
Proof.
  eexists _, _. split; [reflexivity|]. intros this args.
  refine (proj2 (proj2 (proj2 (proj2 (proj2 (proj2 (proj2
            (subsidiaries_create_no_transaction
               (ContextContract0 := StackContext_contract)
               Scenario.counting)))))))
            Scenario.fresh _ _ this args (or_introl eq_refl) _).
  intros w. repeat split; reflexivity.
Defined.

(** The counters around the counting handler. *)
Lemma counters_never_decrease_witness :
  exists f w0',
    transactionProxy Scenario.counting Scenario.fresh = (Return f, w0') /\
    forall this args w, counters_grow w (snd (f this args w)).
Proof.
  eexists _, _. split; [reflexivity|]. intros this args.
  refine (proj2 (proj2 (proj2
            (counters_never_decrease
               (ContextContract0 := StackContext_contract)
               (AgentContract0 := Scenario.agent_contract)
               Scenario.counting)))
            Scenario.fresh _ _ this args eq_refl _).
  intros w. split; [cbn; lia|]. split; intros r x E; exists x; cbn; split;
    first [exact E | lia].
Defined.

(** A second call under the root segment of transaction 1. *)
Lemma calls_belong_to_segments_witness :
  exists c w',
    addCall 0 (JFun 9) Scenario.busy = (Return c, w') /\
    c = Call.mk 2 0 (JFun 9) /\
    call_wf w' c.
Proof.
  eexists _, _. split; [reflexivity|]. split; [reflexivity|].
  exact (proj1 (proj2 (proj2
           (calls_belong_to_segments
              Scenario.busy 0 (JFun 9) _ _ busy_wf eq_refl)))).
Defined.

(** The first calls of transaction 1 and of transaction 2 print
    differently. *)
Lemma call_identity_is_faithful_witness :
  Call_format (State.call Scenario.active_state) Scenario.elsewhere =
    (Return "T1S1C1", Scenario.elsewhere) /\
  fst (Call_format (State.call Scenario.active_state) Scenario.elsewhere) <>
  fst (Call_format (State.call Scenario.other_state) Scenario.elsewhere).
Proof.
  destruct (call_identity_is_faithful
              Scenario.elsewhere Scenario.elsewhere
              (State.call Scenario.active_state)
              (State.call Scenario.other_state)
              (Transaction.mk 1 (JObj 0) 1) (Segment.mk 1 0 (JObj 1) 2)
              (Transaction.mk 2 (JObj 2) 1) (Segment.mk 1 1 (JObj 3) 1)
              (conj eq_refl eq_refl) (conj eq_refl eq_refl))
    as [Hfmt Hinj].
  split; [exact Hfmt|].
  intros H. destruct (Hinj H) as [Hid _]. discriminate Hid.
Defined.

(** Outside any transaction the callback proxy is the handler. *)
Lemma callbackProxy_without_state_witness :
  exists f,
    callbackProxy Scenario.counting Scenario.fresh =
      (Return f, Scenario.fresh) /\
    f (JNum 7) [] Scenario.busy = (Return (JNum 7), set_env 1 Scenario.busy).
Proof.
  destruct (callbackProxy_without_state
              (ContextContract0 := StackContext_contract)
              Scenario.counting Scenario.fresh eq_refl) as (f & Hf & Happ).
  exists f. split; [exact Hf|]. rewrite Happ. reflexivity.
Defined.

(** With an agent that has nothing to hand out, transaction 1 is spent
    and the handler has not run. *)
Lemma transactionProxy_failures_witness :
  exists f w0' w2,
    transactionProxy (AgentContract0 := Scenario.no_agent)
      Scenario.counting Scenario.fresh = (Return f, w0') /\
    f JUndefined [] Scenario.fresh =
      (Throw (JError "Transactions must be associated with a value."), w2) /\
    numTransactions (tracer w2) = 1%Z /\
    creations (describer (tracer w2)) = ["+T"] /\
    transactions w2 = [] /\ context (tracer w2) = [] /\ env w2 = 0.
Proof.
  eexists _, _, _. split; [reflexivity|]. split.
  - exact (proj1 (proj2
             (transactionProxy_failures
                (ContextContract0 := StackContext_contract)
                (AgentContract0 := Scenario.no_agent)
                Scenario.counting Scenario.fresh _ _ JUndefined []
                Scenario.fresh eq_refl ltac:(cbn; lia)))
             JUndefined 0 eq_refl eq_refl).
  - repeat split.
Defined.

(** A segment and a call without a value, asked of transaction 1. *)
Lemma addSegment_addCall_not_atomic_witness :
  (exists w',
     addSegment 0 JUndefined Scenario.busy =
       (Throw (JError "Segments must be associated with a value."), w') /\
     transactions w' = [Transaction.mk 1 (JObj 0) 2] /\
     segments w' = [Segment.mk 1 0 (JObj 1) 1] /\
     creations (describer (tracer w')) = ["+S"]) /\
  (exists w',
     addCall 0 JNull Scenario.busy =
       (Throw (JError "Calls must be associated with a segment value."), w') /\
     segments w' = [Segment.mk 1 0 (JObj 1) 2] /\
     creations (describer (tracer w')) = ["+C"]).
Proof.
  split.
  - eexists. split.
    + exact (proj1 (addSegment_addCall_not_atomic
                      Scenario.busy JUndefined eq_refl)
               0 (Transaction.mk 1 (JObj 0) 1) eq_refl ltac:(cbn; lia)).
    + repeat split.
  - eexists. split.
    + exact (proj2 (addSegment_addCall_not_atomic
                      Scenario.busy JNull eq_refl)
               0 (Segment.mk 1 0 (JObj 1) 1) eq_refl ltac:(cbn; lia)).
    + repeat split.
Defined.

(** On the stack of States: a transaction started on an empty stack
    leaves it empty, and a subsidiary started in the middle of
    transaction 1 leaves its State on top. *)
Lemma proxies_restore_context_witness :
  (exists f w0',
     transactionProxy Scenario.counting Scenario.fresh = (Return f, w0') /\
     fst (f (JNum 7) [] Scenario.fresh) = Return (JNum 7) /\
     context (tracer (snd (f (JNum 7) [] Scenario.fresh))) = []) /\
  (exists f w0',
     segmentProxy Scenario.counting Scenario.fresh = (Return f, w0') /\
     fst (f (JNum 7) [] Scenario.busy) = Return (JNum 7) /\
     context (tracer (snd (f (JNum 7) [] Scenario.busy))) =
       [Scenario.active_state]) /\
  (exists f w0',
     callbackProxy Scenario.counting Scenario.busy = (Return f, w0') /\
     fst (f (JNum 7) [] Scenario.elsewhere) = Return (JNum 7) /\
     context (tracer (snd (f (JNum 7) [] Scenario.elsewhere))) =
       [Scenario.other_state]).
Proof.
  destruct (proxies_restore_context
              (ContextContract0 := StackContext_contract)
              (AgentContract0 := Scenario.agent_contract)
              Scenario.counting (JNum 7) [] Scenario.fresh
              (fun st c => eq_refl)) as (HT & _ & _).
  destruct (proxies_restore_context
              (ContextContract0 := StackContext_contract)
              (AgentContract0 := Scenario.agent_contract)
              Scenario.counting (JNum 7) [] Scenario.busy
              (fun st c => eq_refl)) as (_ & HS & _).
  destruct (proxies_restore_context
              (ContextContract0 := StackContext_contract)
              (AgentContract0 := Scenario.agent_contract)
              Scenario.counting (JNum 7) [] Scenario.elsewhere
              (fun st c => eq_refl)) as (_ & _ & HC).
  split; [|split].
  - eexists _, _. split; [reflexivity|].
    refine (HT _ Scenario.fresh _ (JObj 0) (JObj 1) 0 0 (JNum 7) _
              eq_refl eq_refl eq_refl ltac:(cbn; lia) eq_refl eq_refl
              eq_refl _ eq_refl).
    apply heap_extends_same_store; reflexivity.
  - eexists _, _. split; [reflexivity|].
    refine (HS _ Scenario.fresh _ Scenario.active_state
              (Transaction.mk 1 (JObj 0) 1) (Segment.mk 1 0 (JObj 1) 1)
              (JNum 7) _ eq_refl eq_refl eq_refl eq_refl eq_refl
              ltac:(cbn; lia) eq_refl _ eq_refl).
    apply heap_extends_same_store; reflexivity.
  - eexists _, _. split; [reflexivity|].
    refine (HC _ Scenario.busy _ Scenario.active_state
              (Segment.mk 1 0 (JObj 1) 1)
              (Transaction.mk 1 (JObj 0) 1) (Segment.mk 1 0 (JObj 1) 2)
              (JNum 7) _ eq_refl eq_refl eq_refl ltac:(cbn; lia)
              (conj eq_refl eq_refl) eq_refl _ eq_refl).
    apply heap_extends_same_store; reflexivity.
Defined.

(** Scenario (d) on a new tracer, with a subsidiary that returns 42. *)
Lemma subsidiary_joins_the_transaction_witness :
  exists f w0' w2,
    transactionProxy (calls_subsidiary 3 Scenario.return42) Scenario.fresh =
      (Return f, w0') /\
    f JUndefined [] Scenario.fresh = (Return (JNum 42), w2) /\
    transactions w2 = [Transaction.mk 1 (JObj 0) 2] /\
    segments w2 = [Segment.mk 1 0 (JObj 1) 1; Segment.mk 2 0 (JObj 1) 1] /\
    trace (describer (tracer w2)) =
      ["->T1S1C1"; "->T1S2C1"; "<-T1S2C1"; "<-T1S1C1"] /\
    creations (describer (tracer w2)) = ["+T"; "+S"; "+C"; "+S"; "+C"].
Proof.
  eexists _, _, _. split; [reflexivity|].
  destruct (subsidiary_joins_the_transaction
              (ContextContract0 := StackContext_contract)
              (AgentContract0 := Scenario.agent_contract)
              Scenario.return42 3 Scenario.fresh _ _ JUndefined []
              Scenario.fresh (JObj 0) (JObj 1) 0 0 (JNum 42)
              (fun st c => eq_refl) eq_refl eq_refl eq_refl
              ltac:(cbn; lia) eq_refl eq_refl (fun w1 => eq_refl))
    as (Hret & Htx & Hsg & Htr & Hcr & _).
  split; [apply surjective_pairing|]. 
  repeat split; assumption.
Defined.

(** ** The States that the proxies enter *)

Section Consistency.

Context {Agent Context Env : Type}.
Context `{!ContextContract Context, !AgentContract Agent Env}.

Local Abbreviation world := (World Agent Context Env).
Local Abbreviation handler := (Handler Agent Context Env).
Local Abbreviation callable := (Callable Agent Context Env jsval).

Implicit Types (w : world) (h : handler) (st : State.t).
Implicit Types (R : world -> world -> Prop).

(** The objects of the store and its invariant, together. *)
Local Abbreviation kept :=
  (fun w w' : world => heap_extends w w' /\ keeps store_wf w w').

Lemma reports_now (c : Context) st : context_state c = Some st -> reports c st.
Proof. intros H. now exists []. Qed.

Lemma reports_exit (c : Context) x st :
  reports (context_exit x c) st -> reports c st.
Proof. intros [exits H]. now exists (x :: exits). Qed.

Lemma chain_extends w w' st t s :
  chain w st t s -> heap_extends w w' ->
  exists t' s', chain w' st t' s' /\
    Transaction.id t' = Transaction.id t /\ Segment.id s' = Segment.id s.
Proof.
  intros (Hc & Hs & Hts & Ht) [HT HS].
  destruct (HS _ _ Hs) as (s' & Hs' & Is & Ps & Vs).
  destruct (HT _ _ Ht) as (t' & Ht' & It & _).
  exists t', s'. unfold chain. rewrite Ps. auto 10.
Qed.

(** What the invariant gives the proxies to work with. *)
Lemma tracer_wf_active w st :
  tracer_wf w -> context_state (context (tracer w)) = Some st ->
  exists t s, chain w st t s /\
    truthy (Segment.value s) = true /\
    (Transaction.numSegments t + 1)%Z <> 0%Z /\
    (Segment.numCalls s + 1)%Z <> 0%Z.
Proof.
  intros [(_ & Ht & _ & Hs & _) Hch] Hst.
  destruct (Hch st (reports_now _ _ Hst)) as (t & s & Hchain).
  exists t, s. split; [exact Hchain|].
  destruct Hchain as (_ & Hsl & _ & Htl).
  destruct (Ht _ _ Htl) as (_ & Hns & _).
  destruct (Hs _ _ Hsl) as (_ & _ & _ & Hnc & Hv).
  repeat split; [exact Hv | lia | lia].
Qed.

Lemma context_chained_step w w' :
  heap_extends w w' ->
  (forall x, reports (context (tracer w')) x ->
     reports (context (tracer w)) x \/ exists t s, chain w' x t s) ->
  context_chained w -> context_chained w'.
Proof.
  intros Hext Hrep Hch x Hx. destruct (Hrep x Hx) as [Hold|Hnew].
  - destruct (Hch x Hold) as (t & s & Hc).
    destruct (chain_extends _ _ _ _ _ Hc Hext) as (t' & s' & Hc' & _).
    eauto.
  - exact Hnew.
Qed.

(** Nothing but the logs, the environment and what the context reports
    has changed, and the context reports no more than before. *)
Lemma tracer_wf_context w w' :
  numTransactions (tracer w') = numTransactions (tracer w) ->
  transactions w' = transactions w -> segments w' = segments w ->
  (forall x, reports (context (tracer w')) x ->
     reports (context (tracer w)) x) ->
  tracer_wf w -> tracer_wf w'.
Proof.
  intros Hn Ht Hs Hc [Hwf Hch]. split.
  - unfold store_wf in *. rewrite Hn, Ht, Hs. exact Hwf.
  - apply (context_chained_step w w'); [| auto | exact Hch].
    apply heap_extends_same_store; assumption.
Qed.

Lemma tracer_wf_same w w' :
  numTransactions (tracer w') = numTransactions (tracer w) ->
  transactions w' = transactions w -> segments w' = segments w ->
  context (tracer w') = context (tracer w) ->
  tracer_wf w -> tracer_wf w'.
Proof.
  intros Hn Ht Hs Hc. apply tracer_wf_context; try assumption.
  intros x. now rewrite Hc.
Qed.

(** The store has moved on and the context is what it was. *)
Lemma tracer_wf_quiet w w' :
  kept w w' -> context (tracer w') = context (tracer w) ->
  tracer_wf w -> tracer_wf w'.
Proof.
  intros [Hext Hkeep] Hc [Hwf Hch]. split; [exact (Hkeep Hwf)|].
  apply (context_chained_step w w' Hext); [|exact Hch].
  intros x. rewrite Hc. auto.
Qed.

(** The store has moved on and the context was entered with a chain. *)
Lemma tracer_wf_entered st w w' t s :
  invents_no_state ->
  kept w w' ->
  context (tracer w') = context_enter st (context (tracer w)) ->
  chain w' st t s ->
  tracer_wf w -> tracer_wf w'.
Proof.
  intros Hlaw [Hext Hkeep] Hc Hchain [Hwf Hch]. split; [exact (Hkeep Hwf)|].
  apply (context_chained_step w w' Hext); [|exact Hch].
  intros x. rewrite Hc. intros Hx.
  destruct (Hlaw _ _ _ Hx) as [-> | Hold]; [right; eauto | left; exact Hold].
Qed.

Lemma Call_format_world (c : Call.t) w : snd (Call_format c w) = w.
Proof.
  unfold Call_format, bind, deref, ret. repeat case_match; simplify_eq; reflexivity.
Qed.

(** After the handler: [exit] and the closing wrapping keep the
    invariant, whatever State is exited and whether or not its call can
    be printed. *)
Lemma around_keeps st label (res : Outcome jsval * world) :
  tracer_wf (snd res) -> tracer_wf (snd (around st label res)).
Proof.
  destruct res as [[r|e] w2]; cbn [snd around]; [|auto]. intros Hwf.
  unfold exit, traceCall, bind at 1 2 3.
  pose proof (Call_format_world (State.call st) w2) as Hw.
  destruct (Call_format (State.call st) w2) as [[x|e] w3]; cbn [snd] in Hw;
    subst w3; [|exact Hwf].
  cbn. revert Hwf. apply tracer_wf_context; try reflexivity.
  intros y. apply reports_exit.
Qed.

Lemma stable_conj R1 R2 :
  stable R1 -> stable R2 -> stable (fun w w' => R1 w w' /\ R2 w w').
Proof.
  intros H1 H2. split.
  - intros w. split; [apply (stable_refl _ H1) | apply (stable_refl _ H2)].
  - intros w1 w2 w3 [A1 A2] [B1 B2]. split.
    + exact (stable_trans _ H1 _ _ _ A1 B1).
    + exact (stable_trans _ H2 _ _ _ A2 B2).
  - intros d t w. split;
      [apply (stable_traceWrapping _ H1) | apply (stable_traceWrapping _ H2)].
  - intros st w. split; [apply (stable_enter _ H1) | apply (stable_enter _ H2)].
  - intros st w. split; [apply (stable_exit _ H1) | apply (stable_exit _ H2)].
  - intros r v w. split;
      [apply (stable_addSegment _ H1) | apply (stable_addSegment _ H2)].
  - intros r v w. split;
      [apply (stable_addCall _ H1) | apply (stable_addCall _ H2)].
Qed.

Lemma kept_stable : stable kept.
Proof.
  apply stable_conj; [exact heap_extends_stable | exact store_wf_stable].
Qed.

(** Every method and proxy keeps the objects of the store and its
    invariant, around handlers that do. *)
Lemma kept_tracer h : tracer_preserves kept h.
Proof.
  apply stable_tracer.
  - exact kept_stable.
  - intros v w. split; [apply addTransaction_extends | apply addTransaction_wf].
  - intros e w. split; [apply heap_extends_same_store; reflexivity|].
    intros Hw. exact Hw.
Qed.

Lemma kept_throwing h this args :
  preserves kept (fn_apply (throwing h) this args).
Proof.
  intros w. split; [apply heap_extends_refl | intros Hw; exact Hw].
Qed.

Lemma kept_well_behaved h this args :
  preserves well_behaved (fn_apply h this args) ->
  preserves kept (fn_apply h this args).
Proof. intros Hh w. destruct (Hh w) as (A & B & _). now split. Qed.

(** The world in which the handler is entered is the world that the same
    proxy leaves around a handler that throws at once. *)
Lemma transaction_entry_kept h v root (e1 e2 : Env) w :
  createTransaction (agent (tracer w)) (env w) = (Return v, e1) ->
  truthy v = true ->
  (numTransactions (tracer w) + 1)%Z <> 0%Z ->
  getTraceRoot v e1 = (Return root, e2) ->
  truthy root = true ->
  kept w (transaction_entry h v root e2 w).
Proof.
  intros Hc Hv Hn Hr Hroot.
  destruct (transactionProxy_run (throwing h)) as (f0 & Hf0 & Hrun0).
  pose proof (Hrun0 JUndefined [] w _ _ _ _ Hc Hv Hn Hr Hroot) as E.
  destruct (kept_tracer (throwing h)) as (_ & _ & _ & Hinv).
  pose proof (Hinv w f0 _ JUndefined [] (Hf0 w)
                (kept_throwing h JUndefined []) w) as K.
  rewrite E in K. exact K.
Qed.

Lemma segment_entry_kept h st t s w :
  context_state (context (tracer w)) = Some st ->
  transactions w !! State.transaction st = Some t ->
  segments w !! State.segment st = Some s ->
  truthy (Segment.value s) = true ->
  (Transaction.numSegments t + 1)%Z <> 0%Z ->
  kept w (segment_entry h st t s w).
Proof.
  intros Hst Ht Hs Hv Hn.
  destruct (segmentProxy_run (throwing h)) as (f0 & Hf0 & _ & Hrun0).
  pose proof (Hrun0 JUndefined [] w _ _ _ Hst Ht Hs Hv Hn) as E.
  destruct (stable_subsidiary kept (throwing h) kept_stable)
    as (_ & _ & _ & _ & _ & _ & _ & Hinv).
  pose proof (Hinv w f0 _ JUndefined [] (or_introl (Hf0 w))
                (kept_throwing h JUndefined []) w) as K.
  rewrite E in K. exact K.
Qed.

(** Before it has built its State, the callable of [transactionProxy]
    leaves the context alone. *)
Lemma transactionProxy_quiet h (f : callable) w0 w0' this args w :
  transactionProxy h w0 = (Return f, w0') ->
  (numTransactions (tracer w) + 1)%Z <> 0%Z ->
  (exists v root (e1 e2 : Env),
     createTransaction (agent (tracer w)) (env w) = (Return v, e1) /\
     truthy v = true /\
     getTraceRoot v e1 = (Return root, e2) /\
     truthy root = true) \/
  context (tracer (snd (f this args w))) = context (tracer w).
Proof.
  intros Hp Hn.
  destruct (createTransaction (agent (tracer w)) (env w)) as [[v|x] e1] eqn:Hc.
  2:{ right. unfold transactionProxy in Hp.
      rewrite wrapExecution_run, ret_run in Hp. injection Hp as <- _.
      rewrite wrapExecution_run.
      erewrite bind_Return; [| apply gets_run; reflexivity].
      erewrite bind_Throw; [| apply on_env_run; exact Hc].
      reflexivity. }
  destruct (truthy v) eqn:Hv.
  2:{ right. unfold transactionProxy in Hp.
      rewrite wrapExecution_run, ret_run in Hp. injection Hp as <- _.
      rewrite wrapExecution_run.
      set (wA := logged [] [] ["->" +:+ "T inner"] ["->" +:+ "T inner"] w).
      erewrite bind_Return; [| apply gets_run; reflexivity].
      erewrite bind_Return; [| apply on_env_run; exact Hc].
      pose proof (addTransaction_run (set_env e1 wA) v) as E. cbv zeta in E.
      rewrite Transaction_construct_falsy in E by assumption.
      erewrite bind_Throw; [| exact E].
      reflexivity. }
  destruct (getTraceRoot v e1) as [[root|x] e2] eqn:Hr.
  2:{ right. unfold transactionProxy in Hp.
      rewrite wrapExecution_run, ret_run in Hp. injection Hp as <- _.
      rewrite wrapExecution_run.
      set (wA := logged [] [] ["->" +:+ "T inner"] ["->" +:+ "T inner"] w).
      erewrite bind_Return; [| apply gets_run; reflexivity].
      erewrite bind_Return; [| apply on_env_run; exact Hc].
      pose proof (addTransaction_run (set_env e1 wA) v) as E. cbv zeta in E.
      rewrite Transaction_construct_ok in E by assumption.
      erewrite bind_Return; [| exact E].
      erewrite bind_Throw; [| apply on_env_run; exact Hr].
      reflexivity. }
  destruct (truthy root) eqn:Hroot.
  { left. exists v, root, e1, e2. auto. }
  right. unfold transactionProxy in Hp.
  rewrite wrapExecution_run, ret_run in Hp. injection Hp as <- _.
  rewrite wrapExecution_run.
  set (wA := logged [] [] ["->" +:+ "T inner"] ["->" +:+ "T inner"] w).
  erewrite bind_Return; [| apply gets_run; reflexivity].
  erewrite bind_Return; [| apply on_env_run; exact Hc].
  pose proof (addTransaction_run (set_env e1 wA) v) as E. cbv zeta in E.
  rewrite Transaction_construct_ok in E by assumption.
  erewrite bind_Return; [| exact E]. clear E.
  match goal with |- context [bind _ _ ?w0] => set (wB := w0) end.
  erewrite bind_Return; [| apply on_env_run; exact Hr].
  assert (HtB : transactions (set_env e2 wB) !! length (transactions w) =
                Some (Transaction.mk (numTransactions (tracer w) + 1) v 0)).
  { subst wB. cbn. apply lookup_snoc. }
  pose proof (addSegment_run (set_env e2 wB) _ _ root HtB) as E.
  cbv zeta in E.
  rewrite Segment_construct_falsy in E by (first [assumption | cbn; lia]).
  erewrite bind_Throw; [| exact E].
  reflexivity.
Qed.

(** The States that the proxies build are chains of the world in which
    they are entered. *)
Lemma transaction_entry_chain h v root (e : Env) w :
  chain (transaction_entry h v root e w) (transaction_state h w)
    (Transaction.mk (numTransactions (tracer w) + 1) v 1)
    (Segment.mk 1 (length (transactions w)) root 1).
Proof. repeat split; cbn; apply lookup_snoc. Qed.

Lemma segment_entry_chain h st t0 s0 w :
  transactions w !! State.transaction st = Some t0 ->
  chain (segment_entry h st t0 s0 w) (segment_state h st w)
    (Transaction.set_numSegments (Transaction.numSegments t0 + 1) t0)
    (Segment.mk (Transaction.numSegments t0 + 1) (State.transaction st)
       (Segment.value s0) 1).
Proof.
  intros Ht. repeat split; cbn.
  - apply lookup_snoc.
  - apply list_lookup_insert_eq. now apply lookup_lt_Some with t0.
Qed.

Lemma callback_entry_chain h st t0 s0 w0 w :
  chain w0 st t0 s0 -> heap_extends w0 w ->
  exists t1 s1,
    resolves w (callback_call h st s0) t1 s1 /\
    chain (callback_entry (callback_state h st s0) t1 s1 w)
      (callback_state h st s0) t1 s1.
Proof.
  intros (Hcs & Hs & Hts & Ht) Hext.
  assert (R0 : resolves w0 (callback_call h st s0) t0 s0).
  { split; cbn; [now rewrite Hcs | now rewrite Hts]. }
  destruct (resolves_extends _ _ _ _ _ R0 Hext)
    as (t1 & s1 & [Hs1 Ht1] & It & Is & Its).
  exists t1, s1. split; [exact (conj Hs1 Ht1)|].
  cbn in Hs1. rewrite Hcs in Hs1. rewrite Its, Hts in Ht1.
  unfold chain. cbn.
  repeat split; [exact Hcs | exact Hs1 | | exact Ht1]. congruence.
Qed.

(** C8.  In each of the three proxies the callable applies the handler in
    a world whose context has been entered with a State whose three
    components are one ancestor chain of the store: its call was made
    under its segment, and its segment belongs to its transaction; the
    entry logged on entering carries the ids of that chain, and the same
    State is exited after the handler.

    [transactionProxy] and [segmentProxy] build the chain themselves.
    [callbackProxy] continues the State it finds in the context, which is
    a chain by the invariant of the tracer, [tracer_wf]: the store is as
    the constructors and the counters leave it, and every State that the
    context reports is a chain.  The invariant holds for a tracer that
    has just been constructed on a context that reports nothing; it
    provides what the proxies need of an active State; it holds again in
    the world in which a proxy applies the handler; and every
    construction of a proxy and every invocation of a callable keeps it,
    whether the callable returns or throws, around handlers that keep it,
    as long as the context invents no State.  So every State that a proxy
    enters in a run of the tracer is a chain; a State that other code has
    put into the shared context is not covered. *)
Theorem entered_states_are_consistent h this args w :
  (forall f w0 w0' v root e1 e2,
     transactionProxy h w0 = (Return f, w0') ->
     createTransaction (agent (tracer w)) (env w) = (Return v, e1) ->
     truthy v = true ->
     (numTransactions (tracer w) + 1)%Z <> 0%Z ->
     getTraceRoot v e1 = (Return root, e2) ->
     truthy root = true ->
     let st' := transaction_state h w in
     let w1 := transaction_entry h v root e2 w in
     exists t s,
       f this args w = around st' "T inner" (fn_apply h this args w1) /\
       context (tracer w1) = context_enter st' (context (tracer w)) /\
       chain w1 st' t s /\
       trace (describer (tracer w1)) =
         trace (describer (tracer w)) ++
           ["->" +:+ identity (Transaction.id t) (Segment.id s)
                       (Call.id (State.call st'))] /\
       (invents_no_state -> tracer_wf w -> tracer_wf w1)) /\
  (forall f w0 w0' st t0 s0,
     segmentProxy h w0 = (Return f, w0') ->
     context_state (context (tracer w)) = Some st ->
     transactions w !! State.transaction st = Some t0 ->
     segments w !! State.segment st = Some s0 ->
     truthy (Segment.value s0) = true ->
     (Transaction.numSegments t0 + 1)%Z <> 0%Z ->
     let st' := segment_state h st w in
     let w1 := segment_entry h st t0 s0 w in
     exists t s,
       f this args w = around st' "S inner" (fn_apply h this args w1) /\
       context (tracer w1) = context_enter st' (context (tracer w)) /\
       chain w1 st' t s /\
       trace (describer (tracer w1)) =
         trace (describer (tracer w)) ++
           ["->" +:+ identity (Transaction.id t) (Segment.id s)
                       (Call.id (State.call st'))] /\
       (invents_no_state -> tracer_wf w -> tracer_wf w1)) /\
  (forall f w0 w0' st,
     callbackProxy h w0 = (Return f, w0') ->
     context_state (context (tracer w0)) = Some st ->
     tracer_wf w0 ->
     heap_extends w0 w ->
     exists s0 t s,
       let st' := callback_state h st s0 in
       let w1 := callback_entry st' t s w in
       segments w0 !! State.segment st = Some s0 /\
       f this args w = around st' "C inner" (fn_apply h this args w1) /\
       context (tracer w1) = context_enter st' (context (tracer w)) /\
       chain w1 st' t s /\
       trace (describer (tracer w1)) =
         trace (describer (tracer w)) ++
           ["->" +:+ identity (Transaction.id t) (Segment.id s)
                       (Call.id (State.call st'))] /\
       (invents_no_state -> tracer_wf w -> tracer_wf w1)) /\
  (forall (a : Agent) (c : Context) tr (e : Env),
     Tracer_construct (Some a) (Some c) = Return tr ->
     (forall st, ~ reports c st) ->
     tracer_wf (mkWorld tr [] [] e)) /\
  (tracer_wf w ->
   (numTransactions (tracer w) + 1)%Z <> 0%Z /\
   forall st,
     context_state (context (tracer w)) = Some st ->
     exists t0 s0,
       chain w st t0 s0 /\
       truthy (Segment.value s0) = true /\
       (Transaction.numSegments t0 + 1)%Z <> 0%Z /\
       (Segment.numCalls s0 + 1)%Z <> 0%Z) /\
  (invents_no_state ->
   preserves well_behaved (fn_apply h this args) ->
   forall f w0 w0',
     transactionProxy h w0 = (Return f, w0') \/
     segmentProxy h w0 = (Return f, w0') \/
     callbackProxy h w0 = (Return f, w0') /\
       tracer_wf w0 /\ heap_extends w0 w ->
     keeps tracer_wf w0 w0' /\ well_behaved w (snd (f this args w))).
Proof.
  split; [|split; [|split; [|split; [|split]]]].
  - intros f w0 w0' v root e1 e2 Hp Hc Hv Hn Hr Hroot st' w1.
    destruct (transactionProxy_run h) as (f0 & Hf & Hrun).
    rewrite Hf in Hp. injection Hp as <- _.
    exists (Transaction.mk (numTransactions (tracer w) + 1) v 1),
      (Segment.mk 1 (length (transactions w)) root 1).
    pose proof (transaction_entry_chain h v root e2 w) as Hchain.
    split; [apply (Hrun _ _ _ _ _ _ _ Hc Hv Hn Hr Hroot)|].
    split; [reflexivity|]. split; [exact Hchain|]. split; [reflexivity|].
    intros Hlaw. eapply tracer_wf_entered; [exact Hlaw | | | exact Hchain].
    + exact (transaction_entry_kept h v root e1 e2 w Hc Hv Hn Hr Hroot).
    + reflexivity.
  - intros f w0 w0' st t0 s0 Hp Hst Ht Hs Hv Hn st' w1.
    destruct (segmentProxy_run h) as (f0 & Hf & _ & Hrun).
    rewrite Hf in Hp. injection Hp as <- _.
    exists (Transaction.set_numSegments (Transaction.numSegments t0 + 1) t0),
      (Segment.mk (Transaction.numSegments t0 + 1) (State.transaction st)
         (Segment.value s0) 1).
    pose proof (segment_entry_chain h st t0 s0 w Ht) as Hchain.
    split; [apply (Hrun _ _ _ _ _ _ Hst Ht Hs Hv Hn)|].
    split; [reflexivity|]. split; [exact Hchain|]. split; [reflexivity|].
    intros Hlaw. eapply tracer_wf_entered; [exact Hlaw | | | exact Hchain].
    + exact (segment_entry_kept h st t0 s0 w Hst Ht Hs Hv Hn).
    + reflexivity.
  - intros f w0 w0' st Hp Hst Hwf0 Hext.
    destruct (tracer_wf_active w0 st Hwf0 Hst)
      as (t0 & s0 & Hchain0 & _ & _ & Hn).
    destruct (callbackProxy_run h st s0 Hn) as (f0 & Hf & Hrun).
    assert (Hs' : segments w0 !! Call.segment (State.call st) = Some s0)
      by (destruct Hchain0 as (Hcs & Hs & _); now rewrite Hcs).
    rewrite (Hf _ Hst Hs') in Hp. injection Hp as <- _.
    destruct (callback_entry_chain h st t0 s0 w0 w Hchain0 Hext)
      as (t1 & s1 & R1 & Hchain).
    exists s0, t1, s1.
    split; [exact (proj1 (proj2 Hchain0))|].
    split; [apply (Hrun _ _ _ _ _ R1)|].
    split; [reflexivity|]. split; [exact Hchain|]. split; [reflexivity|].
    intros Hlaw. eapply tracer_wf_entered; [exact Hlaw | | | exact Hchain].
    + split; [apply heap_extends_same_store; reflexivity|].
      intros Hw. exact Hw.
    + reflexivity.
  - intros a c tr e [= <-] Hnone. split.
    + unfold store_wf. cbn. split; [lia|]. repeat split; intros; discriminate.
    + intros st Hst. destruct (Hnone st Hst).
  - intros Hwf. split.
    + destruct Hwf as [(Hn & _) _]. lia.
    + intros st Hst. exact (tracer_wf_active w st Hwf Hst).
  - intros Hlaw Hh f w0 w0' Hp.
    pose proof (kept_well_behaved h this args Hh) as Hk.
    destruct Hp as [Hp | [Hp | (Hp & Hwf0 & Hext)]].
    + (* transactionProxy *)
      assert (K : kept w (snd (f this args w))).
      { destruct (kept_tracer h) as (_ & _ & _ & Hinv).
        exact (Hinv w0 f w0' this args Hp Hk w). }
      split.
      { destruct (transactionProxy_run h) as (f0 & Hf & _).
        rewrite Hf in Hp. injection Hp as _ <-.
        exact (tracer_wf_same _ _ eq_refl eq_refl eq_refl eq_refl). }
      split; [exact (proj1 K)|]. split; [exact (proj2 K)|].
      intros Hwf.
      assert (Hn : (numTransactions (tracer w) + 1)%Z <> 0%Z)
        by (destruct Hwf as [(Hn & _) _]; lia).
      destruct (transactionProxy_quiet h f w0 w0' this args w Hp Hn)
        as [(v & root & e1 & e2 & Hc & Hv & Hr & Hroot) | Hctx].
      * destruct (transactionProxy_run h) as (f0 & Hf & Hrun).
        rewrite Hf in Hp. injection Hp as <- _.
        rewrite (Hrun _ _ _ _ _ _ _ Hc Hv Hn Hr Hroot).
        apply around_keeps.
        apply (proj2 (proj2 (Hh (transaction_entry h v root e2 w)))).
        eapply tracer_wf_entered; [exact Hlaw | | | | exact Hwf].
        -- exact (transaction_entry_kept h v root e1 e2 w Hc Hv Hn Hr Hroot).
        -- reflexivity.
        -- apply transaction_entry_chain.
      * exact (tracer_wf_quiet _ _ K Hctx Hwf).
    + (* segmentProxy *)
      assert (K : kept w (snd (f this args w))).
      { destruct (stable_subsidiary kept h kept_stable)
          as (_ & _ & _ & _ & _ & _ & _ & Hinv).
        exact (Hinv w0 f w0' this args (or_introl Hp) Hk w). }
      destruct (segmentProxy_run h) as (f0 & Hf & Hnone & Hsome).
      rewrite Hf in Hp. injection Hp as <- <-.
      split; [exact (tracer_wf_same _ _ eq_refl eq_refl eq_refl eq_refl)|].
      split; [exact (proj1 K)|]. split; [exact (proj2 K)|].
      intros Hwf.
      destruct (context_state (context (tracer w))) as [st|] eqn:Hst.
      * destruct (tracer_wf_active w st Hwf Hst)
          as (t0 & s0 & (Hcs & Hs & Hts & Ht) & Hv & Hn & _).
        rewrite (Hsome _ _ _ _ _ _ Hst Ht Hs Hv Hn).
        apply around_keeps.
        apply (proj2 (proj2 (Hh (segment_entry h st t0 s0 w)))).
        eapply tracer_wf_entered; [exact Hlaw | | | | exact Hwf].
        -- exact (segment_entry_kept h st t0 s0 w Hst Ht Hs Hv Hn).
        -- reflexivity.
        -- exact (segment_entry_chain h st t0 s0 w Ht).
      * rewrite (Hnone _ _ _ Hst).
        set (wA := logged [] [] ["->S inner"] ["->S inner"] w).
        assert (HwA : tracer_wf wA)
          by exact (tracer_wf_same _ _ eq_refl eq_refl eq_refl eq_refl Hwf).
        pose proof (proj2 (proj2 (Hh wA)) HwA) as H2.
        destruct (fn_apply h this args wA) as [[r|e] w2]; cbn [snd] in *.
        -- exact (tracer_wf_same _ _ eq_refl eq_refl eq_refl eq_refl H2).
        -- exact H2.
    + (* callbackProxy *)
      assert (K : kept w (snd (f this args w))).
      { destruct (stable_subsidiary kept h kept_stable)
          as (_ & _ & _ & _ & _ & _ & _ & Hinv).
        exact (Hinv w0 f w0' this args (or_intror Hp) Hk w). }
      destruct (context_state (context (tracer w0))) as [st|] eqn:Hst.
      * destruct (tracer_wf_active w0 st Hwf0 Hst)
          as (t0 & s0 & Hchain0 & _ & _ & Hn).
        destruct (callbackProxy_run h st s0 Hn) as (f0 & Hf & Hrun).
        assert (Hs' : segments w0 !! Call.segment (State.call st) = Some s0)
          by (destruct Hchain0 as (Hcs & Hs & _); now rewrite Hcs).
        assert (K0 : kept w0 w0').
        { destruct (stable_subsidiary kept h kept_stable)
            as (_ & _ & _ & _ & _ & _ & Hcons & _).
          pose proof (Hcons w0) as K0. rewrite Hp in K0. exact K0. }
        rewrite (Hf _ Hst Hs') in Hp. injection Hp as <- <-.
        split.
        { intros _. apply (tracer_wf_quiet w0 _ K0); [reflexivity|exact Hwf0]. }
        split; [exact (proj1 K)|]. split; [exact (proj2 K)|].
        intros Hwf.
        destruct (callback_entry_chain h st t0 s0 w0 w Hchain0 Hext)
          as (t1 & s1 & R1 & Hchain).
        rewrite (Hrun _ _ _ _ _ R1).
        apply around_keeps.
        apply (proj2 (proj2
                 (Hh (callback_entry (callback_state h st s0) t1 s1 w)))).
        eapply tracer_wf_entered; [exact Hlaw | | | exact Hchain | exact Hwf].
        -- split; [apply heap_extends_same_store; reflexivity|].
           intros Hw. exact Hw.
        -- reflexivity.
      * rewrite (callbackProxy_run_none h w0 Hst) in Hp.
        injection Hp as <- <-.
        split; [intros Hw; exact Hw|].
        split; [exact (proj1 K)|]. split; [exact (proj2 K)|].
        exact (proj2 (proj2 (Hh w))).
Qed.

End Consistency.

(** ** The invariant on the scenarios *)

(** The stack of States reports the States it holds. *)
Lemma stack_reports (c : StackContext.t) x :
  reports (ContextContract0 := StackContext_contract) c x <-> In x c.
Proof.
  split.
  - intros [exits H]. revert c H.
    induction exits as [|y exits IH]; intros c H.
    + destruct c as [|a c]; [discriminate|]. injection H as ->. now left.
    + apply IH in H. destruct c as [|a c]; [destruct H | now right].
  - induction c as [|a c IH]; intros H; [destruct H|].
    destruct H as [-> | H].
    + now exists [].
    + destruct (IH H) as [exits Hx]. now exists (a :: exits).
Qed.

Lemma stack_invents_no_state :
  invents_no_state (ContextContract0 := StackContext_contract).
Proof.
  intros st c x H. apply stack_reports in H. destruct H as [<- | H].
  - now left.
  - right. now apply stack_reports.
Qed.

Lemma elsewhere_wf : store_wf Scenario.elsewhere.
Proof.
  unfold store_wf. cbn. split; [lia|]. repeat split.
  - destruct r as [|[|r]]; cbn in H; try discriminate;
      injection H as <-; cbn; lia.
  - destruct r as [|[|r]]; cbn in H; try discriminate;
      injection H as <-; cbn; lia.
  - destruct r as [|[|r]]; cbn in H; try discriminate;
      injection H as <-; cbn; lia.
  - destruct r as [|[|r]]; cbn in H; try discriminate;
      now injection H as <-.
  - intros [|[|r1]] [|[|r2]] t1 t2 H1 H2 Hid; cbn in H1, H2;
      try discriminate; try reflexivity;
      injection H1 as <-; injection H2 as <-; discriminate.
  - intros [|[|r]] s H; cbn in H; try discriminate; injection H as <-;
      (eexists; split; [reflexivity|]; cbn; repeat split; lia).
  - intros [|[|r1]] [|[|r2]] s1 s2 H1 H2 Htx Hid; cbn in H1, H2;
      try discriminate; try reflexivity;
      injection H1 as <-; injection H2 as <-; discriminate.
Qed.

Lemma busy_tracer_wf :
  tracer_wf (ContextContract0 := StackContext_contract) Scenario.busy.
Proof.
  split; [exact busy_wf|]. intros st H. apply stack_reports in H.
  destruct H as [<- | []]. eexists _, _. repeat split.
Qed.

Lemma elsewhere_tracer_wf :
  tracer_wf (ContextContract0 := StackContext_contract) Scenario.elsewhere.
Proof.
  split; [exact elsewhere_wf|]. intros st H. apply stack_reports in H.
  destruct H as [<- | []]. eexists _, _. repeat split.
Qed.

Lemma counting_well_behaved this args :
  preserves (well_behaved (ContextContract0 := StackContext_contract))
    (fn_apply Scenario.counting this args).
Proof.
  intros w. split; [apply heap_extends_same_store; reflexivity|].
  split; intros Hw; exact Hw.
Qed.

(** The States entered in the scenarios, with the entries they log: each
    is a chain of the store, and the invariant holds before the handler
    and after the callable, on the stack of States. *)
Lemma entered_states_are_consistent_witness :
  tracer_wf (ContextContract0 := StackContext_contract) Scenario.fresh /\
  (exists f w0' st' w1 t s,
     transactionProxy Scenario.counting Scenario.fresh = (Return f, w0') /\
     f (JNum 7) [] Scenario.fresh =
       around st' "T inner" (fn_apply Scenario.counting (JNum 7) [] w1) /\
     context (tracer w1) = [st'] /\
     chain w1 st' t s /\
     trace (describer (tracer w1)) = ["->T1S1C1"] /\
     tracer_wf (ContextContract0 := StackContext_contract) w1 /\
     tracer_wf (ContextContract0 := StackContext_contract)
       (snd (f (JNum 7) [] Scenario.fresh))) /\
  (exists f w0' st' w1 t s,
     segmentProxy Scenario.counting Scenario.fresh = (Return f, w0') /\
     f (JNum 7) [] Scenario.busy =
       around st' "S inner" (fn_apply Scenario.counting (JNum 7) [] w1) /\
     context (tracer w1) = [st'; Scenario.active_state] /\
     chain w1 st' t s /\
     trace (describer (tracer w1)) = ["->T1S2C1"] /\
     tracer_wf (ContextContract0 := StackContext_contract) w1 /\
     tracer_wf (ContextContract0 := StackContext_contract)
       (snd (f (JNum 7) [] Scenario.busy))) /\
  (exists f w0' st' w1 t s,
     callbackProxy Scenario.counting Scenario.busy = (Return f, w0') /\
     f (JNum 7) [] Scenario.elsewhere =
       around st' "C inner" (fn_apply Scenario.counting (JNum 7) [] w1) /\
     context (tracer w1) = [st'; Scenario.other_state] /\
     chain w1 st' t s /\
     trace (describer (tracer w1)) = ["->T1S1C2"] /\
     tracer_wf (ContextContract0 := StackContext_contract) w0' /\
     tracer_wf (ContextContract0 := StackContext_contract) w1 /\
     tracer_wf (ContextContract0 := StackContext_contract)
       (snd (f (JNum 7) [] Scenario.elsewhere))) /\
  (exists f w0',
     transactionProxy (calls_subsidiary 3 Scenario.counting) Scenario.fresh =
       (Return f, w0') /\
     trace (describer (tracer (snd (f (JNum 7) [] Scenario.fresh)))) =
       ["->T1S1C1"; "->T1S2C1"; "<-T1S2C1"; "<-T1S1C1"] /\
     tracer_wf (ContextContract0 := StackContext_contract)
       (snd (f (JNum 7) [] Scenario.fresh))).
Proof.
  pose proof (entered_states_are_consistent
                (ContextContract0 := StackContext_contract)
                (AgentContract0 := Scenario.agent_contract)
                Scenario.counting (JNum 7) []) as H.
  assert (Hfresh : tracer_wf (ContextContract0 := StackContext_contract)
                     Scenario.fresh).
  { destruct (H Scenario.fresh) as (_ & _ & _ & Hnew & _).
    apply (Hnew tt [] _ 0 eq_refl).
    intros st Hst. apply stack_reports in Hst. destruct Hst. }
  split; [exact Hfresh|]. split; [|split; [|split]].
  - destruct (H Scenario.fresh) as (HT & _ & _ & _ & _ & Hkept).
    destruct (HT _ Scenario.fresh _ (JObj 0) (JObj 1) 0 0
                eq_refl eq_refl eq_refl ltac:(cbn; lia) eq_refl eq_refl)
      as (t & s & Hrun & Hctx & Hchain & Htr & Hwf1).
    destruct (Hkept stack_invents_no_state
                (counting_well_behaved (JNum 7) []) _ Scenario.fresh _
                (or_introl eq_refl)) as (_ & _ & _ & Hfin).
    pose proof Hchain as (_ & Hs & _ & Ht).
    injection Hs as <-. injection Ht as <-.
    eexists _, _, _, _, _, _. split; [reflexivity|].
    split; [exact Hrun|]. split; [exact Hctx|]. split; [exact Hchain|].
    split; [exact Htr|].
    split; [exact (Hwf1 stack_invents_no_state Hfresh) | exact (Hfin Hfresh)].
  - destruct (H Scenario.busy) as (_ & HS & _ & _ & _ & Hkept).
    destruct (HS _ Scenario.fresh _ Scenario.active_state
                (Transaction.mk 1 (JObj 0) 1) (Segment.mk 1 0 (JObj 1) 1)
                eq_refl eq_refl eq_refl eq_refl eq_refl ltac:(cbn; lia))
      as (t & s & Hrun & Hctx & Hchain & Htr & Hwf1).
    destruct (Hkept stack_invents_no_state
                (counting_well_behaved (JNum 7) []) _ Scenario.fresh _
                (or_intror (or_introl eq_refl))) as (_ & _ & _ & Hfin).
    pose proof Hchain as (_ & Hs & _ & Ht).
    injection Hs as <-. injection Ht as <-.
    eexists _, _, _, _, _, _. split; [reflexivity|].
    split; [exact Hrun|]. split; [exact Hctx|]. split; [exact Hchain|].
    split; [exact Htr|].
    split; [exact (Hwf1 stack_invents_no_state busy_tracer_wf)
           | exact (Hfin busy_tracer_wf)].
  - destruct (H Scenario.elsewhere) as (_ & _ & HC & _ & _ & Hkept).
    destruct (HC _ Scenario.busy _ Scenario.active_state
                eq_refl eq_refl busy_tracer_wf busy_elsewhere)
      as (s0 & t & s & Hs0 & Hrun & Hctx & Hchain & Htr & Hwf1).
    destruct (Hkept stack_invents_no_state
                (counting_well_behaved (JNum 7) []) _ Scenario.busy _
                (or_intror (or_intror
                   (conj eq_refl (conj busy_tracer_wf busy_elsewhere)))))
      as (Hcons & _ & _ & Hfin).
    injection Hs0 as <-.
    pose proof Hchain as (_ & Hs & _ & Ht).
    injection Hs as <-. injection Ht as <-.
    eexists _, _, _, _, _, _. split; [reflexivity|].
    split; [exact Hrun|]. split; [exact Hctx|]. split; [exact Hchain|].
    split; [exact Htr|].
    split; [exact (Hcons busy_tracer_wf)|].
    split; [exact (Hwf1 stack_invents_no_state elsewhere_tracer_wf)
           | exact (Hfin elsewhere_tracer_wf)].
  - eexists _, _. split; [reflexivity|]. split; [reflexivity|].
    destruct (entered_states_are_consistent
                (ContextContract0 := StackContext_contract)
                (AgentContract0 := Scenario.agent_contract)
                (calls_subsidiary 3 Scenario.counting) (JNum 7) []
                Scenario.fresh) as (_ & _ & _ & _ & _ & Hkept).
    refine (proj2 (proj2 (proj2
              (Hkept stack_invents_no_state _ _ Scenario.fresh _
                 (or_introl eq_refl)))) Hfresh).
    intros w1.
    destruct (H (snd (segmentProxy Scenario.counting w1)))
      as (_ & _ & _ & _ & _ & Hsub).
    destruct (Hsub stack_invents_no_state
                (counting_well_behaved (JNum 7) []) _ w1 _
                (or_intror (or_introl eq_refl))) as (Hcons & Hext & Hst & Hwf).
    split; [|split].
    + refine (heap_extends_trans _ _ _ _ Hext).
      apply heap_extends_same_store; reflexivity.
    + intros Hw. exact (Hst Hw).
    + intros Hw. exact (Hwf (Hcons Hw)).
Defined.
